(** * file_split_merge: splitting a file into chunks and merging them back

    A shallow embedding of [src/file_split_merge.py] over a model of the
    file system, together with the properties of the splitter, the merger
    and the checksum utility. *)

From Stdlib Require Import ZArith Lia Ascii String List Permutation Sorted.
From Stdlib Require Strings.Byte.
From stdpp Require Import base list gmap strings sorting.

Local Open Scope Z_scope.

(** ** Bytes *)

(** A Python [bytes] object: a finite sequence of octets. *)
Abbreviation bytes := (list Byte.byte).

Definition byte_to_Z (b : Byte.byte) : Z := Z.of_N (Byte.to_N b).

(** ** SHA-256 ([hashlib.sha256], FIPS 180-4)

    [hashlib] is not part of the repository; the digest is modelled by its
    standard: words are 32-bit integers carried as [Z] with the wrap-around
    written out. *)
Module Sha256.

Definition w32 (x : Z) : Z := x mod 2 ^ 32.
Definition add32 (a b : Z) : Z := w32 (a + b).
Definition rotr (n x : Z) : Z :=
  Z.lor (Z.shiftr x n) (w32 (Z.shiftl x (32 - n))).

Definition Ch (x y z : Z) : Z :=
  Z.lxor (Z.land x y) (Z.land (Z.lxor x (2 ^ 32 - 1)) z).
Definition Maj (x y z : Z) : Z :=
  Z.lxor (Z.lxor (Z.land x y) (Z.land x z)) (Z.land y z).
Definition Sigma0 (x : Z) : Z := Z.lxor (Z.lxor (rotr 2 x) (rotr 13 x)) (rotr 22 x).
Definition Sigma1 (x : Z) : Z := Z.lxor (Z.lxor (rotr 6 x) (rotr 11 x)) (rotr 25 x).
Definition sigma0 (x : Z) : Z := Z.lxor (Z.lxor (rotr 7 x) (rotr 18 x)) (Z.shiftr x 3).
Definition sigma1 (x : Z) : Z := Z.lxor (Z.lxor (rotr 17 x) (rotr 19 x)) (Z.shiftr x 10).

(** The constants are the first 32 bits of the fractional parts of the
    square roots ([H0]) and of the cube roots ([K]) of the first primes. *)
Definition is_prime (n : Z) : bool :=
  forallb (fun d => negb (n mod Z.of_nat d =? 0)) (seq 2 (Z.to_nat n - 2)).

Definition primes : list Z := filter (fun n => is_prime n = true) (map Z.of_nat (seq 2 310)).

(** The integer cube root, bit by bit from the top. *)
Fixpoint cube_root_bits (bits : nat) (x r : Z) : Z :=
  match bits with
  | O => r
  | S bits' =>
      let r' := r + 2 ^ Z.of_nat bits' in
      cube_root_bits bits' x (if r' * r' * r' <=? x then r' else r)
  end.

Definition frac_sqrt (p : Z) : Z := Z.sqrt (p * 2 ^ 64) mod 2 ^ 32.
Definition frac_cbrt (p : Z) : Z := cube_root_bits 36 (p * 2 ^ 96) 0 mod 2 ^ 32.

Definition H0 : list Z := Eval vm_compute in map frac_sqrt (firstn 8 primes).

Definition K : list Z := Eval vm_compute in map frac_cbrt (firstn 64 primes).

(** Padding: the bit 1, zeros up to 56 modulo 64, the bit length on 8 bytes. *)
Definition be_bytes (n : nat) (x : Z) : list Z :=
  map (fun i => Z.land (Z.shiftr x (8 * Z.of_nat i)) 255) (rev (seq 0 n)).

Definition pad (msg : list Z) : list Z :=
  let len := Z.of_nat (length msg) in
  msg ++ 128 :: repeat 0 (Z.to_nat ((55 - len) mod 64)) ++ be_bytes 8 (8 * len).

(** Big-endian 32-bit words of a byte string. *)
Fixpoint words (n : nat) (l : list Z) : list Z :=
  match n, l with
  | S n', a :: b :: c :: d :: l' =>
      (Z.shiftl a 24 + Z.shiftl b 16 + Z.shiftl c 8 + d) :: words n' l'
  | _, _ => []
  end.

(** The message schedule, kept newest word first. *)
Fixpoint schedule (n : nat) (r : list Z) : list Z :=
  match n with
  | O => r
  | S n' =>
      let w := add32 (add32 (sigma1 (nth 1 r 0)) (nth 6 r 0))
                     (add32 (sigma0 (nth 14 r 0)) (nth 15 r 0)) in
      schedule n' (w :: r)
  end.

Record regs := Regs { ra : Z; rb : Z; rc : Z; rd : Z; re : Z; rf : Z; rg : Z; rh : Z }.

Definition round (s : regs) (kw : Z * Z) : regs :=
  let t1 := add32 (add32 (add32 (rh s) (Sigma1 (re s)))
                         (add32 (Ch (re s) (rf s) (rg s)) kw.1)) kw.2 in
  let t2 := add32 (Sigma0 (ra s)) (Maj (ra s) (rb s) (rc s)) in
  Regs (add32 t1 t2) (ra s) (rb s) (rc s) (add32 (rd s) t1) (re s) (rf s) (rg s).

Definition of_list (h : list Z) : regs :=
  Regs (nth 0 h 0) (nth 1 h 0) (nth 2 h 0) (nth 3 h 0)
       (nth 4 h 0) (nth 5 h 0) (nth 6 h 0) (nth 7 h 0).
Definition to_list (s : regs) : list Z :=
  [ra s; rb s; rc s; rd s; re s; rf s; rg s; rh s].

Definition compress (h : list Z) (block : list Z) : list Z :=
  let w := rev (schedule 48 (rev (words 16 block))) in
  let s := fold_left round (combine K w) (of_list h) in
  zip_with add32 h (to_list s).

Fixpoint blocks (n : nat) (h : list Z) (l : list Z) : list Z :=
  match n with
  | O => h
  | S n' => blocks n' (compress h (firstn 64 l)) (skipn 64 l)
  end.

Definition digest (msg : bytes) : list Z :=
  let p := pad (map byte_to_Z msg) in
  blocks (length p / 64) H0 p.

(** Lowercase hexadecimal, as [hexdigest] prints it. *)
Definition hex_digit (x : Z) : ascii :=
  if x <? 10 then ascii_of_N (Z.to_N (48 + x)) else ascii_of_N (Z.to_N (87 + x)).

Definition hex_word (x : Z) : list ascii :=
  map (fun i => hex_digit (Z.land (Z.shiftr x (4 * Z.of_nat i)) 15)) (rev (seq 0 8)).

Definition hexdigest (msg : bytes) : string :=
  string_of_list_ascii (concat (map hex_word (digest msg))).

End Sha256.

Definition bytes_of_string (s : string) : bytes := list_byte_of_string s.


(** ** Glob patterns ([Path.glob] on one path component, [fnmatch])

    [pathlib] is not part of the repository.  The matcher follows
    [fnmatch.translate]: [*] matches any run of characters, [?] one
    character, [[seq]] one character of [seq] ([[!seq]] one character not
    in it), a bracket that is never closed is an ordinary character, and
    every other character matches itself (case-sensitively, as on POSIX).
    Names are byte strings; the model is exact on ASCII names. *)
Module Fnmatch.

Inductive tok :=
  | TStar
  | TAny
  | TSet (neg : bool) (items : list (ascii * ascii))
  | TLit (c : ascii).

Definition is_char (a c : ascii) : bool := Ascii.eqb a c.

(** The text up to the first closing bracket, and what follows it. *)
Fixpoint find_close (l : list ascii) : option (list ascii * list ascii) :=
  match l with
  | [] => None
  | c :: l' =>
      if is_char "]" c then Some ([], l')
      else match find_close l' with
           | Some (a, r) => Some (c :: a, r)
           | None => None
           end
  end.

(** After an opening bracket: a leading [!] negates, a closing bracket in
    first position belongs to the set. *)
Definition split_set (l : list ascii) : option (bool * list ascii * list ascii) :=
  let '(neg, l1) :=
    match l with
    | c :: l' => if is_char "!" c then (true, l') else (false, l)
    | [] => (false, l)
    end in
  match l1 with
  | c :: l2 =>
      if is_char "]" c
      then match find_close l2 with
           | Some (a, r) => Some (neg, c :: a, r)
           | None => None
           end
      else match find_close l1 with
           | Some (a, r) => Some (neg, a, r)
           | None => None
           end
  | [] => None
  end.

(** The members of a set: [a-b] is a range, anything else stands for itself. *)
Fixpoint set_items (l : list ascii) : list (ascii * ascii) :=
  match l with
  | [] => []
  | a :: l1 =>
      match l1 with
      | h :: b :: l' =>
          if is_char "-" h then (a, b) :: set_items l' else (a, a) :: set_items l1
      | _ => (a, a) :: set_items l1
      end
  end.

Fixpoint parse_aux (fuel : nat) (l : list ascii) : list tok :=
  match fuel with
  | O => []
  | S fuel' =>
      match l with
      | [] => []
      | c :: l' =>
          if is_char "*" c then TStar :: parse_aux fuel' l'
          else if is_char "?" c then TAny :: parse_aux fuel' l'
          else if is_char "[" c then
            match split_set l' with
            | Some (neg, stuff, r) => TSet neg (set_items stuff) :: parse_aux fuel' r
            | None => TLit c :: parse_aux fuel' l'
            end
          else TLit c :: parse_aux fuel' l'
      end
  end.

Definition parse (l : list ascii) : list tok := parse_aux (length l) l.

Definition code (c : ascii) : N := N_of_ascii c.

Definition in_items (c : ascii) (items : list (ascii * ascii)) : bool :=
  existsb (fun r => (code r.1 <=? code c)%N && (code c <=? code r.2)%N) items.

Fixpoint tmatch (p : list tok) (s : list ascii) : bool :=
  match p with
  | [] => match s with [] => true | _ => false end
  | TStar :: p' =>
      (fix star (s : list ascii) : bool :=
         tmatch p' s || match s with [] => false | _ :: s' => star s' end) s
  | TAny :: p' =>
      match s with [] => false | _ :: s' => tmatch p' s' end
  | TSet neg items :: p' =>
      match s with
      | [] => false
      | c :: s' => xorb neg (in_items c items) && tmatch p' s'
      end
  | TLit a :: p' =>
      match s with
      | [] => false
      | c :: s' => is_char a c && tmatch p' s'
      end
  end.

Definition fnmatch (name pat : string) : bool :=
  tmatch (parse (list_ascii_of_string pat)) (list_ascii_of_string name).

End Fnmatch.

(** ** The file system

    A path is the list of its components; the empty path is the directory
    every other path starts from.  The store maps each existing path to a
    regular file with its bytes or to a directory. *)

Abbreviation path := (list string).

Inductive node :=
  | File (data : bytes)
  | Dir.

Definition parent (p : path) : path := List.removelast p.
Definition name (p : path) : string := List.last p EmptyString.

(** [d / n] of pathlib; joining the empty name changes nothing. *)
Definition joinpath (d : path) (n : string) : path :=
  if String.eqb n EmptyString then d else d ++ [n].

(** Lines printed on standard output. *)
Inductive msg :=
  | MsgChunk (part : path) (size : Z)      (* a chunk was generated *)
  | MsgMerge (part out : path)             (* a chunk was appended *)
  | MsgHashOk                              (* merged, checksum verified *)
  | MsgHashMismatch.                       (* merged, but the hash differs *)

(** The world: the store, what was printed, the length of the buffer each
    [read] call returned, oldest first, and the size in bytes of the
    largest buffer the machine can allocate. *)
Record world := World {
  files : gmap path node;
  stdout : list msg;
  reads : list nat;
  memory : Z
}.

Inductive error :=
  | FileNotFoundError
  | FileExistsError
  | NotADirectoryError
  | IsADirectoryError
  | ZeroDivisionError
  | OverflowError
  | UnicodeDecodeError
  | ValueError
  | MemoryError.

Inductive result (A : Type) :=
  | Ok (a : A)
  | Raise (e : error).
Arguments Ok {A} a.
Arguments Raise {A} e.

(** Computations read and write the world and may raise; the world an
    exception leaves behind is kept, nothing is rolled back. *)
Definition M (A : Type) : Type := world -> world * result A.

#[global] Instance M_ret : MRet M := fun A a w => (w, Ok a).
#[global] Instance M_bind : MBind M := fun A B k m w =>
  match m w with
  | (w', Ok a) => k a w'
  | (w', Raise e) => (w', Raise e)
  end.

Definition raise {A} (e : error) : M A := fun w => (w, Raise e).
Definition get_files : M (gmap path node) := fun w => (w, Ok (files w)).
Definition put_files (f : gmap path node) : M unit :=
  fun w => (World f (stdout w) (reads w) (memory w), Ok tt).
Definition print (m : msg) : M unit :=
  fun w => (World (files w) (stdout w ++ [m]) (reads w) (memory w), Ok tt).
Definition log_read (n : nat) : M unit :=
  fun w => (World (files w) (stdout w) (reads w ++ [n]) (memory w), Ok tt).

Definition lookup_node (f : gmap path node) (p : path) : option node :=
  match p with
  | [] => Some Dir
  | _ => f !! p
  end.

Definition is_file (f : gmap path node) (p : path) : bool :=
  match lookup_node f p with Some (File _) => true | _ => false end.
Definition is_dir (f : gmap path node) (p : path) : bool :=
  match lookup_node f p with Some Dir => true | _ => false end.
Definition exists_ (f : gmap path node) (p : path) : bool :=
  match lookup_node f p with Some _ => true | None => false end.

(** [os.mkdir] *)
Definition os_mkdir (p : path) : M unit :=
  f ← get_files;
  if exists_ f p then raise FileExistsError
  else match lookup_node f (parent p) with
       | None => raise FileNotFoundError
       | Some (File _) => raise NotADirectoryError
       | Some Dir => put_files (<[p := Dir]> f)
       end.

(** [Path.mkdir(parents, exist_ok)] *)
Fixpoint mkdir (fuel : nat) (parents exist_ok : bool) (p : path) : M unit :=
  fun w =>
    match os_mkdir p w with
    | (w', Raise FileNotFoundError) =>
        match fuel with
        | S fuel' =>
            if negb parents || bool_decide (parent p = p)
            then (w', Raise FileNotFoundError)
            else (mkdir fuel' true true (parent p) ;;
                  mkdir fuel' false exist_ok p) w'
        | O => (w', Raise FileNotFoundError)
        end
    | (w', Raise e) =>
        if negb exist_ok || negb (is_dir (files w') p) then (w', Raise e)
        else (w', Ok tt)
    | r => r
    end.

(** [open(p, "wb")]: create the file or truncate it. *)
Definition open_wb (p : path) : M unit :=
  f ← get_files;
  match lookup_node f p with
  | Some Dir => raise IsADirectoryError
  | _ =>
      match lookup_node f (parent p) with
      | None => raise FileNotFoundError
      | Some (File _) => raise NotADirectoryError
      | Some Dir => put_files (<[p := File []]> f)
      end
  end.

(** [dst.write(data)] on a handle opened by [open_wb]: the bytes go to the
    end of the file. *)
Definition write (p : path) (data : bytes) : M unit :=
  f ← get_files;
  match f !! p with
  | Some (File old) => put_files (<[p := File (old ++ data)]> f)
  | _ => put_files (<[p := File data]> f)
  end.

(** [open(p, "rb")] *)
Definition open_rb (p : path) : M unit :=
  f ← get_files;
  match lookup_node f p with
  | Some (File _) => mret tt
  | Some Dir => raise IsADirectoryError
  | None => raise FileNotFoundError
  end.

Definition contents (f : gmap path node) (p : path) : bytes :=
  match f !! p with Some (File d) => d | _ => [] end.

(** At most [n] of the bytes of [l], and the rest. *)
Fixpoint take_upto (n : Z) (l : bytes) : bytes * bytes :=
  match l with
  | [] => ([], [])
  | b :: l' =>
      if n <=? 0 then ([], l)
      else let '(a, r) := take_upto (n - 1) l' in (b :: a, r)
  end.

(** What [read(n)] returns of the bytes left: up to [n] of them, all of
    them when [n] is negative. *)
Definition read_bytes (n : Z) (rest : bytes) : bytes :=
  if n <? 0 then rest else (take_upto n rest).1.

(** The largest [bytes] object of a 64-bit CPython. *)
Definition PY_SSIZE_T_MAX : Z := 2 ^ 63 - 1.
Definition max_bytes : Z := PY_SSIZE_T_MAX - 33.

(** [read(n)] allocates the [n] bytes it may return before it reads;
    [read()] allocates what is left of the file. *)
Definition request (n : Z) (rest : bytes) : Z :=
  if n <? 0 then Z.of_nat (length rest) else n.

Definition alloc (n : Z) : M unit :=
  fun w =>
    if max_bytes <? n then (w, Raise OverflowError)
    else if memory w <? n then (w, Raise MemoryError)
    else (w, Ok tt).

(** [f.read(n)] on a handle at offset [pos] of the file at [p]; gives the
    bytes and the new offset. *)
Definition read (p : path) (pos : nat) (n : Z) : M (bytes * nat) :=
  f ← get_files;
  let rest := drop pos (contents f p) in
  alloc (request n rest) ;;
  let buf := read_bytes n rest in
  log_read (length buf) ;;
  mret (buf, (pos + length buf)%nat).

(** [p.stat().st_size]; the tool asks for the size of regular files only. *)
Definition stat_size (p : path) : M Z :=
  f ← get_files;
  match lookup_node f p with
  | Some (File d) => mret (Z.of_nat (length d))
  | Some Dir => mret 0
  | None => raise FileNotFoundError
  end.

(** ** Text files

    [write_text] and [read_text] are modelled on ASCII text, which is what
    the tool writes.  A byte outside ASCII is decoded by the locale's
    encoding in Python; the model covers no encoding and raises there. *)

Definition encode (s : string) : bytes := list_byte_of_string s.

Definition is_ascii_byte (b : Byte.byte) : bool := (Byte.to_N b <? 128)%N.

Definition decode (d : bytes) : option string :=
  if forallb is_ascii_byte d then Some (string_of_list_byte d) else None.

Definition CR : ascii := ascii_of_N 13.
Definition LF : ascii := ascii_of_N 10.

(** Reading in text mode turns every line ending into a line feed. *)
Fixpoint universal_newlines (l : list ascii) : list ascii :=
  match l with
  | [] => []
  | c :: l' =>
      if Ascii.eqb c CR then
        match l' with
        | d :: l'' => if Ascii.eqb d LF then LF :: universal_newlines l''
                      else LF :: universal_newlines l'
        | [] => [LF]
        end
      else c :: universal_newlines l'
  end.

(** [str.isspace] on ASCII *)
Definition is_space (c : ascii) : bool :=
  let n := N_of_ascii c in
  ((9 <=? n) && (n <=? 13) || (28 <=? n) && (n <=? 32))%N.

Fixpoint lstrip (l : list ascii) : list ascii :=
  match l with
  | [] => []
  | c :: l' => if is_space c then lstrip l' else l
  end.

(** [str.strip()] *)
Definition strip (s : string) : string :=
  string_of_list_ascii (rev (lstrip (rev (lstrip (list_ascii_of_string s))))).

Definition write_text (p : path) (s : string) : M unit :=
  open_wb p ;; write p (encode s).

Definition read_text (p : path) : M string :=
  open_rb p ;;
  '(d, _) ← read p 0 (-1);
  match decode d with
  | Some s => mret (string_of_list_ascii (universal_newlines (list_ascii_of_string s)))
  | None => raise UnicodeDecodeError
  end.

(** ** Directory listing, [glob] and [sorted] *)

(** The entries of directory [d], in the order the store lists them. *)
Definition children (d : path) (l : list (path * node)) : list path :=
  filter (fun p => p ≠ [] ∧ parent p = d) (map fst l).

Definition listdir (f : gmap path node) (d : path) : list path :=
  children d (map_to_list f).

(** [d.glob(pat)] for a pattern of one component, from a listing. *)
Definition glob_from (listing : list path) (pat : string) : list path :=
  filter (fun p => Fnmatch.fnmatch (name p) pat = true) listing.

(** [pathlib] refuses a pattern component that holds [**] without being
    it. *)
Fixpoint has_double_star (l : list ascii) : bool :=
  match l with
  | a :: l' =>
      match l' with
      | b :: _ => Fnmatch.is_char "*" a && Fnmatch.is_char "*" b || has_double_star l'
      | [] => false
      end
  | [] => false
  end.

Definition glob (d : path) (pat : string) : M (list path) :=
  if has_double_star (list_ascii_of_string pat) then raise ValueError
  else
    f ← get_files;
    mret (if is_dir f d then glob_from (listdir f d) pat else []).

(** Paths compare as the lists of their components, strings by code. *)
Fixpoint path_compare (p q : path) : comparison :=
  match p, q with
  | [], [] => Eq
  | [], _ :: _ => Lt
  | _ :: _, [] => Gt
  | a :: p', b :: q' =>
      match String.compare a b with
      | Eq => path_compare p' q'
      | c => c
      end
  end.

Definition path_le (p q : path) : Prop := path_compare p q ≠ Gt.

#[global] Instance path_le_dec : RelDecision path_le.
Proof. intros p q. unfold path_le. apply _. Defined.

(** [sorted(...)]: Python sorts by merging ascending runs; the result is
    the ascending rearrangement of the paths. *)
Definition sorted (l : list path) : list path := merge_sort path_le l.

(** ** The tool *)

Definition CHUNK_SUFFIX_LEN : nat := 3.

Definition digit_char (d : Z) : ascii := ascii_of_N (Z.to_N (48 + d)).

Fixpoint decimal_aux (fuel : nat) (n : Z) (acc : list ascii) : list ascii :=
  match fuel with
  | O => acc
  | S fuel' =>
      let acc' := digit_char (n mod 10) :: acc in
      if n / 10 =? 0 then acc' else decimal_aux fuel' (n / 10) acc'
  end.

(** The decimal digits of a natural number. *)
Definition decimal (n : Z) : list ascii :=
  decimal_aux (S (Z.to_nat (Z.log2 n))) n [].

(** [f"{idx:0{width}d}"] for [idx >= 0]: zeros on the left up to [width]. *)
Definition format_index (width : nat) (idx : Z) : string :=
  let d := decimal idx in
  string_of_list_ascii (repeat "0"%char (width - length d) ++ d).

(** [iter(lambda: f.read(buf_size), b"")]: the buffers read until one is
    empty.  A non-empty buffer moves the offset, so the length of the file
    bounds the number of reads. *)
Fixpoint iter_read (fuel : nat) (p : path) (pos : nat) (buf_size : Z)
  : M (list bytes) :=
  match fuel with
  | O => mret []
  | S fuel' =>
      '(chunk, pos') ← read p pos buf_size;
      match chunk with
      | [] => mret []
      | _ => rest ← iter_read fuel' p pos' buf_size; mret (chunk :: rest)
      end
  end.

(** [hashlib]'s object holds what [update] was given so far; [hexdigest]
    is the digest of the concatenation. *)
Definition h_update (h : bytes) (chunk : bytes) : bytes := h ++ chunk.

Definition sha256sum (p : path) (buf_size : Z) : M string :=
  open_rb p ;;
  f ← get_files;
  chunks ← iter_read (S (length (contents f p))) p 0 buf_size;
  mret (Sha256.hexdigest (fold_left h_update chunks [])).

Definition default_buf_size : Z := Z.shiftl 1 20.

(** [range(n)] *)
Definition range (n : Z) : list Z := map Z.of_nat (seq 0 (Z.to_nat n)).

(** [a / b] on integers is the double nearest to the quotient, ties to
    even.  For positive [a] and [b]: *)
Definition round_half_even (num den : Z) : Z :=
  let q := num / den in
  match 2 * (num mod den) ?= den with
  | Lt => q
  | Gt => q + 1
  | Eq => if Z.even q then q else q + 1
  end.

(** the exponent [e] with [2^e <= a/b < 2^(e+1)], *)
Definition quot_exponent (a b : Z) : Z :=
  let e0 := Z.log2 a - Z.log2 b in
  if (if 0 <=? e0 then b * 2 ^ e0 <=? a else b <=? a * 2 ^ (- e0))
  then e0 else e0 - 1.

(** and the double as [(m, k)], standing for [m / 2^k]: 53 bits of
    mantissa, fewer below the smallest normal exponent. *)
Definition nearest_double (a b : Z) : Z * Z :=
  let e := Z.max (quot_exponent a b) (-1022) in
  let k := 52 - e in
  (if 0 <=? k then round_half_even (a * 2 ^ k) b
   else round_half_even a (b * 2 ^ (- k)), k).

(** [math.ceil(a / b)] *)
Definition ceil_div (a b : Z) : M Z :=
  if b =? 0 then raise ZeroDivisionError
  else if a =? 0 then mret 0
  else
    let '(m, k) := nearest_double (Z.abs a) (Z.abs b) in
    let positive := Z.sgn a * Z.sgn b =? 1 in
    if 0 <=? k then
      mret (if positive then - ((- m) / 2 ^ k) else - (m / 2 ^ k))
    else if 2 ^ 1024 <=? m * 2 ^ (- k) then raise OverflowError
    else mret (if positive then m * 2 ^ (- k) else - (m * 2 ^ (- k))).

Definition part_name (input_name : string) (idx : Z) : string :=
  input_name +:+ "." +:+ format_index CHUNK_SUFFIX_LEN idx.

(** The loop of [split_file]: one chunk file per index, each filled by one
    read of [chunk_size] bytes from the input handle at offset [pos]. *)
Fixpoint split_loop (input_path : path) (chunk_size : Z) (output_dir : path)
    (idxs : list Z) (pos : nat) (chunk_paths : list path) : M (list path) :=
  match idxs with
  | [] => mret chunk_paths
  | idx :: idxs' =>
      let part_path := joinpath output_dir (part_name (name input_path) idx) in
      open_wb part_path ;;
      '(buf, pos') ← read input_path pos chunk_size;
      write part_path buf ;;
      size ← stat_size part_path;
      print (MsgChunk part_path size) ;;
      split_loop input_path chunk_size output_dir idxs' pos' (chunk_paths ++ [part_path])
  end.

Definition split_file (input_path : path) (chunk_size_mb : Z) (output_dir : path)
  : M (list path) :=
  f ← get_files;
  if negb (is_file f input_path) then raise FileNotFoundError
  else
    mkdir (length output_dir) true true output_dir ;;
    let chunk_size := chunk_size_mb * Z.shiftl 1 20 in
    total_size ← stat_size input_path;
    total_parts ← ceil_div total_size chunk_size;
    open_rb input_path ;;
    chunk_paths ← split_loop input_path chunk_size output_dir (range total_parts) 0 [];
    h ← sha256sum input_path default_buf_size;
    write_text (joinpath output_dir (name input_path +:+ ".sha256")) h ;;
    mret chunk_paths.

(** The loop of [merge_files]: each chunk is read whole and appended. *)
Fixpoint merge_loop (output_path : path) (chunks : list path) : M unit :=
  match chunks with
  | [] => mret tt
  | part :: chunks' =>
      open_rb part ;;
      '(buf, _) ← read part 0 (-1);
      write output_path buf ;;
      print (MsgMerge part output_path) ;;
      merge_loop output_path chunks'
  end.

Definition digit_pattern : string :=
  String.concat "" (repeat "[0-9]"%string CHUNK_SUFFIX_LEN).

Definition merge_files (chunk_prefix : path) (output_path : option path) : M path :=
  f ← get_files;
  if negb (is_dir f (parent chunk_prefix)) then raise FileNotFoundError
  else
    found ← glob (parent chunk_prefix) (name chunk_prefix +:+ "." +:+ digit_pattern);
    let chunks := sorted found in
    match chunks with
    | [] => raise FileNotFoundError
    | _ =>
        let output_path :=
          match output_path with
          | Some p => p
          | None => joinpath (parent chunk_prefix) (name chunk_prefix)
          end in
        open_wb output_path ;;
        merge_loop output_path chunks ;;
        let sha_file := joinpath (parent chunk_prefix) (name chunk_prefix +:+ ".sha256") in
        f' ← get_files;
        (if exists_ f' sha_file then
           text ← read_text sha_file;
           let orig_hash := strip text in
           merged_hash ← sha256sum output_path default_buf_size;
           if String.eqb merged_hash orig_hash then print MsgHashOk
           else print MsgHashMismatch
         else mret tt) ;;
        mret output_path
    end.

(** ** Vocabulary of the specifications *)

(** A buffer of [n] bytes can be allocated. *)
Definition fits (w : world) (n : Z) : Prop := n <= max_bytes ∧ n <= memory w.

(** No component of [d] is taken by a regular file. *)
Definition creatable (f : gmap path node) (d : path) : Prop :=
  forall p data, p `prefix_of` d -> f !! p ≠ Some (File data).

(** [f'] is [f] with directories added along [d], and nothing else. *)
Definition dirs_added (d : path) (f f' : gmap path node) : Prop :=
  forall p, f' !! p = f !! p ∨
            (f !! p = None ∧ f' !! p = Some Dir ∧ p `prefix_of` d).


(** The path of the chunk of index [idx] of a file named [n], in [d]. *)
Definition part_path (d : path) (n : string) (idx : Z) : path :=
  joinpath d (part_name n idx).

(** The path of the digest sidecar of a file named [n], in [d]. *)
Definition sidecar_path (d : path) (n : string) : path :=
  joinpath d (n +:+ ".sha256").

(** The buffers that [k] successive reads of [size] bytes return, from
    offset [pos] of [content]. *)
Fixpoint slices (size : Z) (content : bytes) (pos : nat) (k : nat) : list bytes :=
  match k with
  | O => []
  | S k' =>
      let buf := read_bytes size (drop pos content) in
      buf :: slices size content (pos + length buf) k'
  end.

(** The store after the listed files were written, in that order. *)
Definition write_parts (f : gmap path node) (l : list (path * bytes))
  : gmap path node :=
  foldl (fun f pb => <[pb.1 := File pb.2]> f) f l.

(** The lines printed for the chunks of a split. *)
Definition chunk_msgs (parts : list path) (bufs : list bytes) : list msg :=
  zip_with (fun p b => MsgChunk p (Z.of_nat (length b))) parts bufs.

(** The number a string of decimal digits stands for. *)
Definition digit_val (c : ascii) : Z := Z.of_N (N_of_ascii c) - 48.

Definition decimal_val (l : list ascii) : Z :=
  fold_left (fun a c => 10 * a + digit_val c) l 0.

(** A name without the characters that [glob] reads as wildcards. *)
Definition is_meta (c : ascii) : bool :=
  Fnmatch.is_char "*" c || Fnmatch.is_char "?" c || Fnmatch.is_char "[" c.

Definition literal (n : string) : Prop :=
  forallb (fun c => negb (is_meta c)) (list_ascii_of_string n) = true.

(** The pattern [merge_files] gives to [glob] for a prefix named [n]. *)
Definition chunk_pattern (n : string) : string := n +:+ "." +:+ digit_pattern.

(** The pattern for [n] is one that [glob] accepts: no [**] in the name. *)
Definition accepted (n : string) : Prop :=
  has_double_star (list_ascii_of_string (chunk_pattern n)) = false.

(** The index [idx] on exactly three digits. *)
Definition three_digits (idx : Z) : list ascii :=
  [digit_char (idx / 100); digit_char (idx / 10 mod 10); digit_char (idx mod 10)].

Definition is_digit (c : ascii) : bool :=
  (48 <=? N_of_ascii c)%N && (N_of_ascii c <=? 57)%N.

(** The chunks [merge_files] discovers for a prefix named [n] in [d], in
    the order it concatenates them. *)
Definition discovered (f : gmap path node) (d : path) (n : string) : list path :=
  sorted (glob_from (listdir f d) (chunk_pattern n)).

(** The line printed after comparing the digest of the output with the
    text of the sidecar. *)
Definition verdict (merged : bytes) (sidecar_text : string) : msg :=
  if String.eqb (Sha256.hexdigest merged)
                (strip (string_of_list_ascii
                          (universal_newlines (list_ascii_of_string sidecar_text))))
  then MsgHashOk else MsgHashMismatch.

Definition merge_msgs (out : path) (chunks : list path) : list msg :=
  map (fun p => MsgMerge p out) chunks.

(** The output path of [merge_files]: the one given, else the prefix. *)
Definition resolve_output (prefix : path) (output : option path) : path :=
  match output with
  | Some p => p
  | None => joinpath (parent prefix) (name prefix)
  end.

(** A character of a lowercase hexadecimal number. *)
Definition is_lower_hex (c : ascii) : bool :=
  is_digit c || (97 <=? N_of_ascii c)%N && (N_of_ascii c <=? 102)%N.

(** What the sidecar text is compared with the digest as: read in text
    mode and trimmed. *)
Definition stored_hash (text : string) : string :=
  strip (string_of_list_ascii (universal_newlines (list_ascii_of_string text))).

(** [str.upper] on ASCII *)
Definition upper_char (c : ascii) : ascii :=
  let n := N_of_ascii c in
  if ((97 <=? n) && (n <=? 122))%N then ascii_of_N (n - 32) else c.

Definition upper (s : string) : string :=
  string_of_list_ascii (map upper_char (list_ascii_of_string s)).

(** The indices of [idxs] whose chunk name the pattern for [n] matches, in
    ascending order. *)
Definition matched_indices (n : string) (idxs : list Z) : list Z :=
  merge_sort Z.le
    (filter (fun j => Fnmatch.fnmatch (part_name n j) (chunk_pattern n) = true) idxs).

(** ** Worlds for the examples *)

(** A machine with 8 GiB for its buffers. *)
Definition ram : Z := 2 ^ 33.

Definition w_no_chunks : world :=
  World {[ ["parts"] := Dir;
           ["parts"; "movie.mkv.sha256"] := File (encode "00");
           ["parts"; "movie.mkv.1000"] := File (encode "x");
           ["parts"; "notes.txt"] := File (encode "y") ]} [] [] ram.

Definition w_small : world :=
  World {[ ["in"] := Dir; ["in"; "f.bin"] := File (bytes_of_string "abc") ]} [] [] ram.

Definition w_empty : world :=
  World {[ ["in"] := Dir; ["in"; "empty.bin"] := File [] ]} [] [] ram.

Definition w_one : world :=
  World {[ ["in"] := Dir; ["in"; "one.bin"] := File (bytes_of_string "x") ]} [] [] ram.

(** One chunk holding "abc" and a sidecar: the digest of "abc" in
    uppercase, the digest between blanks, and a wrong digest. *)
Definition abc_digest : string :=
  "ba7816bf8f01cfea414140de5dae2223b00361a396177a9cb410ff61f20015ad".

Definition w_sidecar (side : option string) : world :=
  World (match side with
         | Some s => <[ ["parts"; "f.bin.sha256"] := File (encode s) ]>
         | None => fun f => f
         end
           {[ ["parts"] := Dir;
              ["parts"; "f.bin.000"] := File (bytes_of_string "abc") ]}) [] [] ram.

Definition w_upper : world := w_sidecar (Some (upper abc_digest)).
Definition w_padded : world :=
  w_sidecar (Some (" " +:+ abc_digest +:+ String LF EmptyString)).
Definition w_wrong : world := w_sidecar (Some "00").
Definition w_bare : world := w_sidecar None.

(** A prefix with brackets in its name, beside a file of another name. *)
Definition w_brackets : world :=
  World {[ ["parts"] := Dir;
           ["parts"; "a[1].bin.000"] := File (bytes_of_string "abc");
           ["parts"; "a1.bin.000"] := File (bytes_of_string "other") ]} [] [] ram.

(** The chunk and the sidecar of a file named [*[]. *)
Definition w_star : world :=
  World {[ ["parts"] := Dir;
           ["parts"; "*[.000"] := File (bytes_of_string "abc");
           ["parts"; "*[.sha256"] := File (encode abc_digest) ]} [] [] ram.

Definition w_bracket_input : world :=
  World {[ ["in"] := Dir; ["in"; "a[1].bin"] := File (bytes_of_string "abc") ]} [] [] ram.



(** Two chunks of a file named [a[1].bin]. *)
Definition w_bracket_chunks : world :=
  World {[ ["parts"] := Dir;
           ["parts"; "a[1].bin.000"] := File (bytes_of_string "abc");
           ["parts"; "a[1].bin.001"] := File (bytes_of_string "def") ]} [] [] ram.

(** An empty file named [*[] and an empty file named [a**b]. *)
Definition w_wild_empty : world :=
  World {[ ["in"] := Dir; ["in"; "*["] := File []; ["in"; "a**b"] := File [] ]}
        [] [] ram.

(** One chunk holding "abc" and a sidecar that is not text. *)
Definition w_binary_sidecar : world :=
  World {[ ["parts"] := Dir;
           ["parts"; "f.bin.000"] := File (bytes_of_string "abc");
           ["parts"; "f.bin.sha256"] := File [Byte.xff] ]} [] [] ram.

(** ** The command line

    [main], from the namespace that [parser.parse_args()] returns: the
    sub-command with its arguments converted ([type=Path], [type=int];
    [output_dir] is [Path(".")] and [output_file] is [None] when left
    out).  An exception of the command is caught, reported on the standard
    error, and turned into the exit status 1. *)
Inductive namespace :=
  | Split (input_file : path) (chunk_size_mb : Z) (output_dir : path)
  | Merge (chunk_prefix : path) (output_file : option path).

(** How the process ends: the world it leaves, the errors it reported on
    the standard error, one line each, and its exit status. *)
Record outcome := Outcome {
  final : world;
  stderr : list error;
  exit_status : Z
}.

Definition main (args : namespace) (w : world) : outcome :=
  let command : M unit :=
    match args with
    | Split input_file chunk_size_mb output_dir =>
        split_file input_file chunk_size_mb output_dir ;; mret tt
    | Merge chunk_prefix output_file =>
        merge_files chunk_prefix output_file ;; mret tt
    end in
  match command w with
  | (w', Ok _) => Outcome w' [] 0
  | (w', Raise e) => Outcome w' [e] 1
  end.

(** ** Vocabulary of the further properties *)

(** Every run of [m] leaves a world related by [R] to the one it started
    in, whether it returns or raises. *)
Definition preserves {A} (R : relation world) (m : M A) : Prop :=
  forall w, R w (m w).1.

(** The world is as it was, but for the trace of the reads. *)
Definition reads_only (w w' : world) : Prop :=
  files w' = files w ∧ stdout w' = stdout w ∧ memory w' = memory w.

(** The store is as it was outside of [out]. *)
Definition writes_at (out : path) (w w' : world) : Prop :=
  forall p, p ≠ out -> files w' !! p = files w !! p.

(** What a split may do to the store: add directories along [d], write
    chunks of [n] and the sidecar of [n] in [d]. *)
Definition split_writes (d : path) (n : string) (w w' : world) : Prop :=
  forall p,
    files w' !! p = files w !! p
    ∨ (p `prefix_of` d ∧ files w !! p = None ∧ files w' !! p = Some Dir)
    ∨ (exists idx, 0 <= idx ∧ p = part_path d n idx)
    ∨ p = sidecar_path d n.

(** ** More worlds for the examples *)

(** An output directory that holds a chunk of an earlier split. *)
Definition w_stale : world :=
  World {[ ["in"] := Dir; ["in"; "f.bin"] := File (bytes_of_string "abc");
           ["out"] := Dir; ["out"; "f.bin.001"] := File (bytes_of_string "old") ]}
        [] [] ram.

(** A directory among the chunks. *)
Definition w_dir_chunk : world :=
  World {[ ["parts"] := Dir;
           ["parts"; "f.bin.000"] := File (bytes_of_string "abc");
           ["parts"; "f.bin.001"] := Dir;
           ["parts"; "f.bin.002"] := File (bytes_of_string "def") ]} [] [] ram.

(** Chunks 000 and 002 of a file, without sidecar. *)
Definition w_dir_files : world :=
  World {[ ["parts"] := Dir;
           ["parts"; "f.bin.002"] := File (bytes_of_string "def");
           ["parts"; "f.bin.000"] := File (bytes_of_string "abc") ]} [] [] ram.
(** * Properties *)

(** ** Sanity checks of the models *)

Example sha256_empty :
  Sha256.hexdigest [] =
  "e3b0c44298fc1c149afbf4c8996fb92427ae41e4649b934ca495991b7852b855"%string.
Proof. by vm_compute. Qed.

Example sha256_abc : Sha256.hexdigest (bytes_of_string "abc") = abc_digest.
Proof. by vm_compute. Qed.

Example sha256_constants :
  length Sha256.H0 = 8%nat ∧ length Sha256.K = 64%nat
  ∧ nth 0 Sha256.H0 0 = 0x6a09e667 ∧ nth 63 Sha256.K 0 = 0xc67178f2.
Proof. by vm_compute. Qed.

Example sha256_two_blocks :
  Sha256.hexdigest
    (bytes_of_string "abcdbcdecdefdefgefghfghighijhijkijkljklmklmnlmnomnopnopq") =
  "248d6a61d20638b8e5c026930c3e6039a33ce45964ff2167f6ecedd419db06c1"%string.
Proof. by vm_compute. Qed.

Example fnmatch_chunk :
  Fnmatch.fnmatch "movie.mkv.012" (chunk_pattern "movie.mkv") = true
  ∧ Fnmatch.fnmatch "movie.mkv.sha256" (chunk_pattern "movie.mkv") = false
  ∧ Fnmatch.fnmatch "movie.mkv.1000" (chunk_pattern "movie.mkv") = false
  ∧ Fnmatch.fnmatch "movie.mkv.01" (chunk_pattern "movie.mkv") = false.
Proof. by vm_compute. Qed.

Example fnmatch_sets :
  Fnmatch.fnmatch "b" "[!a]" = true ∧ Fnmatch.fnmatch "]" "[]]" = true
  ∧ Fnmatch.fnmatch "-" "[a-]" = true ∧ Fnmatch.fnmatch "c" "[a-c-e]" = true
  ∧ Fnmatch.fnmatch "d" "[a-c-e]" = false ∧ Fnmatch.fnmatch "[" "[" = true
  ∧ Fnmatch.fnmatch "x" "[b-a]" = false ∧ Fnmatch.fnmatch "x" "[!b-a]" = true.
Proof. by vm_compute. Qed.

Example format_index_examples :
  format_index 3 0 = "000"%string ∧ format_index 3 42 = "042"%string
  ∧ format_index 3 999 = "999"%string ∧ format_index 3 1000 = "1000"%string.
Proof. by vm_compute. Qed.

Example strip_examples :
  strip (" " +:+ abc_digest +:+ String LF (String CR EmptyString)) = abc_digest
  ∧ strip "a b" = "a b"%string ∧ strip "" = ""%string.
Proof. by vm_compute. Qed.

(** The float quotient: exact on small sizes, rounded on large ones,
    flushed to zero on tiny quotients, refused on huge ones. *)
Example ceil_div_examples (w : world) :
  ceil_div (10 * 2 ^ 20) (4 * 2 ^ 20) w = (w, Ok 3)
  ∧ ceil_div 3 (2 ^ 20) w = (w, Ok 1)
  ∧ ceil_div (2 ^ 53 + 1) (2 ^ 20) w = (w, Ok (2 ^ 33))
  ∧ ceil_div 1 (2 ^ 1074) w = (w, Ok 1)
  ∧ ceil_div 1 (2 ^ 1075) w = (w, Ok 0)
  ∧ ceil_div 7 (-2) w = (w, Ok (-3))
  ∧ ceil_div (2 ^ 1030) 1 w = (w, Raise OverflowError)
  ∧ ceil_div 5 0 w = (w, Raise ZeroDivisionError).
Proof. by vm_compute. Qed.

(** A chunk size beyond what can be allocated: the read of the first chunk
    raises, after its file was opened for writing. *)
Example split_chunk_beyond_memory :
  let r := split_file ["in"; "f.bin"] (2 ^ 13 + 1) ["out"] w_small in
  r.2 = Raise MemoryError ∧ files r.1 !! ["out"; "f.bin.000"] = Some (File [])
  ∧ (split_file ["in"; "f.bin"] (2 ^ 43) ["out"] w_small).2 = Raise OverflowError.
Proof. by vm_compute. Qed.

(** The scenario of the specification, on a smaller scale: 10 bytes in
    chunks of 4 give chunks of 4, 4 and 2 bytes. *)
Example slices_10_by_4 :
  map length (slices 4 (bytes_of_string "0123456789") 0 3) = [4; 4; 2]%nat
  ∧ concat (slices 4 (bytes_of_string "0123456789") 0 3) = bytes_of_string "0123456789".
Proof. by vm_compute. Qed.

(** ** Running the primitive operations *)

Ltac unfold_M :=
  unfold mbind, M_bind, mret, M_ret, get_files, put_files, print, raise, log_read.

Lemma alloc_run (n : Z) (w : world) : fits w n -> alloc n w = (w, Ok tt).
Proof.
  intros [H1 H2]. unfold alloc.
  destruct (Z.ltb_spec max_bytes n); [lia|].
  destruct (Z.ltb_spec (memory w) n); [lia|]. done.
Qed.

Lemma bind_run {A B} (m : M A) (k : A -> M B) (w w' : world) (a : A) :
  m w = (w', Ok a) -> (m ≫= k) w = k a w'.
Proof. intros H. unfold mbind, M_bind. by rewrite H. Qed.

Lemma bind_raise {A B} (m : M A) (k : A -> M B) (w w' : world) (e : error) :
  m w = (w', Raise e) -> (m ≫= k) w = (w', Raise e).
Proof. intros H. unfold mbind, M_bind. by rewrite H. Qed.

Lemma take_upto_firstn (n : Z) (l : bytes) :
  take_upto n l = (take (Z.to_nat n) l, drop (Z.to_nat n) l).
Proof.
  revert n. induction l as [|b l IH]; intros n; simpl.
  - by destruct (Z.to_nat n).
  - destruct (Z.leb_spec n 0) as [Hn|Hn].
    + replace (Z.to_nat n) with O by lia. done.
    + rewrite IH. replace (Z.to_nat n) with (S (Z.to_nat (n - 1))) by lia. done.
Qed.

Lemma read_bytes_nonneg (n : Z) (l : bytes) :
  0 <= n -> read_bytes n l = take (Z.to_nat n) l.
Proof.
  intros Hn. unfold read_bytes.
  destruct (Z.ltb_spec n 0); [lia|]. by rewrite take_upto_firstn.
Qed.

Lemma read_bytes_length (n : Z) (l : bytes) :
  0 <= n -> Z.of_nat (length (read_bytes n l)) <= n.
Proof.
  intros Hn. rewrite read_bytes_nonneg by done. rewrite length_take. lia.
Qed.

Lemma read_run (p : path) (pos : nat) (n : Z) (w : world) :
  let rest := drop pos (contents (files w) p) in
  let buf := read_bytes n rest in
  fits w (request n rest) ->
  read p pos n w =
    (World (files w) (stdout w) (reads w ++ [length buf]) (memory w),
     Ok (buf, (pos + length buf)%nat)).
Proof.
  intros rest buf Hfit. unfold read.
  erewrite bind_run by reflexivity. cbn beta zeta.
  erewrite bind_run by (by apply alloc_run). done.
Qed.

(** ** Paths *)

Lemma parent_app (d : path) (n : string) : parent (d ++ [n]) = d.
Proof. unfold parent. apply removelast_last. Qed.

Lemma name_app (d : path) (n : string) : name (d ++ [n]) = n.
Proof. unfold name. apply last_last. Qed.

Lemma joinpath_nonempty (d : path) (n : string) :
  n ≠ EmptyString -> joinpath d n = d ++ [n].
Proof.
  intros Hn. unfold joinpath. destruct (String.eqb_spec n EmptyString); done.
Qed.

Lemma parent_name (p : path) : p ≠ [] -> p = parent p ++ [name p].
Proof. intros Hp. unfold parent, name. by apply app_removelast_last. Qed.

Lemma lookup_node_nonempty (f : gmap path node) (p : path) :
  p ≠ [] -> lookup_node f p = f !! p.
Proof. by destruct p. Qed.

Lemma lookup_node_app (f : gmap path node) (d : path) (n : string) :
  lookup_node f (d ++ [n]) = f !! (d ++ [n]).
Proof. apply lookup_node_nonempty. by destruct d. Qed.

Lemma is_file_lookup (f : gmap path node) (p : path) :
  is_file f p = true <-> p ≠ [] ∧ exists data, f !! p = Some (File data).
Proof.
  unfold is_file. destruct p as [|a p]; simpl.
  - split; [done|]. by intros [? _].
  - destruct (f !! (a :: p)) as [[data|]|]; split; try done; eauto.
    + intros [_ [? ?]]; done.
    + intros [_ [? ?]]; done.
Qed.

(** ** Creating the output directory *)

Lemma dirs_added_refl (d : path) (f : gmap path node) : dirs_added d f f.
Proof. intros p. by left. Qed.

Lemma dirs_added_file (d : path) (f f' : gmap path node) (p : path) (data : bytes) :
  dirs_added d f f' -> (f' !! p = Some (File data) <-> f !! p = Some (File data)).
Proof.
  intros H. destruct (H p) as [->|(Hn & Hd & _)]; [done|].
  rewrite Hn, Hd. done.
Qed.

Lemma dirs_added_outside (d : path) (f f' : gmap path node) (p : path) :
  dirs_added d f f' -> ¬ p `prefix_of` d -> f' !! p = f !! p.
Proof. intros H Hp. destruct (H p) as [->|(_ & _ & ?)]; done. Qed.

Lemma parent_prefix (p : path) : parent p `prefix_of` p.
Proof.
  destruct (decide (p = [])) as [->|Hp]; [by exists []|].
  exists [name p]. by apply parent_name.
Qed.

Lemma parent_length (p : path) : p ≠ [] -> S (length (parent p)) = length p.
Proof.
  intros Hp. rewrite (parent_name p Hp) at 2. rewrite length_app. simpl. lia.
Qed.

Lemma os_mkdir_exists (p : path) (w : world) :
  exists_ (files w) p = true -> os_mkdir p w = (w, Raise FileExistsError).
Proof. intros H. unfold os_mkdir. unfold_M. simpl. by rewrite H. Qed.

Lemma os_mkdir_no_parent (p : path) (w : world) :
  exists_ (files w) p = false -> lookup_node (files w) (parent p) = None ->
  os_mkdir p w = (w, Raise FileNotFoundError).
Proof. intros H Hp. unfold os_mkdir. unfold_M. simpl. by rewrite H, Hp. Qed.

Lemma os_mkdir_ok (p : path) (w : world) :
  exists_ (files w) p = false -> lookup_node (files w) (parent p) = Some Dir ->
  os_mkdir p w = (World (<[p := Dir]> (files w)) (stdout w) (reads w) (memory w), Ok tt).
Proof. intros H Hp. unfold os_mkdir. unfold_M. simpl. by rewrite H, Hp. Qed.

Lemma dirs_added_insert (d p : path) (f f1 : gmap path node) :
  dirs_added d f f1 -> f1 !! p = None -> p `prefix_of` d ->
  dirs_added d f (<[p := Dir]> f1).
Proof.
  intros Hadd Hp Hpre q. destruct (decide (q = p)) as [->|Hq].
  - right. rewrite lookup_insert_eq. split_and!; try done.
    destruct (Hadd p) as [E|(? & ? & ?)]; congruence.
  - rewrite lookup_insert_ne by done. apply Hadd.
Qed.

Lemma exists_creatable_is_dir (f : gmap path node) (d : path) :
  creatable f d -> exists_ f d = true -> is_dir f d = true.
Proof.
  unfold exists_, is_dir. intros Hc.
  destruct d as [|a d]; [done|]. simpl.
  destruct (f !! (a :: d)) as [[data|]|] eqn:E; try done.
  by destruct (Hc (a :: d) data).
Qed.

Lemma mkdir_exists (fuel : nat) (parents : bool) (d : path) (w : world) :
  is_dir (files w) d = true -> mkdir fuel parents true d w = (w, Ok tt).
Proof.
  intros Hd.
  assert (Hex : exists_ (files w) d = true).
  { unfold is_dir, exists_ in *. by destruct (lookup_node (files w) d). }
  destruct fuel; simpl; rewrite os_mkdir_exists by done; simpl; by rewrite Hd.
Qed.

Lemma mkdir_fresh (fuel : nat) (parents exist_ok : bool) (d : path) (w : world) :
  exists_ (files w) d = false -> is_dir (files w) (parent d) = true ->
  mkdir fuel parents exist_ok d w =
    (World (<[d := Dir]> (files w)) (stdout w) (reads w) (memory w), Ok tt).
Proof.
  intros Hex Hp.
  assert (lookup_node (files w) (parent d) = Some Dir).
  { unfold is_dir in Hp. by destruct (lookup_node (files w) (parent d)) as [[|]|]. }
  destruct fuel; simpl; by rewrite os_mkdir_ok.
Qed.

Lemma mkdir_run (fuel : nat) (d : path) (w : world) :
  creatable (files w) d -> (length d <= S fuel)%nat ->
  exists f', mkdir fuel true true d w = (World f' (stdout w) (reads w) (memory w), Ok tt)
             ∧ is_dir f' d = true ∧ dirs_added d (files w) f'.
Proof.
  revert d w. induction fuel as [|fuel IH]; intros d w Hc Hlen.
  all: destruct (exists_ (files w) d) eqn:Hex.
  all: try (exists (files w); rewrite mkdir_exists
              by (by apply exists_creatable_is_dir);
            destruct w; split_and!;
            [done | by apply exists_creatable_is_dir | apply dirs_added_refl]).
  all: assert (Hne : d ≠ []) by (intros ->; done).
  all: pose proof (parent_length d Hne) as Hpl.
  all: destruct (lookup_node (files w) (parent d)) as [[data|]|] eqn:Hp.
  all: try (exfalso; destruct (parent d) as [|a q] eqn:Hq; [done|];
            simpl in Hp; apply (Hc (a :: q) data); [|done];
            rewrite <- Hq; apply parent_prefix).
  all: try (exists (<[d := Dir]> (files w)); rewrite mkdir_fresh
              by (done || by unfold is_dir; rewrite Hp);
            split_and!; [done | | ];
            [ unfold is_dir; rewrite lookup_node_nonempty by done;
              by rewrite lookup_insert_eq
            | apply dirs_added_insert; [apply dirs_added_refl | | done];
              unfold exists_ in Hex; rewrite lookup_node_nonempty in Hex by done;
              by destruct (files w !! d) ]).
  - exfalso. destruct (parent d); [done|]. simpl in *. lia.
  - simpl. rewrite os_mkdir_no_parent by done.
    assert (Hpd : parent d ≠ d) by (intros E; rewrite E in Hpl; lia).
    simpl. rewrite bool_decide_eq_false_2 by done.
    destruct (IH (parent d) w) as (f1 & Hrun & Hdir & Hadd).
    { intros p data Hpre. apply Hc. etrans; [done|]. apply parent_prefix. }
    { lia. }
    erewrite bind_run by exact Hrun.
    assert (Hd1 : f1 !! d = None).
    { rewrite (dirs_added_outside _ _ _ _ Hadd).
      - unfold exists_ in Hex. rewrite lookup_node_nonempty in Hex by done.
        by destruct (files w !! d).
      - intros Hpre. apply prefix_length in Hpre. lia. }
    rewrite mkdir_fresh; simpl.
    + exists (<[d := Dir]> f1). split_and!; [done| |].
      * unfold is_dir. rewrite lookup_node_nonempty by done.
        by rewrite lookup_insert_eq.
      * apply dirs_added_insert; [|done|done].
        intros p. destruct (Hadd p) as [?|(? & ? & ?)]; [by left|right].
        split_and!; try done. etrans; [done|apply parent_prefix].
    + unfold exists_. rewrite lookup_node_nonempty by done. by rewrite Hd1.
    + done.
Qed.

(** ** Opening, writing, measuring *)

Lemma open_wb_run (p : path) (w : world) :
  lookup_node (files w) p ≠ Some Dir -> is_dir (files w) (parent p) = true ->
  open_wb p w = (World (<[p := File []]> (files w)) (stdout w) (reads w) (memory w), Ok tt).
Proof.
  intros Hp Hd. unfold open_wb. unfold_M. simpl.
  unfold is_dir in Hd.
  destruct (lookup_node (files w) (parent p)) as [[|]|]; try done.
  by destruct (lookup_node (files w) p) as [[|]|].
Qed.

Lemma write_run (p : path) (data : bytes) (w : world) :
  write p data w =
    (World (<[p := File (contents (files w) p ++ data)]> (files w))
           (stdout w) (reads w) (memory w), Ok tt).
Proof.
  unfold write, contents. unfold_M. simpl.
  by destruct (files w !! p) as [[|]|].
Qed.

Lemma open_rb_run (p : path) (w : world) (data : bytes) :
  p ≠ [] -> files w !! p = Some (File data) -> open_rb p w = (w, Ok tt).
Proof.
  intros Hne Hp. unfold open_rb. unfold_M. simpl.
  by rewrite lookup_node_nonempty, Hp.
Qed.

Lemma stat_size_run (p : path) (w : world) (data : bytes) :
  p ≠ [] -> files w !! p = Some (File data) ->
  stat_size p w = (w, Ok (Z.of_nat (length data))).
Proof.
  intros Hne Hp. unfold stat_size. unfold_M. simpl.
  by rewrite lookup_node_nonempty, Hp.
Qed.

Lemma write_text_run (p : path) (s : string) (w : world) :
  lookup_node (files w) p ≠ Some Dir -> is_dir (files w) (parent p) = true ->
  write_text p s w =
    (World (<[p := File (encode s)]> (files w)) (stdout w) (reads w) (memory w), Ok tt).
Proof.
  intros Hp Hd. unfold write_text.
  erewrite bind_run by (by apply open_wb_run).
  rewrite write_run. simpl. unfold contents.
  by rewrite lookup_insert_eq, insert_insert_eq.
Qed.

Lemma read_file_run (p : path) (pos : nat) (n : Z) (w : world) (content : bytes) :
  files w !! p = Some (File content) ->
  fits w (request n (drop pos content)) ->
  read p pos n w =
    (World (files w) (stdout w)
           (reads w ++ [length (read_bytes n (drop pos content))]) (memory w),
     Ok (read_bytes n (drop pos content),
         (pos + length (read_bytes n (drop pos content)))%nat)).
Proof.
  intros H Hfit. rewrite read_run; unfold contents; by rewrite H.
Qed.

(** ** Names of chunks *)

Lemma list_ascii_app (a b : string) :
  list_ascii_of_string (a +:+ b) = list_ascii_of_string a ++ list_ascii_of_string b.
Proof. induction a as [|c a IH]; simpl; [done|]. by rewrite IH. Qed.

Lemma part_name_nonempty (n : string) (idx : Z) : part_name n idx ≠ EmptyString.
Proof.
  unfold part_name. intros E. apply (f_equal list_ascii_of_string) in E.
  rewrite !list_ascii_app in E. simpl in E. by destruct (list_ascii_of_string n).
Qed.

Lemma part_name_ne (n : string) (idx : Z) : part_name n idx ≠ n.
Proof.
  unfold part_name. intros E. apply (f_equal list_ascii_of_string) in E.
  rewrite !list_ascii_app in E. apply (f_equal length) in E.
  rewrite !length_app in E. simpl in E. lia.
Qed.

Lemma part_path_eq (d : path) (n : string) (idx : Z) :
  part_path d n idx = d ++ [part_name n idx].
Proof. apply joinpath_nonempty, part_name_nonempty. Qed.

Lemma part_path_ne_input (d input : path) (idx : Z) :
  part_path d (name input) idx ≠ input.
Proof.
  rewrite part_path_eq. intros E. apply (f_equal name) in E.
  rewrite name_app in E. by apply part_name_ne in E.
Qed.

Lemma part_path_ne_dir (d : path) (n : string) (idx : Z) : part_path d n idx ≠ d.
Proof.
  rewrite part_path_eq. intros E. apply (f_equal length) in E.
  rewrite length_app in E. simpl in E. lia.
Qed.

(** ** The loop of the splitter *)

Lemma split_loop_run (input : path) (size : Z) (d : path) (content : bytes)
    (idxs : list Z) :
  forall (pos : nat) (acc : list path) (w : world),
  files w !! input = Some (File content) ->
  is_dir (files w) d = true ->
  (forall idx, idx ∈ idxs -> files w !! part_path d (name input) idx ≠ Some Dir) ->
  idxs = [] ∨ 0 <= size ∧ fits w size ->
  let bufs := slices size content pos (length idxs) in
  let parts := map (part_path d (name input)) idxs in
  split_loop input size d idxs pos acc w =
    (World (write_parts (files w) (zip parts bufs))
           (stdout w ++ zip_with (fun p b => MsgChunk p (Z.of_nat (length b))) parts bufs)
           (reads w ++ map length bufs) (memory w),
     Ok (acc ++ parts)).
Proof.
  induction idxs as [|idx idxs IH]; intros pos acc w Hin Hd Hparts Hfit; simpl.
  - unfold_M. destruct w. simpl. by rewrite !app_nil_r.
  - fold (part_path d (name input) idx).
    set (part := part_path d (name input) idx).
    assert (Hpne : part ≠ []).
    { unfold part. rewrite part_path_eq. by destruct d. }
    assert (Hpi : part ≠ input) by apply part_path_ne_input.
    erewrite bind_run; cycle 1.
    { apply open_wb_run.
      - rewrite lookup_node_nonempty by done. apply Hparts. apply list_elem_of_here.
      - unfold part. by rewrite part_path_eq, parent_app. }
    erewrite bind_run; cycle 1.
    { destruct Hfit as [?|[Hs Hfit]]; [done|].
      apply (read_file_run _ _ _ _ content); simpl.
      - by rewrite lookup_insert_ne.
      - unfold request. destruct (Z.ltb_spec size 0); [lia|done]. }
    simpl. set (buf := read_bytes size (drop pos content)).
    erewrite bind_run by apply write_run. simpl.
    unfold contents. rewrite lookup_insert_eq, insert_insert_eq. simpl.
    erewrite bind_run; cycle 1.
    { apply (stat_size_run _ _ buf); [done|]. simpl. by rewrite lookup_insert_eq. }
    erewrite bind_run by reflexivity. simpl.
    rewrite IH; simpl.
    + rewrite <- !app_assoc. done.
    + by rewrite lookup_insert_ne.
    + unfold is_dir in *. destruct d as [|a d']; [done|].
      simpl in *. rewrite lookup_insert_ne; [done|].
      apply (part_path_ne_dir (a :: d')).
    + intros j Hj. destruct (decide (part_path d (name input) j = part)) as [->|Hne].
      * by rewrite lookup_insert_eq.
      * rewrite lookup_insert_ne by done. apply Hparts. by apply list_elem_of_further.
    + destruct Hfit as [?|?]; [done|by right].
Qed.

(** ** The checksum utility *)

Lemma fold_h_update (chunks : list bytes) (acc : bytes) :
  fold_left h_update chunks acc = acc ++ concat chunks.
Proof.
  revert acc. induction chunks as [|c chunks IH]; intros acc; simpl.
  - by rewrite app_nil_r.
  - rewrite IH. unfold h_update. by rewrite app_assoc.
Qed.

Lemma iter_read_run (p : path) (buf_size : Z) (content : bytes) (fuel : nat) :
  0 < buf_size ->
  forall (pos : nat) (w : world),
  files w !! p = Some (File content) -> fits w buf_size ->
  (length (drop pos content) < fuel)%nat ->
  exists chunks rs,
    iter_read fuel p pos buf_size w =
      (World (files w) (stdout w) (reads w ++ rs) (memory w), Ok chunks)
    ∧ concat chunks = drop pos content
    ∧ Forall (fun r => Z.of_nat r <= buf_size) rs.
Proof.
  intros Hb. induction fuel as [|fuel IH]; intros pos w Hp Hfit Hlen; [lia|].
  simpl. erewrite bind_run; cycle 1.
  { apply (read_file_run _ _ _ _ content); [done|].
    unfold request. destruct (Z.ltb_spec buf_size 0); [lia|done]. }
  assert (Hbuf : Z.of_nat (length (read_bytes buf_size (drop pos content))) <= buf_size)
    by (apply read_bytes_length; lia).
  rewrite read_bytes_nonneg in * by lia.
  set (rest := drop pos content) in *.
  destruct (take (Z.to_nat buf_size) rest) as [|b buf] eqn:Hbuf_eq.
  - exists [], [0%nat]. split_and!; [done| |].
    + destruct rest; [done|].
      replace (Z.to_nat buf_size) with (S (Z.to_nat (buf_size - 1))) in Hbuf_eq by lia.
      done.
    + repeat constructor. lia.
  - assert (Hrest : rest = (b :: buf) ++ drop (pos + length (b :: buf)) content).
    { rewrite <- Hbuf_eq. unfold rest. rewrite <- drop_drop.
      rewrite length_take.
      destruct (Nat.le_gt_cases (Z.to_nat buf_size) (length (drop pos content))).
      - rewrite Nat.min_l by done. by rewrite take_drop.
      - rewrite Nat.min_r by lia. rewrite take_ge by lia.
        rewrite drop_all. by rewrite app_nil_r. }
    destruct (IH (pos + length (b :: buf))%nat
                (World (files w) (stdout w) (reads w ++ [length (b :: buf)]) (memory w)))
      as (chunks & rs & Hrun & Hcat & Hrs).
    { done. }
    { done. }
    { apply (f_equal length) in Hrest. rewrite length_app in Hrest.
      simpl in Hrest. simpl. lia. }
    exists ((b :: buf) :: chunks), (length (b :: buf) :: rs).
    erewrite bind_run by exact Hrun.
    cbn [files stdout reads]. rewrite <- app_assoc. split_and!; [done| |].
    + cbn [concat]. rewrite Hcat. done.
    + constructor; done.
Qed.

Lemma sha256sum_run (p : path) (buf_size : Z) (content : bytes) (w : world) :
  p ≠ [] -> files w !! p = Some (File content) -> 0 < buf_size ->
  fits w buf_size ->
  exists rs,
    sha256sum p buf_size w =
      (World (files w) (stdout w) (reads w ++ rs) (memory w), Ok (Sha256.hexdigest content))
    ∧ Forall (fun r => Z.of_nat r <= buf_size) rs.
Proof.
  intros Hne Hp Hb Hfit. unfold sha256sum.
  erewrite bind_run by (by eapply open_rb_run).
  erewrite bind_run by reflexivity. simpl.
  destruct (iter_read_run p buf_size content
              (S (length (contents (files w) p))) Hb 0 w Hp Hfit)
    as (chunks & rs & Hrun & Hcat & Hrs).
  { unfold contents. rewrite Hp. rewrite drop_0. lia. }
  exists rs. erewrite bind_run by exact Hrun. unfold_M.
  rewrite fold_h_update, Hcat. simpl. done.
Qed.

(** ** The number of chunks: [math.ceil] of a float quotient *)

Lemma ceil_char (m d c : Z) :
  0 < d -> (c - 1) * d < m <= c * d -> - ((- m) / d) = c.
Proof.
  intros Hd [H1 H2].
  assert (E : (- m) / d = - c); [|lia].
  symmetry. apply Z.div_unique with (r := c * d - m); lia.
Qed.

Lemma ceil_bounds (a b : Z) :
  0 < b -> (- ((- a) / b) - 1) * b < a <= - ((- a) / b) * b.
Proof.
  intros Hb. pose proof (Z.div_mod (- a) b ltac:(lia)) as E.
  pose proof (Z.mod_pos_bound (- a) b Hb). nia.
Qed.

Lemma round_half_even_cases (num den : Z) :
  0 < den ->
  let q := num / den in
  let r := num mod den in
  (round_half_even num den = q ∧ 2 * r <= den) ∨
  (round_half_even num den = q + 1 ∧ den <= 2 * r).
Proof.
  intros Hd. unfold round_half_even. simpl.
  destruct (Z.compare_spec (2 * (num mod den)) den) as [E|E|E].
  - destruct (Z.even (num / den)); [left|right]; lia.
  - left; lia.
  - right; lia.
Qed.

Lemma round_half_even_gt (num den : Z) :
  0 < den -> den < 2 * (num mod den) -> round_half_even num den = num / den + 1.
Proof.
  intros Hd H. unfold round_half_even.
  destruct (Z.compare_spec (2 * (num mod den)) den); lia.
Qed.

(** The exponent brackets the quotient from below. *)
Lemma quot_exponent_lower (a b : Z) :
  0 < a -> 0 < b ->
  let e := quot_exponent a b in
  (0 <= e -> b * 2 ^ e <= a) ∧ (e < 0 -> b <= a * 2 ^ (- e)).
Proof.
  intros Ha Hb. unfold quot_exponent.
  pose proof (Z.log2_spec a Ha) as [Ha1 Ha2].
  pose proof (Z.log2_spec b Hb) as [Hb1 Hb2].
  pose proof (Z.log2_nonneg a). pose proof (Z.log2_nonneg b).
  set (la := Z.log2 a) in *. set (lb := Z.log2 b) in *.
  destruct (Z.leb_spec 0 (la - lb)) as [He0|He0].
  - destruct (Z.leb_spec (b * 2 ^ (la - lb)) a) as [Hc|Hc]; simpl.
    + split; intros; [done|lia].
    + split; intros He.
      * assert (2 ^ la = 2 ^ (lb + 1) * 2 ^ (la - lb - 1)) as E.
        { rewrite <- Z.pow_add_r by lia. f_equal; lia. }
        assert (0 < 2 ^ (la - lb - 1)) by (apply Z.pow_pos_nonneg; lia).
        nia.
      * replace (- (la - lb - 1)) with 1 by lia.
        assert (la = lb) as E by lia. rewrite E in *.
        rewrite Z.pow_succ_r in Hb2 by lia. lia.
  - destruct (Z.leb_spec b (a * 2 ^ (- (la - lb)))) as [Hc|Hc]; simpl.
    + split; intros; [lia|done].
    + split; intros He; [lia|].
      assert (2 ^ (lb + 1) = 2 ^ la * 2 ^ (- (la - lb - 1))) as E.
      { rewrite <- Z.pow_add_r by lia. f_equal; lia. }
      assert (0 < 2 ^ (- (la - lb - 1))) by (apply Z.pow_pos_nonneg; lia).
      nia.
Qed.

Lemma quot_exponent_le_log2 (a b : Z) :
  0 < a -> 0 < b -> quot_exponent a b <= Z.log2 a.
Proof.
  intros Ha Hb. unfold quot_exponent. pose proof (Z.log2_nonneg b).
  destruct (if 0 <=? Z.log2 a - Z.log2 b then _ else _); lia.
Qed.

Lemma log2_lt_pow2_bound (a n : Z) : 0 < a -> a < 2 ^ n -> Z.log2 a < n.
Proof. intros Ha H. by apply Z.log2_lt_pow2. Qed.

(** Rounding the scaled quotient keeps the ceiling, as long as the
    divisor is below twice the scale. *)
Lemma ceil_round_scaled (a b k : Z) :
  0 < a -> 0 < b -> 0 <= k -> b < 2 ^ (k + 1) ->
  - ((- round_half_even (a * 2 ^ k) b) / 2 ^ k) = - ((- a) / b).
Proof.
  intros Ha Hb Hk Hbk.
  pose proof (ceil_bounds a b Hb) as [Hc1 Hc2].
  set (c := - ((- a) / b)) in *.
  assert (Hpow : 0 < 2 ^ k) by (apply Z.pow_pos_nonneg; lia).
  rewrite Z.pow_add_r in Hbk by lia. change (2 ^ 1) with 2 in Hbk.
  set (D := 2 ^ k) in *.
  apply ceil_char; [done|].
  pose proof (Z.div_mod (a * D) b ltac:(lia)) as E.
  pose proof (Z.mod_pos_bound (a * D) b Hb) as Hr.
  set (q := a * D / b) in *. set (r := (a * D) mod b) in *.
  assert (HqP : (c - 1) * D <= q).
  { apply Z.div_le_lower_bound; [done|]. nia. }
  assert (Hqc : q <= c * D).
  { apply Z.div_le_upper_bound; [done|]. nia. }
  destruct (round_half_even_cases (a * D) b Hb) as [[E1 Hr1]|[E1 Hr1]];
    simpl in E1, Hr1; fold q in E1; fold r in Hr1; rewrite E1.
  - split; [|done].
    destruct (decide (q = (c - 1) * D)) as [Eq|]; [|lia].
    exfalso. assert (D <= r) by nia. lia.
  - split; [lia|].
    destruct (decide (q = c * D)) as [Eq|]; [|lia].
    exfalso. assert (r <= 0) by nia. lia.
Qed.

Lemma nearest_double_scale (a b : Z) :
  0 < a -> a < 2 ^ 53 -> 0 < b -> b < 2 ^ 1075 ->
  let k := 52 - Z.max (quot_exponent a b) (-1022) in
  0 <= k ∧ b < 2 ^ (k + 1).
Proof.
  intros Ha Ha' Hb Hb'. simpl.
  pose proof (quot_exponent_le_log2 a b Ha Hb) as He.
  pose proof (log2_lt_pow2_bound a 53 Ha Ha') as Hl.
  pose proof (quot_exponent_lower a b Ha Hb) as [Hlo1 Hlo2]. simpl in *.
  set (e := quot_exponent a b) in *.
  split; [lia|].
  destruct (Z.le_gt_cases (-1022) e) as [Hn|Hn].
  - rewrite Z.max_l by lia. replace (52 - e + 1) with (53 - e) by lia.
    destruct (Z.le_gt_cases 0 e) as [Hp|Hp].
    + specialize (Hlo1 Hp).
      assert (2 ^ 53 = 2 ^ (53 - e) * 2 ^ e) as E.
      { rewrite <- Z.pow_add_r by lia. f_equal; lia. }
      assert (0 < 2 ^ e) by (apply Z.pow_pos_nonneg; lia).
      nia.
    + specialize (Hlo2 Hp).
      assert (2 ^ (53 - e) = 2 ^ 53 * 2 ^ (- e)) as E.
      { rewrite <- Z.pow_add_r by lia. f_equal; lia. }
      assert (0 < 2 ^ (- e)) by (apply Z.pow_pos_nonneg; lia).
      nia.
  - rewrite Z.max_r by lia. done.
Qed.

(** Below [2^53] bytes and [2^1075] bytes per chunk the float quotient
    loses nothing: the count is the ceiling of the exact quotient. *)
Lemma ceil_div_exact (a b : Z) (w : world) :
  0 < a -> a < 2 ^ 53 -> 0 < b -> b < 2 ^ 1075 ->
  ceil_div a b w = (w, Ok (- ((- a) / b))).
Proof.
  intros Ha Ha' Hb Hb'. unfold ceil_div.
  destruct (Z.eqb_spec b 0); [lia|]. destruct (Z.eqb_spec a 0); [lia|].
  rewrite (Z.abs_eq a), (Z.abs_eq b) by lia. unfold nearest_double.
  destruct (nearest_double_scale a b Ha Ha' Hb Hb') as [Hk Hbk]. simpl in Hk, Hbk.
  set (k := 52 - Z.max (quot_exponent a b) (-1022)) in *.
  destruct (Z.leb_spec 0 k); [|lia].
  rewrite (Z.sgn_pos a), (Z.sgn_pos b) by lia. simpl.
  unfold_M. by rewrite ceil_round_scaled.
Qed.

Lemma ceil_div_zero (b : Z) (w : world) :
  b ≠ 0 -> ceil_div 0 b w = (w, Ok 0).
Proof. intros Hb. unfold ceil_div. by destruct (Z.eqb_spec b 0). Qed.

(** Below [2^1023] bytes the quotient fits a float: there is a count. *)
Lemma ceil_div_total (a b : Z) :
  0 <= a -> a < 2 ^ 1023 -> 0 < b ->
  exists n, forall w, ceil_div a b w = (w, Ok n).
Proof.
  intros Ha Ha' Hb. unfold ceil_div.
  destruct (Z.eqb_spec b 0); [lia|]. destruct (Z.eqb_spec a 0); [by eexists|].
  rewrite (Z.abs_eq a), (Z.abs_eq b) by lia. unfold nearest_double.
  set (e := quot_exponent a b).
  destruct (Z.leb_spec 0 (52 - Z.max e (-1022))) as [Hk|Hk]; [by eexists|].
  assert (He : 52 < e) by lia.
  rewrite Z.max_l in * by lia.
  replace (- (52 - e)) with (e - 52) by lia.
  assert (Hl : e <= 1022).
  { pose proof (quot_exponent_le_log2 a b ltac:(lia) Hb).
    pose proof (log2_lt_pow2_bound a 1023 ltac:(lia) Ha'). unfold e. lia. }
  set (D := 2 ^ (e - 52)).
  assert (HD : 0 < D) by (apply Z.pow_pos_nonneg; lia).
  assert (HD' : D <= 2 ^ 970) by (apply Z.pow_le_mono_r; lia).
  assert (Hm : round_half_even a (b * D) * D <= a + D).
  { assert (0 < b * D) as HbD by nia.
    pose proof (Z.div_mod a (b * D) ltac:(lia)) as E.
    pose proof (Z.mod_pos_bound a (b * D) HbD) as Hr.
    assert (0 <= a / (b * D)) by (apply Z.div_pos; lia).
    destruct (round_half_even_cases a (b * D) HbD) as [[-> _]|[-> _]]; nia. }
  destruct (Z.leb_spec (2 ^ 1024) (round_half_even a (b * D) * D)) as [Ho|Ho].
  - exfalso.
    assert (2 ^ 1023 + 2 ^ 970 < 2 ^ 1024) by (by vm_compute).
    lia.
  - by eexists.
Qed.

(** ** Stores after a run of writes *)

Lemma write_parts_notin (f : gmap path node) (l : list (path * bytes)) (p : path) :
  p ∉ l.*1 -> write_parts f l !! p = f !! p.
Proof.
  revert f. induction l as [|[q b] l IH]; intros f Hp; [done|].
  simpl in *. apply not_elem_of_cons in Hp as [Hne Hp].
  unfold write_parts in *. simpl. rewrite IH by done.
  by rewrite lookup_insert_ne.
Qed.

Lemma write_parts_not_dir (f : gmap path node) (l : list (path * bytes)) (p : path) :
  f !! p ≠ Some Dir -> write_parts f l !! p ≠ Some Dir.
Proof.
  revert f. induction l as [|[q b] l IH]; intros f Hp; [done|].
  unfold write_parts in *. simpl. apply IH.
  destruct (decide (q = p)) as [->|Hne].
  - by rewrite lookup_insert_eq.
  - by rewrite lookup_insert_ne.
Qed.

Lemma write_parts_lookup (f : gmap path node) (l : list (path * bytes))
    (i : nat) (p : path) (b : bytes) :
  NoDup l.*1 -> l !! i = Some (p, b) -> write_parts f l !! p = Some (File b).
Proof.
  revert f i. induction l as [|[q c] l IH]; intros f i Hnd Hi; [done|].
  simpl in Hnd. apply NoDup_cons in Hnd as [Hq Hnd].
  unfold write_parts in *. simpl. destruct i as [|i]; simpl in Hi.
  - injection Hi as -> ->.
    fold (write_parts (<[p := File b]> f) l).
    rewrite write_parts_notin by done. by rewrite lookup_insert_eq.
  - by apply (IH _ i).
Qed.

Lemma is_dir_write_parts (f : gmap path node) (l : list (path * bytes)) (d : path) :
  is_dir f d = true -> d ∉ l.*1 -> is_dir (write_parts f l) d = true.
Proof.
  intros Hd Hn. unfold is_dir in *. destruct d as [|a d]; [done|].
  simpl in *. by rewrite write_parts_notin.
Qed.

Lemma fst_zip_subseteq {A B} (l : list A) (k : list B) (x : A) :
  x ∈ (zip l k).*1 -> x ∈ l.
Proof.
  revert k. induction l as [|a l IH]; intros [|b k]; simpl.
  1-3: by intros ?%elem_of_nil.
  intros [->|H]%elem_of_cons; [by left|right]. by apply (IH k).
Qed.

Lemma is_dir_prefix_stable (d : path) (f f' : gmap path node) (p : path) :
  dirs_added d f f' -> is_dir f p = true -> is_dir f' p = true.
Proof.
  intros Hadd. unfold is_dir. destruct p as [|a p]; [done|]. simpl.
  destruct (Hadd (a :: p)) as [->|(Hn & _ & _)]; [done|]. by rewrite Hn.
Qed.

Lemma part_path_not_prefix (d : path) (n : string) (idx : Z) :
  ¬ part_path d n idx `prefix_of` d.
Proof.
  rewrite part_path_eq. intros H%prefix_length. rewrite length_app in H.
  simpl in H. lia.
Qed.

Lemma sidecar_path_eq (d : path) (n : string) :
  sidecar_path d n = d ++ [n +:+ ".sha256"].
Proof.
  apply joinpath_nonempty. intros E. apply (f_equal list_ascii_of_string) in E.
  rewrite list_ascii_app in E. by destruct (list_ascii_of_string n).
Qed.

Lemma sidecar_path_not_prefix (d : path) (n : string) :
  ¬ sidecar_path d n `prefix_of` d.
Proof.
  rewrite sidecar_path_eq. intros H%prefix_length. rewrite length_app in H.
  simpl in H. lia.
Qed.

(** ** Decimal indices *)

Lemma digit_val_digit_char (d : Z) : 0 <= d < 10 -> digit_val (digit_char d) = d.
Proof.
  intros Hd. unfold digit_val, digit_char.
  rewrite N_ascii_embedding by lia. lia.
Qed.

Lemma decimal_val_app (l l' : list ascii) :
  decimal_val (l ++ l') = decimal_val l * 10 ^ Z.of_nat (length l') + decimal_val l'.
Proof.
  unfold decimal_val. rewrite fold_left_app.
  generalize (fold_left (fun a c => 10 * a + digit_val c) l 0) as x.
  induction l' as [|c l' IH] using rev_ind; intros x; simpl; [lia|].
  rewrite !fold_left_app. simpl. rewrite IH.
  rewrite length_app. simpl.
  replace (Z.of_nat (length l' + 1)) with (Z.of_nat (length l') + 1) by lia.
  rewrite Z.pow_add_r by lia. unfold decimal_val. lia.
Qed.

Lemma decimal_val_cons (c : ascii) (l : list ascii) :
  decimal_val (c :: l) = digit_val c * 10 ^ Z.of_nat (length l) + decimal_val l.
Proof.
  change (c :: l) with ([c] ++ l). rewrite decimal_val_app.
  unfold decimal_val. simpl. lia.
Qed.

Lemma decimal_aux_val (fuel : nat) :
  forall (n : Z) (acc : list ascii),
  0 <= n -> n < 10 ^ Z.of_nat fuel ->
  decimal_val (decimal_aux fuel n acc)
  = n * 10 ^ Z.of_nat (length acc) + decimal_val acc.
Proof.
  induction fuel as [|fuel IH]; intros n acc Hn Hlt.
  - simpl in *. assert (n = 0) as -> by lia. lia.
  - cbn [decimal_aux].
    pose proof (Z.div_mod n 10 ltac:(lia)) as E.
    pose proof (Z.mod_pos_bound n 10 ltac:(lia)) as Hr.
    destruct (Z.eqb_spec (n / 10) 0) as [Hq|Hq].
    + rewrite decimal_val_cons, digit_val_digit_char by lia. lia.
    + rewrite IH.
      * rewrite decimal_val_cons, digit_val_digit_char by lia.
        cbn [length]. rewrite Nat2Z.inj_succ, Z.pow_succ_r by lia. lia.
      * apply Z.div_pos; lia.
      * rewrite Nat2Z.inj_succ, Z.pow_succ_r in Hlt by lia.
        apply Z.div_lt_upper_bound; lia.
Qed.

Lemma pow2_le_pow10 (k : Z) : 0 <= k -> 2 ^ k <= 10 ^ k.
Proof. intros Hk. apply Z.pow_le_mono_l. lia. Qed.

Lemma decimal_val_decimal (n : Z) : 0 <= n -> decimal_val (decimal n) = n.
Proof.
  intros Hn. unfold decimal. rewrite decimal_aux_val; [|done|].
  { change (decimal_val []) with 0. change (Z.of_nat (length (@nil ascii))) with 0.
    rewrite Z.pow_0_r. lia. }
  rewrite Nat2Z.inj_succ, Z2Nat.id by apply Z.log2_nonneg.
  destruct (decide (n = 0)) as [->|Hne]; [done|].
  pose proof (Z.log2_spec n ltac:(lia)) as [_ H].
  pose proof (pow2_le_pow10 (Z.succ (Z.log2 n))
                ltac:(pose proof (Z.log2_nonneg n); lia)).
  lia.
Qed.

Lemma decimal_val_zeros (k : nat) (l : list ascii) :
  decimal_val (repeat "0"%char k ++ l) = decimal_val l.
Proof.
  induction k as [|k IH]; simpl; [done|].
  rewrite decimal_val_cons, IH. unfold digit_val. simpl. lia.
Qed.

Lemma format_index_val (width : nat) (idx : Z) :
  0 <= idx ->
  decimal_val (list_ascii_of_string (format_index width idx)) = idx.
Proof.
  intros H. unfold format_index.
  rewrite list_ascii_of_string_of_list_ascii, decimal_val_zeros.
  by apply decimal_val_decimal.
Qed.

(** Distinct indices give distinct chunk names, whatever their size. *)
Lemma format_index_inj (width : nat) (i j : Z) :
  0 <= i -> 0 <= j -> format_index width i = format_index width j -> i = j.
Proof.
  intros Hi Hj E.
  rewrite <- (format_index_val width i Hi), <- (format_index_val width j Hj).
  by rewrite E.
Qed.

Lemma part_path_inj (d : path) (n : string) (i j : Z) :
  0 <= i -> 0 <= j -> part_path d n i = part_path d n j -> i = j.
Proof.
  intros Hi Hj E. rewrite !part_path_eq in E.
  apply app_inj_tail in E as [_ E]. unfold part_name in E.
  apply (inj _) in E. apply (inj _) in E.
  by apply (format_index_inj CHUNK_SUFFIX_LEN).
Qed.

Lemma elem_of_range (n i : Z) : i ∈ range n <-> 0 <= i < n.
Proof.
  unfold range. rewrite list_elem_of_fmap. split.
  - intros (k & -> & Hk). apply elem_of_seq in Hk. lia.
  - intros Hi. exists (Z.to_nat i). split; [lia|]. apply elem_of_seq. lia.
Qed.

Lemma NoDup_range (n : Z) : NoDup (range n).
Proof.
  unfold range. apply NoDup_fmap_2; [|apply NoDup_seq].
  intros ???. lia.
Qed.

Lemma length_range (n : Z) : length (range n) = Z.to_nat n.
Proof. unfold range. by rewrite length_map, length_seq. Qed.

Lemma NoDup_parts (d : path) (n : string) (k : Z) :
  NoDup (map (part_path d n) (range k)).
Proof.
  apply NoDup_fmap_2_strong; [|apply NoDup_range].
  intros i j Hi%elem_of_range Hj%elem_of_range E.
  apply (part_path_inj d n); [lia|lia|done].
Qed.

(** ** The splitter, run *)

Lemma split_file_run (input : path) (mb : Z) (d : path) (content : bytes)
    (n : Z) (w : world) :
  files w !! input = Some (File content) -> input ≠ [] ->
  creatable (files w) d ->
  (forall idx, 0 <= idx < n -> files w !! part_path d (name input) idx ≠ Some Dir) ->
  files w !! sidecar_path d (name input) ≠ Some Dir ->
  (forall w', ceil_div (Z.of_nat (length content)) (mb * Z.shiftl 1 20) w' = (w', Ok n)) ->
  fits w default_buf_size ->
  range n = [] ∨ 0 <= mb * Z.shiftl 1 20 ∧ fits w (mb * Z.shiftl 1 20) ->
  let parts := map (part_path d (name input)) (range n) in
  let bufs := slices (mb * Z.shiftl 1 20) content 0 (length (range n)) in
  exists f1 rs,
    dirs_added d (files w) f1 ∧ is_dir f1 d = true ∧
    Forall (fun r => Z.of_nat r <= default_buf_size) rs ∧
    split_file input mb d w =
      (World (<[sidecar_path d (name input) := File (encode (Sha256.hexdigest content))]>
                (write_parts f1 (zip parts bufs)))
             (stdout w ++ chunk_msgs parts bufs)
             (reads w ++ map length bufs ++ rs) (memory w),
       Ok parts).
Proof.
  intros Hin Hne Hc Hparts Hside Hceil Hfit1 HfitS parts bufs.
  destruct (mkdir_run (length d) d w Hc ltac:(lia)) as (f1 & Hmk & Hdir & Hadd).
  assert (Hin1 : f1 !! input = Some (File content)) by (by apply (dirs_added_file d (files w))).
  assert (Hnotin : forall l : list bytes, input ∉ (zip parts l).*1).
  { intros l Hel%fst_zip_subseteq. unfold parts in Hel.
    apply list_elem_of_fmap in Hel as (idx & E & _).
    symmetry in E. by apply part_path_ne_input in E. }
  assert (Hdnotin : forall l : list bytes, d ∉ (zip parts l).*1).
  { intros l Hel%fst_zip_subseteq. unfold parts in Hel.
    apply list_elem_of_fmap in Hel as (idx & E & _).
    symmetry in E. by apply part_path_ne_dir in E. }
  set (f2 := write_parts f1 (zip parts bufs)).
  assert (Hin2 : f2 !! input = Some (File content)).
  { unfold f2. by rewrite write_parts_notin. }
  destruct (sha256sum_run input default_buf_size content
              (World f2 (stdout w ++ chunk_msgs parts bufs) (reads w ++ map length bufs) (memory w))
              Hne Hin2 ltac:(done) Hfit1) as (rs & Hsha & Hrs).
  exists f1, rs. split_and!; try done.
  unfold split_file.
  erewrite bind_run by reflexivity. simpl.
  assert (is_file (files w) input = true) as ->.
  { apply is_file_lookup. eauto. }
  simpl. erewrite bind_run by exact Hmk.
  erewrite bind_run; cycle 1.
  { by apply (stat_size_run _ _ content). }
  erewrite bind_run by apply Hceil.
  erewrite bind_run; cycle 1.
  { by apply (open_rb_run _ _ content). }
  erewrite bind_run; cycle 1.
  { apply (split_loop_run input _ d content); simpl; [done|done| |done].
    intros idx Hidx%elem_of_range.
    rewrite (dirs_added_outside _ _ _ _ Hadd); [by apply Hparts|].
    apply part_path_not_prefix. }
  simpl. fold parts bufs f2. fold (chunk_msgs parts bufs).
  erewrite bind_run by exact Hsha. simpl.
  fold (sidecar_path d (name input)).
  erewrite bind_run; cycle 1.
  { apply write_text_run; simpl.
    - rewrite sidecar_path_eq, lookup_node_app, <- sidecar_path_eq.
      apply write_parts_not_dir.
      rewrite (dirs_added_outside _ _ _ _ Hadd); [done|].
      apply sidecar_path_not_prefix.
    - rewrite sidecar_path_eq, parent_app. by apply is_dir_write_parts. }
  unfold_M. simpl. by rewrite <- app_assoc.
Qed.

(** ** Chunks are consecutive slices *)

Lemma slices_formula (size : Z) (content : bytes) (k : nat) :
  0 < size ->
  forall pos : nat,
  slices size content pos k =
  map (fun i => take (Z.to_nat size) (drop (pos + i * Z.to_nat size) content))
      (seq 0 k).
Proof.
  intros Hs. induction k as [|k IH]; intros pos; [done|].
  cbn [slices seq map]. rewrite read_bytes_nonneg by lia.
  rewrite Nat.mul_0_l, Nat.add_0_r. f_equal.
  rewrite IH, <- seq_shift, map_map.
  apply map_ext_in. intros i _.
  set (s := Z.to_nat size).
  destruct (Nat.le_gt_cases s (length (drop pos content))) as [Hle|Hgt].
  - rewrite length_take, Nat.min_l by done. f_equal. f_equal. lia.
  - rewrite length_take, Nat.min_r by lia.
    rewrite length_drop in *.
    rewrite !drop_ge; [done| |]; lia.
Qed.

Lemma concat_slices (s : nat) (content : bytes) (k : nat) :
  concat (map (fun i => take s (drop (i * s) content)) (seq 0 k))
  = take (k * s) content.
Proof.
  induction k as [|k IH]; [done|].
  rewrite seq_S, map_app, concat_app, IH. simpl. rewrite app_nil_r.
  rewrite take_take_drop. f_equal. lia.
Qed.

Lemma slices_concat (size : Z) (content : bytes) (k : nat) :
  0 < size -> (length content <= k * Z.to_nat size)%nat ->
  concat (slices size content 0 k) = content.
Proof.
  intros Hs Hk. rewrite slices_formula by done. simpl.
  rewrite concat_slices. by apply take_ge.
Qed.

Lemma slices_length (size : Z) (content : bytes) (pos k : nat) :
  length (slices size content pos k) = k.
Proof. revert pos. induction k as [|k IH]; intros pos; simpl; [done|]. by rewrite IH. Qed.

(** The exact ceiling counts the chunks of size [s] that cover [t] bytes. *)
Lemma ceil_covers (t s : Z) :
  0 <= t -> 0 < s ->
  let n := - ((- t) / s) in
  0 <= n ∧ (n - 1) * s < t <= n * s.
Proof.
  intros Ht Hs. simpl. pose proof (ceil_bounds t s Hs). split; [|done]. nia.
Qed.

(** ** What the discovery pattern matches *)

Lemma parse_aux_literal (l rest : list ascii) (k : nat) :
  forallb (fun c => negb (is_meta c)) l = true ->
  Fnmatch.parse_aux (length l + k) (l ++ rest)
  = map Fnmatch.TLit l ++ Fnmatch.parse_aux k rest.
Proof.
  induction l as [|c l IH]; intros Hl; [done|].
  simpl in Hl. apply andb_prop in Hl as [Hc Hl].
  unfold is_meta in Hc. apply negb_true_iff in Hc.
  apply orb_false_elim in Hc as [Hc H3]. apply orb_false_elim in Hc as [H1 H2].
  cbn [length Nat.add app Fnmatch.parse_aux map]. rewrite H1, H2, H3. by rewrite IH.
Qed.

Lemma tmatch_literal (l : list ascii) (p : list Fnmatch.tok) (s : list ascii) :
  Fnmatch.tmatch (map Fnmatch.TLit l ++ p) s = true
  <-> exists s', s = l ++ s' ∧ Fnmatch.tmatch p s' = true.
Proof.
  revert s. induction l as [|c l IH]; intros s; simpl.
  - split; [eauto|]. by intros (s' & -> & H).
  - destruct s as [|c' s].
    + split; [done|]. by intros (s' & E & _).
    + rewrite andb_true_iff, IH. unfold Fnmatch.is_char.
      rewrite Ascii.eqb_eq. split.
      * intros (-> & s' & -> & H). eauto.
      * intros (s' & E & H). injection E as -> ->. eauto.
Qed.

Lemma in_items_digit (c : ascii) :
  Fnmatch.in_items c [("0"%char, "9"%char)] = is_digit c.
Proof. unfold Fnmatch.in_items, is_digit, Fnmatch.code. simpl. by rewrite orb_false_r. Qed.

Lemma tmatch_digits (s : list ascii) :
  Fnmatch.tmatch (Fnmatch.parse (list_ascii_of_string ("." +:+ digit_pattern))) s = true
  <-> exists a b c, s = ["."%char; a; b; c]
                    ∧ is_digit a = true ∧ is_digit b = true ∧ is_digit c = true.
Proof.
  change (Fnmatch.parse _) with
    [Fnmatch.TLit "."; Fnmatch.TSet false [("0"%char, "9"%char)];
     Fnmatch.TSet false [("0"%char, "9"%char)];
     Fnmatch.TSet false [("0"%char, "9"%char)]].
  split.
  - destruct s as [|d [|a [|b [|c [|? ?]]]]]; cbn [Fnmatch.tmatch xorb];
      rewrite ?andb_false_r; try done.
    rewrite !in_items_digit. unfold Fnmatch.is_char. rewrite !andb_true_iff.
    rewrite Ascii.eqb_eq. intros (<- & Ha & Hb & Hc & _). by exists a, b, c.
  - intros (a & b & c & -> & Ha & Hb & Hc). cbn [Fnmatch.tmatch xorb].
    rewrite !in_items_digit, Ha, Hb, Hc. done.
Qed.

Lemma fnmatch_literal (n s : string) :
  literal n ->
  Fnmatch.fnmatch s (chunk_pattern n) = true
  <-> exists a b c, s = n +:+ string_of_list_ascii ["."%char; a; b; c]
                    ∧ is_digit a = true ∧ is_digit b = true ∧ is_digit c = true.
Proof.
  intros Hn. unfold Fnmatch.fnmatch, chunk_pattern, Fnmatch.parse.
  rewrite list_ascii_app, length_app.
  rewrite parse_aux_literal by done.
  fold (Fnmatch.parse (list_ascii_of_string ("." +:+ digit_pattern))).
  rewrite tmatch_literal. split.
  - intros (s' & E & (a & b & c & -> & H)%tmatch_digits).
    exists a, b, c. split; [|done].
    rewrite <- (string_of_list_ascii_of_string s), E.
    rewrite <- (string_of_list_ascii_of_string (n +:+ _)). f_equal.
    by rewrite list_ascii_app, !list_ascii_of_string_of_list_ascii.
  - intros (a & b & c & -> & H). exists ["."%char; a; b; c]. split.
    + by rewrite list_ascii_app, list_ascii_of_string_of_list_ascii.
    + apply tmatch_digits. eauto 10.
Qed.

Lemma format_index_three (i : Z) :
  0 <= i < 1000 ->
  format_index CHUNK_SUFFIX_LEN i = string_of_list_ascii (three_digits i).
Proof.
  intros Hi.
  assert (H : forallb (fun i => String.eqb (format_index CHUNK_SUFFIX_LEN i)
                                 (string_of_list_ascii (three_digits i)))
                      (range 1000) = true) by (by vm_compute).
  rewrite forallb_forall in H. apply String.eqb_eq, H.
  apply list_elem_of_In, elem_of_range. lia.
Qed.

Lemma is_digit_digit_char (c : ascii) :
  is_digit c = true -> exists x, 0 <= x < 10 ∧ c = digit_char x.
Proof.
  unfold is_digit. intros [H1 H2]%andb_prop.
  apply N.leb_le in H1, H2.
  exists (Z.of_N (N_of_ascii c) - 48). split; [lia|].
  unfold digit_char. replace (Z.to_N _) with (N_of_ascii c) by lia.
  by rewrite ascii_N_embedding.
Qed.

Lemma three_digits_of (x y z : Z) :
  0 <= x < 10 -> 0 <= y < 10 -> 0 <= z < 10 ->
  three_digits (100 * x + 10 * y + z) = [digit_char x; digit_char y; digit_char z].
Proof.
  intros Hx Hy Hz. unfold three_digits.
  assert ((100 * x + 10 * y + z) / 100 = x) as ->.
  { symmetry. apply Z.div_unique with (r := 10 * y + z); lia. }
  assert ((100 * x + 10 * y + z) / 10 = 10 * x + y) as ->.
  { symmetry. apply Z.div_unique with (r := z); lia. }
  assert ((10 * x + y) mod 10 = y) as ->.
  { symmetry. apply Z.mod_unique with (q := x); lia. }
  assert ((100 * x + 10 * y + z) mod 10 = z) as ->.
  { symmetry. apply Z.mod_unique with (q := 10 * x + y); lia. }
  done.
Qed.

Lemma part_name_three (n : string) (i : Z) :
  0 <= i < 1000 ->
  part_name n i = n +:+ string_of_list_ascii ("."%char :: three_digits i).
Proof. intros Hi. unfold part_name. by rewrite format_index_three. Qed.

(** For a literal prefix the pattern matches the chunk names of the indices
    below 1000, and nothing else. *)
Lemma fnmatch_literal_index (n s : string) :
  literal n ->
  Fnmatch.fnmatch s (chunk_pattern n) = true
  <-> exists i, 0 <= i < 1000 ∧ s = part_name n i.
Proof.
  intros Hn. rewrite fnmatch_literal by done. split.
  - intros (a & b & c & -> & Ha & Hb & Hc).
    apply is_digit_digit_char in Ha as (x & Hx & ->).
    apply is_digit_digit_char in Hb as (y & Hy & ->).
    apply is_digit_digit_char in Hc as (z & Hz & ->).
    exists (100 * x + 10 * y + z). split; [lia|].
    rewrite part_name_three by lia. by rewrite three_digits_of.
  - intros (i & Hi & ->). rewrite part_name_three by done.
    pose proof (Z.div_pos i 100 ltac:(lia) ltac:(lia)).
    assert (i / 100 < 10) by (apply Z.div_lt_upper_bound; lia).
    pose proof (Z.mod_pos_bound (i / 10) 10 ltac:(lia)).
    pose proof (Z.mod_pos_bound i 10 ltac:(lia)).
    assert (Hd : forall x, 0 <= x < 10 -> is_digit (digit_char x) = true).
    { intros x Hx. unfold is_digit, digit_char.
      rewrite N_ascii_embedding by lia.
      apply andb_true_intro. split; apply N.leb_le; lia. }
    eexists _, _, _. split; [reflexivity|]. split_and!; apply Hd; lia.
Qed.

Lemma fnmatch_large_index (n : string) (i : Z) :
  literal n -> 1000 <= i -> Fnmatch.fnmatch (part_name n i) (chunk_pattern n) = false.
Proof.
  intros Hn Hi. apply not_true_is_false. intros H.
  apply fnmatch_literal_index in H as (j & Hj & E); [|done].
  unfold part_name in E. apply (inj _) in E. apply (inj _) in E.
  apply format_index_inj in E; lia.
Qed.

Lemma fnmatch_sidecar (n : string) :
  literal n -> Fnmatch.fnmatch (n +:+ ".sha256") (chunk_pattern n) = false.
Proof.
  intros Hn. apply not_true_is_false. intros H.
  apply fnmatch_literal in H as (a & b & c & E & _); [|done].
  by apply (inj _) in E.
Qed.

(** ** The order of paths *)

Lemma string_compare_refl (s : string) : String.compare s s = Eq.
Proof.
  induction s as [|c s IH]; simpl; [done|].
  unfold Ascii.compare. by rewrite N.compare_refl.
Qed.

Lemma ascii_compare_lt_trans (a b c : ascii) :
  Ascii.compare a b = Lt -> Ascii.compare b c = Lt -> Ascii.compare a c = Lt.
Proof. unfold Ascii.compare. rewrite !N.compare_lt_iff. lia. Qed.

Lemma string_compare_lt_trans (s1 s2 s3 : string) :
  String.compare s1 s2 = Lt -> String.compare s2 s3 = Lt ->
  String.compare s1 s3 = Lt.
Proof.
  revert s2 s3. induction s1 as [|a s1 IH]; intros [|b s2] [|c s3]; simpl; try done.
  destruct (Ascii.compare a b) eqn:Hab; try done;
    destruct (Ascii.compare b c) eqn:Hbc; try done; intros H12 H23.
  - apply Ascii.compare_eq_iff in Hab as ->, Hbc as ->.
    assert (Ascii.compare c c = Eq) as ->
      by (unfold Ascii.compare; apply N.compare_refl).
    by apply (IH s2).
  - apply Ascii.compare_eq_iff in Hab as ->. by rewrite Hbc.
  - apply Ascii.compare_eq_iff in Hbc as ->. by rewrite Hab.
  - by rewrite (ascii_compare_lt_trans a b c).
Qed.

Lemma path_compare_refl (p : path) : path_compare p p = Eq.
Proof. induction p as [|a p IH]; simpl; [done|]. by rewrite string_compare_refl. Qed.

Lemma path_compare_eq (p q : path) : path_compare p q = Eq -> p = q.
Proof.
  revert q. induction p as [|a p IH]; intros [|b q]; simpl; try done.
  destruct (String.compare a b) eqn:E; try done.
  apply String.compare_eq_iff in E as ->. intros H. f_equal. by apply IH.
Qed.

Lemma path_compare_antisym (p q : path) :
  path_compare p q = CompOpp (path_compare q p).
Proof.
  revert q. induction p as [|a p IH]; intros [|b q]; simpl; try done.
  rewrite String.compare_antisym. destruct (String.compare b a); simpl; [apply IH|done..].
Qed.

Lemma path_compare_lt_trans (p q r : path) :
  path_compare p q = Lt -> path_compare q r = Lt -> path_compare p r = Lt.
Proof.
  revert q r. induction p as [|a p IH]; intros [|b q] [|c r]; simpl; try done.
  destruct (String.compare a b) eqn:Hab; try done;
    destruct (String.compare b c) eqn:Hbc; try done; intros H12 H23.
  - apply String.compare_eq_iff in Hab as ->, Hbc as ->.
    rewrite string_compare_refl. by apply (IH q).
  - apply String.compare_eq_iff in Hab as ->. by rewrite Hbc.
  - apply String.compare_eq_iff in Hbc as ->. by rewrite Hab.
  - by rewrite (string_compare_lt_trans a b c).
Qed.

#[global] Instance path_le_trans : Transitive path_le.
Proof.
  intros p q r. unfold path_le.
  destruct (path_compare p q) eqn:Hpq; [|  |done].
  - by apply path_compare_eq in Hpq as ->.
  - destruct (path_compare q r) eqn:Hqr; [| |done]; intros _ _.
    + apply path_compare_eq in Hqr as ->. by rewrite Hpq.
    + by rewrite (path_compare_lt_trans p q r).
Qed.

#[global] Instance path_le_antisym : AntiSymm (=) path_le.
Proof.
  intros p q. unfold path_le. rewrite (path_compare_antisym q p).
  destruct (path_compare p q) eqn:E; simpl; try done.
  intros _ _. by apply path_compare_eq.
Qed.

#[global] Instance path_le_total : Total path_le.
Proof.
  intros p q. unfold path_le. rewrite (path_compare_antisym q p).
  destruct (path_compare p q); simpl; auto.
Qed.

Lemma path_compare_app (d : path) (a b : string) :
  path_compare (d ++ [a]) (d ++ [b]) = String.compare a b.
Proof.
  induction d as [|c d IH]; simpl.
  - by destruct (String.compare a b).
  - by rewrite string_compare_refl.
Qed.

Lemma string_compare_app (n x y : string) :
  String.compare (n +:+ x) (n +:+ y) = String.compare x y.
Proof.
  induction n as [|c n IH]; simpl; [done|].
  unfold Ascii.compare. by rewrite N.compare_refl.
Qed.

Lemma digit_char_compare (x y : Z) :
  0 <= x < 10 -> 0 <= y < 10 ->
  Ascii.compare (digit_char x) (digit_char y) = (x ?= y).
Proof.
  intros Hx Hy. unfold Ascii.compare, digit_char.
  rewrite !N_ascii_embedding by lia.
  rewrite <- N2Z.inj_compare, !Z2N.id by lia.
  destruct (Z.compare_spec x y); [apply Z.compare_eq_iff|apply Z.compare_lt_iff
                                  |apply Z.compare_gt_iff]; lia.
Qed.

Lemma three_digits_split (i : Z) :
  0 <= i < 1000 ->
  exists x y z, 0 <= x < 10 ∧ 0 <= y < 10 ∧ 0 <= z < 10
                ∧ i = 100 * x + 10 * y + z
                ∧ three_digits i = [digit_char x; digit_char y; digit_char z].
Proof.
  intros Hi. exists (i / 100), (i / 10 mod 10), (i mod 10).
  pose proof (Z.div_mod i 10 ltac:(lia)).
  pose proof (Z.div_mod (i / 10) 10 ltac:(lia)).
  pose proof (Z.mod_pos_bound (i / 10) 10 ltac:(lia)).
  pose proof (Z.mod_pos_bound i 10 ltac:(lia)).
  assert (i / 10 / 10 = i / 100) as E by (rewrite Z.div_div by lia; reflexivity).
  pose proof (Z.div_pos i 100 ltac:(lia) ltac:(lia)).
  assert (i / 100 < 10) by (apply Z.div_lt_upper_bound; lia).
  split_and!; try done; try lia.
Qed.

(** On three digits the order of the strings is the order of the numbers. *)
Lemma three_digits_compare (i j : Z) :
  0 <= i < 1000 -> 0 <= j < 1000 ->
  String.compare (string_of_list_ascii (three_digits i))
                 (string_of_list_ascii (three_digits j)) = (i ?= j).
Proof.
  intros Hi Hj.
  destruct (three_digits_split i Hi) as (x & y & z & Hx & Hy & Hz & -> & ->).
  destruct (three_digits_split j Hj) as (x' & y' & z' & Hx' & Hy' & Hz' & -> & ->).
  simpl. rewrite !digit_char_compare by done.
  destruct (Z.compare_spec x x'); subst;
  destruct (Z.compare_spec y y'); subst;
  destruct (Z.compare_spec z z'); subst; symmetry;
    first [apply Z.compare_eq_iff|apply Z.compare_lt_iff|apply Z.compare_gt_iff]; lia.
Qed.

Lemma part_path_compare (d : path) (n : string) (i j : Z) :
  0 <= i < 1000 -> 0 <= j < 1000 ->
  path_compare (part_path d n i) (part_path d n j) = (i ?= j).
Proof.
  intros Hi Hj. rewrite !part_path_eq, path_compare_app.
  unfold part_name. rewrite !string_compare_app.
  rewrite !format_index_three by done. by apply three_digits_compare.
Qed.

Lemma parts_sorted (d : path) (n : string) (js : list Z) :
  StronglySorted Z.lt js -> Forall (fun i => 0 <= i < 1000) js ->
  StronglySorted path_le (map (part_path d n) js).
Proof.
  induction 1 as [|j js Hs IH Hj]; intros Hall; simpl; constructor.
  - apply IH. by apply Forall_inv_tail in Hall.
  - apply Forall_cons in Hall as [Hj0 Hall].
    apply Forall_fmap, Forall_forall. intros k Hk. simpl.
    rewrite Forall_forall in Hj, Hall.
    unfold path_le. rewrite part_path_compare; [|done|by apply Hall].
    specialize (Hj k Hk). by rewrite (proj2 (Z.compare_lt_iff j k) Hj).
Qed.

Lemma range_sorted (n : Z) : StronglySorted Z.lt (range n).
Proof.
  unfold range. generalize 0%nat as a.
  induction (Z.to_nat n) as [|k IH]; intros a; simpl; constructor; [apply IH|].
  apply Forall_fmap, Forall_forall. intros i Hi%elem_of_seq. simpl. lia.
Qed.

(** ** Discovery *)

Lemma elem_of_listdir (f : gmap path node) (d p : path) :
  p ∈ listdir f d <-> p ≠ [] ∧ parent p = d ∧ is_Some (f !! p).
Proof.
  unfold listdir, children. rewrite list_elem_of_filter, list_elem_of_fmap. split.
  - intros ([Hne Hp] & [q x] & -> & Hel). apply elem_of_map_to_list in Hel.
    simpl in *. eauto.
  - intros (Hne & Hp & x & Hx). split; [done|].
    exists (p, x). split; [done|]. by apply elem_of_map_to_list.
Qed.

Lemma NoDup_listdir (f : gmap path node) (d : path) : NoDup (listdir f d).
Proof. unfold listdir, children. apply NoDup_filter, NoDup_fst_map_to_list. Qed.

Lemma elem_of_glob_from (l : list path) (pat : string) (p : path) :
  p ∈ glob_from l pat <-> p ∈ l ∧ Fnmatch.fnmatch (name p) pat = true.
Proof. unfold glob_from. rewrite list_elem_of_filter. tauto. Qed.

Lemma elem_of_sorted (l : list path) (p : path) : p ∈ sorted l <-> p ∈ l.
Proof. unfold sorted. by rewrite merge_sort_Permutation. Qed.

Lemma elem_of_discovered (f : gmap path node) (d : path) (n : string) (p : path) :
  p ∈ discovered f d n
  <-> p ≠ [] ∧ parent p = d ∧ is_Some (f !! p)
      ∧ Fnmatch.fnmatch (name p) (chunk_pattern n) = true.
Proof.
  unfold discovered. rewrite elem_of_sorted, elem_of_glob_from, elem_of_listdir.
  tauto.
Qed.

(** An ascending list with the same elements is what [sorted] returns. *)
Lemma sorted_unique (l expected : list path) :
  NoDup l -> NoDup expected -> (forall p, p ∈ l <-> p ∈ expected) ->
  Sorted path_le expected -> sorted l = expected.
Proof.
  intros Hl He Hiff Hs. unfold sorted.
  apply (Sorted_unique path_le); [apply Sorted_merge_sort, _|done|].
  rewrite merge_sort_Permutation. by apply NoDup_Permutation.
Qed.

Lemma sorted_permutation (l l' : list path) : l ≡ₚ l' -> sorted l = sorted l'.
Proof.
  intros H. unfold sorted.
  apply (Sorted_unique path_le); try (apply Sorted_merge_sort, _).
  by rewrite !merge_sort_Permutation.
Qed.

Lemma glob_run (d : path) (n : string) (w : world) :
  accepted n ->
  glob d (chunk_pattern n) w =
    (w, Ok (if is_dir (files w) d
            then glob_from (listdir (files w) d) (chunk_pattern n) else [])).
Proof. intros H. unfold glob. by rewrite H. Qed.

Lemma has_double_star_literal (l rest : list ascii) :
  forallb (fun c => negb (is_meta c)) l = true -> rest ≠ [] ->
  has_double_star (l ++ rest) = has_double_star rest.
Proof.
  intros Hl Hrest. induction l as [|c l IH]; [done|].
  simpl in Hl. apply andb_prop in Hl as [Hc Hl].
  unfold is_meta in Hc. apply negb_true_iff in Hc.
  apply orb_false_elim in Hc as [Hc _]. apply orb_false_elim in Hc as [Hc _].
  rewrite <- (IH Hl). change ((c :: l) ++ rest) with (c :: (l ++ rest)).
  destruct (l ++ rest) as [|b t] eqn:E.
  - by destruct l, rest.
  - cbn [has_double_star]. by rewrite Hc.
Qed.

(** A name without wildcards gives a pattern that [glob] accepts. *)
Lemma literal_accepted (n : string) : literal n -> accepted n.
Proof.
  intros H. unfold accepted, chunk_pattern. rewrite list_ascii_app.
  by rewrite has_double_star_literal.
Qed.

(** ** The merger, run *)

Lemma merge_loop_run (out : path) (chunks : list path) :
  forall (datas : list bytes) (acc : bytes) (w : world),
  Forall2 (fun p data => p ≠ [] ∧ p ≠ out ∧ files w !! p = Some (File data)
                         ∧ fits w (Z.of_nat (length data)))
          chunks datas ->
  files w !! out = Some (File acc) ->
  merge_loop out chunks w =
    (World (<[out := File (acc ++ concat datas)]> (files w))
           (stdout w ++ merge_msgs out chunks)
           (reads w ++ map length datas) (memory w),
     Ok tt).
Proof.
  induction chunks as [|p chunks IH]; intros datas acc w Hall Hacc.
  - apply Forall2_nil_inv_l in Hall as ->. simpl. unfold_M.
    rewrite !app_nil_r, insert_id by done. by destruct w.
  - apply Forall2_cons_inv_l
      in Hall as (data & datas' & (Hne & Hop & Hp & Hfit) & Hall & ->).
    cbn [merge_loop].
    erewrite bind_run by (by eapply open_rb_run).
    erewrite bind_run by (by apply (read_file_run _ _ _ _ data)).
    change (read_bytes (-1) (drop 0 data)) with data. cbn beta iota.
    erewrite bind_run by apply write_run.
    erewrite bind_run by reflexivity.
    cbn [files stdout reads]. unfold contents. rewrite Hacc.
    erewrite (IH datas' (acc ++ data)); cbn [files stdout reads].
    + rewrite insert_insert_eq. cbn [concat merge_msgs map].
      by rewrite <- !app_assoc.
    + eapply Forall2_impl; [exact Hall|]. intros q x (? & ? & ? & ?).
      split; [done|]. split; [done|]. split; [by rewrite lookup_insert_ne|done].
    + by rewrite lookup_insert_eq.
Qed.

Lemma read_text_run (p : path) (w : world) (sdata : bytes) (text : string) :
  p ≠ [] -> files w !! p = Some (File sdata) -> decode sdata = Some text ->
  fits w (Z.of_nat (length sdata)) ->
  read_text p w =
    (World (files w) (stdout w) (reads w ++ [length sdata]) (memory w),
     Ok (string_of_list_ascii (universal_newlines (list_ascii_of_string text)))).
Proof.
  intros Hne Hp Hdec Hfit. unfold read_text.
  erewrite bind_run by (by eapply open_rb_run).
  erewrite bind_run by (by apply (read_file_run _ _ _ _ sdata)).
  change (read_bytes (-1) (drop 0 sdata)) with sdata. cbn beta iota.
  by rewrite Hdec.
Qed.

Lemma Forall2_elem_impl {A B} (P Q : A -> B -> Prop) (l : list A) (k : list B) :
  Forall2 P l k -> (forall x y, x ∈ l -> y ∈ k -> P x y -> Q x y) ->
  Forall2 Q l k.
Proof.
  induction 1 as [|x y l k Hxy Hlk IH]; intros HPQ; constructor.
  - apply HPQ; [by left|by left|done].
  - apply IH. intros x' y' Hx' Hy'. apply HPQ; by right.
Qed.

Lemma match_nonempty {A X} (l : list A) (a b : X) :
  l ≠ [] -> match l with [] => a | _ :: _ => b end = b.
Proof. by destruct l. Qed.

Lemma merge_files_run (prefix : path) (output : option path) (w : world)
    (datas : list bytes) :
  let d := parent prefix in
  let n := name prefix in
  let chunks := discovered (files w) d n in
  let out := resolve_output prefix output in
  let f2 := <[out := File (concat datas)]> (files w) in
  accepted n -> is_dir (files w) d = true -> chunks ≠ [] ->
  Forall2 (fun p data => files w !! p = Some (File data)) chunks datas ->
  Forall (fun data => fits w (Z.of_nat (length data))) datas ->
  out ∉ chunks ->
  lookup_node (files w) out ≠ Some Dir -> is_dir (files w) (parent out) = true ->
  match f2 !! sidecar_path d n with
  | None =>
      merge_files prefix output w =
        (World f2 (stdout w ++ merge_msgs out chunks) (reads w ++ map length datas) (memory w),
         Ok out)
  | Some (File sdata) =>
      forall text, decode sdata = Some text ->
      fits w (Z.of_nat (length sdata)) -> fits w default_buf_size ->
      exists rs,
        Forall (fun r => Z.of_nat r <= default_buf_size) rs ∧
        merge_files prefix output w =
          (World f2
                 (stdout w ++ merge_msgs out chunks ++ [verdict (concat datas) text])
                 (reads w ++ map length datas ++ length sdata :: rs) (memory w),
           Ok out)
  | Some Dir => True
  end.
Proof.
  intros d n chunks out f2 Hacc Hd Hne Hall Hfits Hout Hnd Hpd.
  assert (Hone : out ≠ []) by (by intros E; rewrite E in Hnd).
  assert (Hside_ne : sidecar_path d n ≠ [])
    by (rewrite sidecar_path_eq; by destruct d).
  assert (Hsplit : merge_files prefix output w =
    ((f' ← get_files;
      (if exists_ f' (sidecar_path d n) then
         text ← read_text (sidecar_path d n);
         merged_hash ← sha256sum out default_buf_size;
         if String.eqb merged_hash (strip text) then print MsgHashOk
         else print MsgHashMismatch
       else mret tt) ;;
      mret out)
       (World f2 (stdout w ++ merge_msgs out chunks) (reads w ++ map length datas) (memory w)))).
  { unfold merge_files.
    erewrite bind_run by reflexivity. cbn beta. fold d. rewrite Hd. cbn [negb].
    fold n. fold (chunk_pattern n).
    erewrite bind_run by (by apply glob_run). cbn beta. rewrite Hd.
    fold (discovered (files w) d n). fold chunks.
    rewrite (match_nonempty chunks) by done.
    fold (resolve_output prefix output). fold out.
    erewrite bind_run by (by apply open_wb_run).
    erewrite bind_run; cycle 1.
    { apply (merge_loop_run out chunks datas []); cbn [files].
      - eapply Forall2_elem_impl; [exact Hall|]. intros p data Hp Hx Hlk. cbn beta.
        assert (p ≠ out) by (by intros ->).
        split; [by apply elem_of_discovered in Hp as [? _]|].
        split; [done|]. split; [by rewrite lookup_insert_ne|].
        by apply (proj1 (List.Forall_forall _ _) Hfits), list_elem_of_In.
      - by rewrite lookup_insert_eq. }
    cbn [files stdout reads app]. rewrite insert_insert_eq. done. }
  rewrite Hsplit. clear Hsplit.
  erewrite bind_run by reflexivity. cbn [files]. unfold exists_.
  rewrite (lookup_node_nonempty f2 _ Hside_ne).
  destruct (f2 !! sidecar_path d n) as [[sdata|]|] eqn:Hs; [| done |].
  - intros text Hdec Hfs Hfb.
    destruct (sha256sum_run out default_buf_size (concat datas)
                (World f2 (stdout w ++ merge_msgs out chunks)
                       ((reads w ++ map length datas) ++ [length sdata]) (memory w)) Hone)
      as (rs & Hsha & Hrs); [by apply lookup_insert_eq|done|exact Hfb|].
    exists rs. split; [done|].
    erewrite (bind_run _ _ _
               (World f2 (stdout w ++ merge_msgs out chunks ++ [verdict (concat datas) text])
                      (reads w ++ map length datas ++ length sdata :: rs) (memory w)) tt).
    { by unfold_M. }
    erewrite bind_run by (by apply (read_text_run _ _ sdata text)).
    cbn [files stdout reads] in *.
    erewrite bind_run by exact Hsha. unfold verdict.
    destruct (String.eqb _ _); unfold_M; cbn [files stdout reads];
      by rewrite <- !app_assoc.
  - by unfold_M.
Qed.

(** ** The digest is 64 lowercase hexadecimal digits *)

Lemma compress_length (h block : list Z) :
  length h = 8%nat -> length (Sha256.compress h block) = 8%nat.
Proof.
  intros Hh. unfold Sha256.compress. rewrite length_zip_with, Hh. done.
Qed.

Lemma blocks_length (n : nat) (h l : list Z) :
  length h = 8%nat -> length (Sha256.blocks n h l) = 8%nat.
Proof.
  revert h l. induction n as [|n IH]; intros h l Hh; simpl; [done|].
  apply IH. by apply compress_length.
Qed.

Lemma hex_digit_lower (v : Z) :
  0 <= v < 16 -> is_lower_hex (Sha256.hex_digit v) = true.
Proof.
  intros Hv. unfold Sha256.hex_digit, is_lower_hex, is_digit.
  destruct (Z.ltb_spec v 10); rewrite N_ascii_embedding by lia.
  - apply orb_true_intro. left. apply andb_true_intro. split; apply N.leb_le; lia.
  - apply orb_true_intro. right. apply andb_true_intro. split; apply N.leb_le; lia.
Qed.

Lemma hex_word_lower (x : Z) :
  length (Sha256.hex_word x) = 8%nat
  ∧ Forall (fun c => is_lower_hex c = true) (Sha256.hex_word x).
Proof.
  unfold Sha256.hex_word. split; [done|].
  apply Forall_fmap, Forall_forall. intros i _. simpl.
  apply hex_digit_lower. change 15 with (Z.ones 4).
  rewrite Z.land_ones by lia. apply Z.mod_pos_bound. lia.
Qed.

Lemma hexdigest_lower (msg : bytes) :
  length (list_ascii_of_string (Sha256.hexdigest msg)) = 64%nat
  ∧ Forall (fun c => is_lower_hex c = true)
           (list_ascii_of_string (Sha256.hexdigest msg)).
Proof.
  unfold Sha256.hexdigest. rewrite list_ascii_of_string_of_list_ascii.
  assert (Hlen : length (Sha256.digest msg) = 8%nat)
    by (by apply blocks_length).
  split.
  - destruct (Sha256.digest msg) as [|a [|b [|c [|d [|e [|f [|g [|h [|? ?]]]]]]]]];
      try done.
  - apply Forall_concat, Forall_fmap, Forall_forall. intros x _.
    apply hex_word_lower.
Qed.

(** ** Text that is a digest survives writing, reading and trimming *)

Lemma lower_hex_code (c : ascii) :
  is_lower_hex c = true -> (48 <= N_of_ascii c <= 102)%N.
Proof.
  unfold is_lower_hex, is_digit.
  intros [[H1 H2]%andb_prop|[H1 H2]%andb_prop]%orb_prop;
    apply N.leb_le in H1, H2; lia.
Qed.

Lemma to_N_byte_of_ascii (c : ascii) : Byte.to_N (byte_of_ascii c) = N_of_ascii c.
Proof. apply Byte.to_of_N. symmetry. apply byte_of_ascii_via_N. Qed.

Lemma list_byte_of_string_map (s : string) :
  list_byte_of_string s = map byte_of_ascii (list_ascii_of_string s).
Proof. induction s as [|c s IH]; simpl; [done|]. by rewrite <- IH. Qed.

Lemma decode_encode (s : string) :
  Forall (fun c => (N_of_ascii c < 128)%N) (list_ascii_of_string s) ->
  decode (encode s) = Some s.
Proof.
  intros H. unfold decode, encode.
  assert (forallb is_ascii_byte (list_byte_of_string s) = true) as ->.
  { rewrite list_byte_of_string_map. apply forallb_forall.
    intros b (c & <- & Hc)%in_map_iff. unfold is_ascii_byte.
    rewrite to_N_byte_of_ascii. apply N.ltb_lt.
    rewrite Forall_forall in H. apply H. by apply list_elem_of_In. }
  by rewrite string_of_list_byte_of_string.
Qed.

Lemma universal_newlines_id (l : list ascii) :
  Forall (fun c => c ≠ CR) l -> universal_newlines l = l.
Proof.
  induction 1 as [|c l Hc Hl IH]; simpl; [done|].
  destruct (Ascii.eqb_spec c CR); [done|]. by rewrite IH.
Qed.

Lemma lstrip_id (l : list ascii) :
  Forall (fun c => is_space c = false) l -> lstrip l = l.
Proof. intros [|c l' Hc Hl]; cbn [lstrip]; [done|]. rewrite Hc. reflexivity. Qed.

Lemma strip_id (s : string) :
  Forall (fun c => is_space c = false) (list_ascii_of_string s) -> strip s = s.
Proof.
  intros H. unfold strip. rewrite (lstrip_id (list_ascii_of_string s)) by done.
  rewrite lstrip_id by (by apply Forall_rev).
  by rewrite rev_involutive, string_of_list_ascii_of_string.
Qed.

Lemma is_space_printable (c : ascii) :
  (33 <= N_of_ascii c)%N -> is_space c = false.
Proof.
  intros H. unfold is_space. cbv zeta.
  destruct (N.leb_spec 9 (N_of_ascii c)), (N.leb_spec (N_of_ascii c) 13),
    (N.leb_spec 28 (N_of_ascii c)), (N.leb_spec (N_of_ascii c) 32); simpl; try done; lia.
Qed.

Lemma lower_hex_text (s : string) :
  Forall (fun c => is_lower_hex c = true) (list_ascii_of_string s) ->
  decode (encode s) = Some s
  ∧ strip (string_of_list_ascii (universal_newlines (list_ascii_of_string s))) = s.
Proof.
  intros H. split.
  - apply decode_encode. eapply Forall_impl; [exact H|].
    intros c Hc%lower_hex_code. simpl. lia.
  - rewrite universal_newlines_id.
    + rewrite string_of_list_ascii_of_string. apply strip_id.
      eapply Forall_impl; [exact H|]. intros c Hc%lower_hex_code.
      apply is_space_printable. lia.
    + eapply Forall_impl; [exact H|]. intros c Hc%lower_hex_code E.
      rewrite E in Hc. vm_compute in Hc. destruct Hc as [Hc _]. by apply Hc.
Qed.

(** ** What a merge discovers after a split *)

Lemma part_path_ne_sidecar (d : path) (n : string) (i : Z) :
  part_path d n i ≠ sidecar_path d n.
Proof.
  rewrite part_path_eq, sidecar_path_eq. intros [_ E]%app_inj_tail.
  unfold part_name in E. apply (inj _) in E.
  apply (f_equal list_ascii_of_string) in E. rewrite list_ascii_app in E.
  simpl in E. injection E as E.
  destruct (decide (0 <= i)) as [Hi|Hi].
  - pose proof (f_equal decimal_val E) as Ev.
    rewrite format_index_val in Ev by done. vm_compute in Ev. subst i.
    by vm_compute in E.
  - unfold format_index, decimal in E.
    rewrite list_ascii_of_string_of_list_ascii in E.
    assert (Z.log2 i = 0) as El by (apply Z.log2_nonpos; lia).
    rewrite El in E. simpl in E. apply (f_equal length) in E.
    revert E. destruct (i / 10 =? 0); simpl; done.
Qed.

Lemma parts_lookup (f : gmap path node) (d : path) (n : string) (k : Z)
    (bufs : list bytes) (i : nat) (b : bytes) :
  length bufs = Z.to_nat k -> bufs !! i = Some b ->
  write_parts f (zip (map (part_path d n) (range k)) bufs)
    !! part_path d n (Z.of_nat i) = Some (File b).
Proof.
  intros Hlen Hb. apply (write_parts_lookup _ _ i).
  - rewrite fst_zip; [apply NoDup_parts|]. rewrite length_map, length_range. lia.
  - apply lookup_zip_Some. split; [|done].
    unfold range. rewrite list_lookup_fmap, list_lookup_fmap.
    rewrite lookup_seq_lt; [done|]. apply lookup_lt_Some in Hb. lia.
Qed.

Lemma part_notin_parts (d : path) (n : string) (k i : Z) (bufs : list bytes) :
  0 <= i -> k <= i ->
  part_path d n i ∉ (zip (map (part_path d n) (range k)) bufs).*1.
Proof.
  intros Hi Hk Hel%fst_zip_subseteq.
  apply list_elem_of_fmap in Hel as (j & E & Hj%elem_of_range).
  apply part_path_inj in E; lia.
Qed.

(** ** Indices from 1000 on *)

Lemma decimal_aux_length_acc (fuel : nat) (n : Z) (acc : list ascii) :
  (length acc <= length (decimal_aux fuel n acc))%nat.
Proof.
  revert n acc. induction fuel as [|fuel IH]; intros n acc; simpl; [done|].
  destruct (n / 10 =? 0); simpl; [lia|].
  etrans; [|apply IH]. simpl. lia.
Qed.

Lemma decimal_aux_length_ge (fuel : nat) :
  forall (n : Z) (acc : list ascii) (k : nat),
  10 ^ Z.of_nat k <= n -> (k < fuel)%nat ->
  (length acc + k + 1 <= length (decimal_aux fuel n acc))%nat.
Proof.
  induction fuel as [|fuel IH]; intros n acc k Hn Hk; [lia|].
  cbn [decimal_aux].
  assert (0 < 10 ^ Z.of_nat k) by (apply Z.pow_pos_nonneg; lia).
  destruct (Z.eqb_spec (n / 10) 0) as [Hq|Hq].
  - assert (n < 10).
    { pose proof (Z.div_mod n 10 ltac:(lia)).
      pose proof (Z.mod_pos_bound n 10 ltac:(lia)). lia. }
    destruct k as [|k]; [simpl; lia|].
    rewrite Nat2Z.inj_succ, Z.pow_succ_r in Hn by lia.
    assert (0 < 10 ^ Z.of_nat k) by (apply Z.pow_pos_nonneg; lia). lia.
  - destruct k as [|k].
    + etrans; [|apply decimal_aux_length_acc]. simpl. lia.
    + etrans; [|apply (IH _ _ k)]; [simpl; lia| |lia].
      rewrite Nat2Z.inj_succ, Z.pow_succ_r in Hn by lia.
      apply Z.div_le_lower_bound; lia.
Qed.

(** From 1000 on an index takes more than three digits. *)
Lemma format_index_long (i : Z) :
  1000 <= i ->
  (3 < length (list_ascii_of_string (format_index CHUNK_SUFFIX_LEN i)))%nat.
Proof.
  intros Hi. unfold format_index. rewrite list_ascii_of_string_of_list_ascii.
  rewrite length_app.
  assert (9 <= Z.log2 i) by (change 9 with (Z.log2 1000); by apply Z.log2_le_mono).
  pose proof (decimal_aux_length_ge (S (Z.to_nat (Z.log2 i))) i [] 3
                ltac:(change (10 ^ Z.of_nat 3) with 1000; lia) ltac:(lia)) as H'.
  unfold decimal. cbn [length] in H'. lia.
Qed.

(** After a split, in a directory that held no other chunk of that name,
    discovery returns the chunks of the indices below 1000, in order, and
    none of the others. *)
Lemma discovered_after_split_capped (f f1 : gmap path node) (d : path) (n : string)
    (k : Z) (bufs : list bytes) (sd : bytes) :
  literal n -> dirs_added d f f1 -> 0 <= k ->
  (forall i, k <= i < 1000 -> f !! part_path d n i = None) ->
  length bufs = Z.to_nat k ->
  discovered (<[sidecar_path d n := File sd]>
                (write_parts f1 (zip (map (part_path d n) (range k)) bufs))) d n
  = map (part_path d n) (range (Z.min k 1000)).
Proof.
  intros Hlit Hadd Hk Hfresh Hlen. unfold discovered.
  apply sorted_unique.
  - apply NoDup_filter, NoDup_listdir.
  - apply NoDup_parts.
  - intros p. rewrite elem_of_glob_from, elem_of_listdir, list_elem_of_fmap. split.
    + intros ((Hne & Hpar & Hsome) & Hm).
      apply fnmatch_literal_index in Hm as (i & Hi & Hname); [|done].
      assert (p = part_path d n i) as ->.
      { rewrite part_path_eq, <- Hname, <- Hpar. by apply parent_name. }
      exists i. split; [done|]. apply elem_of_range.
      destruct (decide (i < k)) as [|Hge]; [lia|]. exfalso.
      rewrite lookup_insert_ne in Hsome by (by intros E; symmetry in E;
                                              apply part_path_ne_sidecar in E).
      rewrite write_parts_notin in Hsome by (apply part_notin_parts; lia).
      rewrite (dirs_added_outside _ _ _ _ Hadd) in Hsome
        by apply part_path_not_prefix.
      rewrite Hfresh in Hsome by lia. by destruct Hsome.
    + intros (i & -> & Hi%elem_of_range).
      split_and!.
      * rewrite part_path_eq. by destruct d.
      * by rewrite part_path_eq, parent_app.
      * rewrite lookup_insert_ne by (by intros E; symmetry in E;
                                       apply part_path_ne_sidecar in E).
        destruct (lookup_lt_is_Some_2 bufs (Z.to_nat i)) as [b Hb]; [lia|].
        rewrite <- (Z2Nat.id i) by lia.
        by rewrite (parts_lookup _ _ _ _ _ _ b).
      * rewrite part_path_eq, name_app. apply fnmatch_literal_index; [done|].
        exists i. split; [lia|done].
  - apply StronglySorted_Sorted, parts_sorted; [apply range_sorted|].
    apply Forall_forall. intros i Hi%elem_of_range. lia.
Qed.

Lemma discovered_after_split (f f1 : gmap path node) (d : path) (n : string)
    (k : Z) (bufs : list bytes) (sd : bytes) :
  literal n -> dirs_added d f f1 -> 0 <= k <= 1000 ->
  (forall i, k <= i < 1000 -> f !! part_path d n i = None) ->
  length bufs = Z.to_nat k ->
  discovered (<[sidecar_path d n := File sd]>
                (write_parts f1 (zip (map (part_path d n) (range k)) bufs))) d n
  = map (part_path d n) (range k).
Proof.
  intros Hlit Hadd Hk Hfresh Hlen.
  rewrite (discovered_after_split_capped f) by (done || lia).
  by rewrite Z.min_l by lia.
Qed.

Lemma merge_files_at (prefix : path) (output : option path) (w : world)
    (datas : list bytes) (d : path) (n : string) (chunks : list path) (out : path) :
  parent prefix = d -> name prefix = n ->
  discovered (files w) d n = chunks -> resolve_output prefix output = out ->
  accepted n -> is_dir (files w) d = true -> chunks ≠ [] ->
  Forall2 (fun p data => files w !! p = Some (File data)) chunks datas ->
  Forall (fun data => fits w (Z.of_nat (length data))) datas ->
  out ∉ chunks ->
  lookup_node (files w) out ≠ Some Dir -> is_dir (files w) (parent out) = true ->
  match <[out := File (concat datas)]> (files w) !! sidecar_path d n with
  | None =>
      merge_files prefix output w =
        (World (<[out := File (concat datas)]> (files w))
               (stdout w ++ merge_msgs out chunks) (reads w ++ map length datas) (memory w),
         Ok out)
  | Some (File sdata) =>
      forall text, decode sdata = Some text ->
      fits w (Z.of_nat (length sdata)) -> fits w default_buf_size ->
      exists rs,
        Forall (fun r => Z.of_nat r <= default_buf_size) rs ∧
        merge_files prefix output w =
          (World (<[out := File (concat datas)]> (files w))
                 (stdout w ++ merge_msgs out chunks ++ [verdict (concat datas) text])
                 (reads w ++ map length datas ++ length sdata :: rs) (memory w),
           Ok out)
  | Some Dir => True
  end.
Proof. intros <- <- <- <-. apply merge_files_run. Qed.

(** ** A merge that finds nothing *)

Lemma merge_files_not_found (prefix : path) (output : option path) (w : world) :
  is_dir (files w) (parent prefix) = false
  ∨ accepted (name prefix)
    ∧ glob_from (listdir (files w) (parent prefix)) (chunk_pattern (name prefix)) = [] ->
  merge_files prefix output w = (w, Raise FileNotFoundError).
Proof.
  intros H. unfold merge_files.
  erewrite bind_run by reflexivity. cbn beta.
  destruct (is_dir (files w) (parent prefix)) eqn:Hd; [|done].
  destruct H as [H|[Hacc H]]; [done|]. cbn [negb].
  fold (chunk_pattern (name prefix)).
  erewrite bind_run by (by apply glob_run). cbn beta. by rewrite Hd, H.
Qed.

Lemma list_empty_no_elem {A} (l : list A) : (forall x, x ∉ l) -> l = [].
Proof. destruct l as [|a l]; [done|]. intros H. destruct (H a). by left. Qed.

(** ** Sizes that a read can be asked for *)

Lemma fits_le (w : world) (n m : Z) : m <= n -> fits w n -> fits w m.
Proof. unfold fits. lia. Qed.

Lemma fits_float (n : Z) : n <= max_bytes -> n < 2 ^ 1075.
Proof.
  intros H. assert (max_bytes < 2 ^ 1075) by done. lia.
Qed.

Lemma encode_length (s : string) :
  length (encode s) = length (list_ascii_of_string s).
Proof.
  unfold encode, list_byte_of_string. by rewrite length_map.
Qed.

Lemma fits_digest (w : world) (msg : bytes) :
  fits w default_buf_size ->
  fits w (Z.of_nat (length (encode (Sha256.hexdigest msg)))).
Proof.
  rewrite encode_length. destruct (hexdigest_lower msg) as [-> _].
  apply fits_le. done.
Qed.

(** Below [2^1023] bytes the splitter has a count of chunks, and asks for
    no read when the count is zero. *)
Lemma split_count (content : bytes) (mb : Z) (w : world) :
  0 < mb -> Z.of_nat (length content) < 2 ^ 1023 ->
  (content ≠ [] -> fits w (mb * 2 ^ 20)) ->
  exists n,
    (forall w', ceil_div (Z.of_nat (length content)) (mb * Z.shiftl 1 20) w' = (w', Ok n))
    ∧ (range n = [] ∨ 0 <= mb * Z.shiftl 1 20 ∧ fits w (mb * Z.shiftl 1 20)).
Proof.
  intros Hmb Hlen HfitS.
  destruct (ceil_div_total (Z.of_nat (length content)) (mb * Z.shiftl 1 20))
    as (n & Hn); [lia|done|change (Z.shiftl 1 20) with 1048576; lia|].
  exists n. split; [done|].
  destruct (decide (content = [])) as [E|E]; [left|right].
  - pose proof (Hn w) as E0. rewrite E in E0. cbn [length Z.of_nat] in E0.
    rewrite ceil_div_zero in E0 by (change (Z.shiftl 1 20) with 1048576; lia).
    by injection E0 as <-.
  - change (Z.shiftl 1 20) with (2 ^ 20). split; [lia|by apply HfitS].
Qed.

(** ** The chunks of a split, where the float quotient is exact *)

Lemma split_chunks_exact (input : path) (mb : Z) (d : path) (content : bytes)
    (w : world) :
  let nm := name input in
  let T := Z.of_nat (length content) in
  let S := mb * 2 ^ 20 in
  let n := - ((- T) / S) in
  files w !! input = Some (File content) -> input ≠ [] ->
  T < 2 ^ 53 -> 0 < mb ->
  fits w default_buf_size -> (0 < T -> fits w S) ->
  creatable (files w) d ->
  (forall i, 0 <= i < n -> files w !! part_path d nm i ≠ Some Dir) ->
  files w !! sidecar_path d nm ≠ Some Dir ->
  exists w1,
    split_file input mb d w = (w1, Ok (map (part_path d nm) (range n)))
    ∧ length (map (part_path d nm) (range n)) = Z.to_nat n
    ∧ NoDup (map (part_path d nm) (range n))
    ∧ (forall i, 0 <= i < n ->
         files w1 !! part_path d nm i
         = Some (File (take (Z.to_nat S) (drop (Z.to_nat (i * S)) content))))
    ∧ (forall i, 0 <= i < n - 1 ->
         Z.of_nat (length (take (Z.to_nat S) (drop (Z.to_nat (i * S)) content))) = S)
    ∧ (0 < n ->
         Z.of_nat (length (take (Z.to_nat S) (drop (Z.to_nat ((n - 1) * S)) content)))
         = if T mod S =? 0 then S else T mod S)
    ∧ concat (map (fun i => take (Z.to_nat S) (drop (Z.to_nat (i * S)) content)) (range n))
      = content.
Proof.
  intros nm T S n Hin Hne HT Hmb Hfit1 HfitS Hc Hparts Hside.
  assert (HS : 0 < S) by (unfold S; lia).
  assert (HT0 : 0 <= T) by (unfold T; lia).
  pose proof (ceil_covers T S ltac:(lia) HS) as [Hn0 [Hn1 Hn2]]. fold n in Hn0, Hn1, Hn2.
  assert (Hceil : forall w', ceil_div T (mb * Z.shiftl 1 20) w' = (w', Ok n)).
  { intros w'. destruct (decide (T = 0)) as [E|E].
    - unfold n. rewrite E. apply ceil_div_zero.
      change (Z.shiftl 1 20) with (2 ^ 20). lia.
    - destruct (HfitS ltac:(lia)) as [HS' _].
      apply ceil_div_exact; try done; try lia.
      change (Z.shiftl 1 20) with (2 ^ 20). fold S.
      by apply fits_float. }
  assert (HfS : range n = [] ∨ 0 <= mb * Z.shiftl 1 20 ∧ fits w (mb * Z.shiftl 1 20)).
  { destruct (decide (T = 0)) as [E|E]; [left|right].
    - unfold n. by rewrite E.
    - split; [change (Z.shiftl 1 20) with (2 ^ 20); lia|apply HfitS; lia]. }
  destruct (split_file_run input mb d content n w Hin Hne Hc Hparts Hside Hceil
              Hfit1 HfS)
    as (f1 & rs & Hadd & Hdir & Hrs & Hrun).
  change (Z.shiftl 1 20) with (2 ^ 20) in *. fold nm S in Hrun.
  eexists. split; [exact Hrun|].
  assert (Hbufs : slices S content 0 (length (range n))
                  = map (fun i => take (Z.to_nat S) (drop (Z.to_nat (i * S)) content))
                        (range n)).
  { rewrite slices_formula by done. rewrite length_range. unfold range.
    rewrite map_map. apply map_ext. intros i. simpl. do 2 f_equal.
    rewrite Z2Nat.inj_mul by lia. lia. }
  split_and!.
  - by rewrite length_map, length_range.
  - apply NoDup_parts.
  - intros i Hi. cbn [files].
    rewrite lookup_insert_ne
      by (by intros E; symmetry in E; apply part_path_ne_sidecar in E).
    rewrite <- (Z2Nat.id i) at 1 by lia.
    apply parts_lookup; [by rewrite slices_length, length_range|].
    rewrite Hbufs. unfold range. rewrite !list_lookup_fmap.
    rewrite lookup_seq_lt by lia. simpl. by rewrite Z2Nat.id by lia.
  - intros i Hi. rewrite length_take, length_drop.
    rewrite Z2Nat.inj_mul by lia. fold T. nia.
  - intros Hn. rewrite length_take, length_drop.
    pose proof (Z.div_mod T S ltac:(lia)) as E.
    pose proof (Z.mod_pos_bound T S HS) as Hr.
    destruct (Z.eqb_spec (T mod S) 0) as [Hz|Hz].
    + assert (n = T / S) by nia. nia.
    + assert (n = T / S + 1) by nia. nia.
  - rewrite <- Hbufs, length_range. apply slices_concat; [done|].
    fold T. nia.
Qed.

(** ** The merger with and without a sidecar *)

Section merge_runs.
Variables (prefix : path) (output : option path) (w : world) (datas : list bytes).
Let d := parent prefix.
Let n := name prefix.
Let chunks := discovered (files w) d n.
Let out := resolve_output prefix output.

Hypothesis Haccepted : accepted n.
Hypothesis Hdir : is_dir (files w) d = true.
Hypothesis Hfound : chunks ≠ [].
Hypothesis Hdatas :
  Forall2 (fun p data => files w !! p = Some (File data)) chunks datas.
Hypothesis Hfits : Forall (fun data => fits w (Z.of_nat (length data))) datas.
Hypothesis Hout : out ∉ chunks.
Hypothesis Hout_file : lookup_node (files w) out ≠ Some Dir.
Hypothesis Hout_dir : is_dir (files w) (parent out) = true.
Hypothesis Hout_side : out ≠ sidecar_path d n.

Lemma merge_files_with_sidecar (sdata : bytes) (text : string) :
  files w !! sidecar_path d n = Some (File sdata) -> decode sdata = Some text ->
  fits w (Z.of_nat (length sdata)) -> fits w default_buf_size ->
  exists rs,
    Forall (fun r => Z.of_nat r <= default_buf_size) rs ∧
    merge_files prefix output w =
      (World (<[out := File (concat datas)]> (files w))
             (stdout w ++ merge_msgs out chunks ++ [verdict (concat datas) text])
             (reads w ++ map length datas ++ length sdata :: rs) (memory w),
       Ok out).
Proof using All.
  intros Hs Hdec Hfs Hfb.
  pose proof (merge_files_at prefix output w datas d n chunks out
                eq_refl eq_refl eq_refl eq_refl Haccepted Hdir Hfound Hdatas Hfits
                Hout Hout_file Hout_dir) as H.
  rewrite lookup_insert_ne, Hs in H by done. by apply H.
Qed.

Lemma merge_files_without_sidecar :
  files w !! sidecar_path d n = None ->
  merge_files prefix output w =
    (World (<[out := File (concat datas)]> (files w))
           (stdout w ++ merge_msgs out chunks)
           (reads w ++ map length datas) (memory w),
     Ok out).
Proof using All.
  intros Hs.
  pose proof (merge_files_at prefix output w datas d n chunks out
                eq_refl eq_refl eq_refl eq_refl Haccepted Hdir Hfound Hdatas Hfits
                Hout Hout_file Hout_dir) as H.
  by rewrite lookup_insert_ne, Hs in H by done.
Qed.
End merge_runs.

Lemma verdict_ok (merged : bytes) (text : string) :
  verdict merged text = MsgHashOk <-> stored_hash text = Sha256.hexdigest merged.
Proof.
  unfold verdict. fold (stored_hash text).
  destruct (String.eqb_spec (Sha256.hexdigest merged) (stored_hash text)); split;
    try done; congruence.
Qed.

Lemma verdict_mismatch (merged : bytes) (text : string) :
  verdict merged text = MsgHashMismatch <-> stored_hash text ≠ Sha256.hexdigest merged.
Proof.
  unfold verdict. fold (stored_hash text).
  destruct (String.eqb_spec (Sha256.hexdigest merged) (stored_hash text)); split;
    try done; congruence.
Qed.

(** ** Ascending indices *)

Lemma sorted_le_NoDup_lt (js : list Z) :
  StronglySorted Z.le js -> NoDup js -> StronglySorted Z.lt js.
Proof.
  induction 1 as [|j js Hs IH Hj]; intros Hnd; constructor.
  - apply IH. by apply NoDup_cons in Hnd as [_ ?].
  - apply NoDup_cons in Hnd as [Hnotin _].
    rewrite Forall_forall in *. intros k Hk.
    specialize (Hj k Hk). assert (j ≠ k) by (by intros ->). lia.
Qed.

Lemma matched_indices_spec (n : string) (idxs : list Z) :
  NoDup idxs ->
  StronglySorted Z.lt (matched_indices n idxs)
  ∧ NoDup (matched_indices n idxs)
  ∧ (forall j, j ∈ matched_indices n idxs
               <-> j ∈ idxs ∧ Fnmatch.fnmatch (part_name n j) (chunk_pattern n) = true).
Proof.
  intros Hnd. unfold matched_indices.
  set (P := fun j => Fnmatch.fnmatch (part_name n j) (chunk_pattern n) = true).
  assert (Hperm : merge_sort Z.le (filter P idxs) ≡ₚ filter P idxs)
    by apply merge_sort_Permutation.
  assert (Hnd' : NoDup (merge_sort Z.le (filter P idxs))).
  { rewrite Hperm. by apply NoDup_filter. }
  split_and!; [|done|].
  - apply sorted_le_NoDup_lt; [|done]. apply StronglySorted_merge_sort; apply _.
  - intros j. rewrite Hperm, list_elem_of_filter. unfold P. tauto.
Qed.

Lemma matched_indices_literal (n : string) (idxs : list Z) :
  literal n -> Forall (fun i => 0 <= i < 1000) idxs -> matched_indices n idxs ≡ₚ idxs.
Proof.
  intros Hlit Hall. unfold matched_indices. rewrite merge_sort_Permutation.
  induction Hall as [|i idxs Hi Hall IH]; [done|].
  rewrite filter_cons_True; [by rewrite IH|].
  apply fnmatch_literal_index; [done|]. by exists i.
Qed.

(** Whatever the order of the listing, the chunks named [n.ddd] that it
    holds are discovered in ascending order of their indices. *)
Lemma discovery_sorted (d : path) (n : string) (idxs : list Z) (l : list path) :
  NoDup idxs -> Forall (fun i => 0 <= i < 1000) idxs ->
  l ≡ₚ map (part_path d n) idxs ->
  sorted (glob_from l (chunk_pattern n)) = map (part_path d n) (matched_indices n idxs).
Proof.
  intros Hnd Hall Hperm.
  destruct (matched_indices_spec n idxs Hnd) as (Hs & Hnd' & Hel).
  rewrite Forall_forall in Hall.
  assert (Hinj : forall i j, i ∈ idxs -> j ∈ idxs ->
                             part_path d n i = part_path d n j -> i = j).
  { intros i j Hi%Hall Hj%Hall. apply part_path_inj; lia. }
  apply sorted_unique.
  - apply NoDup_filter. rewrite Hperm. by apply NoDup_fmap_2_strong.
  - apply NoDup_fmap_2_strong; [|done].
    intros i j Hi%Hel Hj%Hel. apply Hinj; tauto.
  - intros p. rewrite elem_of_glob_from, Hperm, !list_elem_of_fmap. split.
    + intros ((i & -> & Hi) & Hm). exists i. split; [done|]. apply Hel.
      by rewrite part_path_eq, name_app in Hm.
    + intros (i & -> & [Hi Hm]%Hel). split; [by exists i|].
      by rewrite part_path_eq, name_app.
  - apply StronglySorted_Sorted, parts_sorted; [done|].
    apply Forall_forall. intros j [Hj _]%Hel. by apply Hall.
Qed.

(** ** Sizes of the buffers read *)

Lemma slices_bounded (size : Z) (content : bytes) (k : nat) :
  0 <= size ->
  forall pos, Forall (fun b => Z.of_nat (length b) <= size) (slices size content pos k).
Proof.
  intros Hs. induction k as [|k IH]; intros pos; simpl; constructor.
  - by apply read_bytes_length.
  - apply IH.
Qed.


(** ** Beyond the cap *)

(** A split into more than 1000 chunks is merged without complaint from the
    first 1000 chunks alone: the output is the input cut at a thousand
    times the chunk size. *)
Lemma merge_beyond_cap (input : path) (mb : Z) (d : path) (content : bytes)
    (w : world) :
  let nm := name input in
  let S := mb * 2 ^ 20 in
  let n := - ((- Z.of_nat (length content)) / S) in
  files w !! input = Some (File content) -> input ≠ [] -> nm ≠ EmptyString ->
  Z.of_nat (length content) < 2 ^ 53 ->
  0 < mb -> fits w default_buf_size -> fits w S -> 1000 < n ->
  literal nm ->
  creatable (files w) d ->
  (forall i, 0 <= i < n -> files w !! part_path d nm i ≠ Some Dir) ->
  files w !! sidecar_path d nm ≠ Some Dir ->
  files w !! (d ++ [nm]) ≠ Some Dir ->
  exists w1 w2,
    split_file input mb d w = (w1, Ok (map (part_path d nm) (range n)))
    ∧ merge_files (joinpath d nm) None w1 = (w2, Ok (joinpath d nm))
    ∧ files w2 !! joinpath d nm = Some (File (take (Z.to_nat (1000 * S)) content))
    ∧ 1000 * S < Z.of_nat (length content).
Proof.
  intros nm S n Hin Hne Hnm Hsize Hmb Hfit1 HfitS Hn Hlit Hc Hparts Hside Hout.
  assert (HS : 0 < S) by (unfold S; lia).
  assert (HS' : S < 2 ^ 1075) by (by apply fits_float, HfitS).
  pose proof (ceil_covers (Z.of_nat (length content)) S ltac:(lia) HS)
    as [Hn0 [Hn1 Hn2]]. fold n in Hn0, Hn1, Hn2.
  assert (HT : 0 < Z.of_nat (length content)) by nia.
  destruct (split_file_run input mb d content n w Hin Hne Hc Hparts Hside)
    as (f1 & rs & Hadd & Hdir & Hrs & Hrun).
  { intros w'. change (Z.shiftl 1 20) with (2 ^ 20). by apply ceil_div_exact. }
  { done. }
  { right. change (Z.shiftl 1 20) with (2 ^ 20). split; [lia|done]. }
  change (Z.shiftl 1 20) with (2 ^ 20) in *. fold nm S in Hrun.
  set (parts := map (part_path d nm) (range n)) in *.
  set (bufs := slices S content 0 (length (range n))) in *.
  set (sd := encode (Sha256.hexdigest content)) in *.
  set (f' := <[sidecar_path d nm := File sd]> (write_parts f1 (zip parts bufs))) in *.
  assert (Hblen : length bufs = Z.to_nat n).
  { unfold bufs. by rewrite slices_length, length_range. }
  set (chunks := map (part_path d nm) (range 1000)).
  set (datas := take 1000 bufs).
  assert (Hdisc : discovered f' d nm = chunks).
  { unfold f', parts, chunks.
    rewrite (discovered_after_split_capped (files w)) by (done || lia).
    by rewrite Z.min_r by lia. }
  assert (Hcat : concat datas = take (Z.to_nat (1000 * S)) content).
  { unfold datas, bufs. rewrite slices_formula by done. simpl.
    rewrite length_range. change (take 1000 (map ?f ?l)) with (take 1000 (f <$> l)).
    rewrite <- fmap_take, take_seq, Nat.min_l by lia.
    rewrite concat_slices. f_equal. lia. }
  set (out := d ++ [nm]).
  assert (Hjoin : joinpath d nm = out) by (by apply joinpath_nonempty).
  assert (Hos : out ≠ sidecar_path d nm).
  { unfold out. rewrite sidecar_path_eq. intros [_ E]%app_inj_tail.
    apply (f_equal list_ascii_of_string) in E. rewrite list_ascii_app in E.
    apply (f_equal length) in E. rewrite length_app in E. simpl in E. lia. }
  assert (Hop : out ∉ chunks).
  { unfold out, chunks. intros (i & E & _)%list_elem_of_fmap.
    rewrite part_path_eq in E. apply app_inj_tail in E as [_ E].
    symmetry in E. by apply part_name_ne in E. }
  assert (Hd' : is_dir f' d = true).
  { unfold is_dir, f' in *. destruct d as [|a d']; [done|]. cbn [lookup_node] in *.
    rewrite lookup_insert_ne
      by (rewrite sidecar_path_eq; intros E; apply (f_equal length) in E;
          rewrite length_app in E; simpl in E; lia).
    rewrite write_parts_notin; [done|].
    intros (i & E & _)%fst_zip_subseteq%list_elem_of_fmap.
    symmetry in E. by apply part_path_ne_dir in E. }
  pose proof (merge_files_at out None
                (World f' (stdout w ++ chunk_msgs parts bufs)
                       (reads w ++ map length bufs ++ rs) (memory w)) datas d nm chunks out
                ltac:(apply parent_app) ltac:(apply name_app) Hdisc
                ltac:(unfold out; cbn [resolve_output];
                      by rewrite parent_app, name_app)
                (literal_accepted nm Hlit)) as Hmerge.
  cbn [files stdout reads] in Hmerge. rewrite Hcat in Hmerge.
  assert (Hsc : <[out := File (take (Z.to_nat (1000 * S)) content)]> f'
                  !! sidecar_path d nm = Some (File sd)).
  { rewrite lookup_insert_ne by done. unfold f'. by rewrite lookup_insert_eq. }
  rewrite Hsc in Hmerge.
  destruct (lower_hex_text (Sha256.hexdigest content)) as [Hdec _];
    [apply hexdigest_lower|].
  destruct (Hmerge Hd') with (text := Sha256.hexdigest content)
    as (rs' & _ & Hmrun); clear Hmerge.
  - done.
  - apply Forall2_same_length_lookup_2.
    { unfold chunks, datas. rewrite length_map, length_range, length_take. lia. }
    intros i p b Hp Hb. unfold chunks, range in Hp.
    rewrite !list_lookup_fmap in Hp.
    destruct (seq 0 (Z.to_nat 1000) !! i) as [j|] eqn:Hj; [|done].
    apply lookup_seq in Hj as [-> _]. injection Hp as <-. unfold f'.
    rewrite lookup_insert_ne
      by (by intros E; symmetry in E; apply part_path_ne_sidecar in E).
    apply parts_lookup; [done|].
    unfold datas in Hb. by apply lookup_take_Some in Hb as [? _].
  - apply Forall_forall. intros b Hb. unfold datas in Hb.
    apply (subseteq_take 1000 bufs) in Hb. unfold bufs in Hb.
    apply (fits_le _ S); [|done].
    pose proof (slices_bounded S content (length (range n)) ltac:(lia) 0%nat) as Hall.
    by apply (proj1 (Forall_forall _ _) Hall).
  - done.
  - unfold out, f'. rewrite lookup_node_app.
    rewrite lookup_insert_ne by (by fold out).
    apply write_parts_not_dir.
    rewrite (dirs_added_outside _ _ _ _ Hadd); [done|].
    intros Hpre%prefix_length. rewrite length_app in Hpre. simpl in Hpre. lia.
  - unfold out. by rewrite parent_app.
  - exact Hdec.
  - by apply fits_digest.
  - done.
  - eexists _, _. rewrite Hjoin. split_and!; [exact Hrun|exact Hmrun| |nia].
    cbn [files]. by rewrite lookup_insert_eq.
Qed.

(** * The claims *)

(** ** C1: the round trip *)

(** C1, as the program has it.  For a non-empty file of less than [2^53]
    bytes whose name holds no wildcard of [glob], a chunk size that a
    read can be asked for and that gives at most 1000 chunks, and an
    output directory that holds no other chunk of that name, the split
    followed by the merge on the prefix returns the prefix as output path,
    and the output holds the bytes of the input; the checksum is reported
    as verified. *)
Theorem round_trip (input : path) (mb : Z) (d : path) (content : bytes) (w : world) :
  let nm := name input in
  let n := - ((- Z.of_nat (length content)) / (mb * 2 ^ 20)) in
  files w !! input = Some (File content) -> input ≠ [] -> nm ≠ EmptyString ->
  content ≠ [] -> Z.of_nat (length content) < 2 ^ 53 ->
  0 < mb -> fits w default_buf_size -> fits w (mb * 2 ^ 20) -> n <= 1000 ->
  literal nm ->
  creatable (files w) d ->
  (forall i, 0 <= i < n -> files w !! part_path d nm i ≠ Some Dir) ->
  (forall i, n <= i < 1000 -> files w !! part_path d nm i = None) ->
  files w !! sidecar_path d nm ≠ Some Dir ->
  files w !! (d ++ [nm]) ≠ Some Dir ->
  exists w1 parts w2,
    split_file input mb d w = (w1, Ok parts)
    ∧ merge_files (joinpath d nm) None w1 = (w2, Ok (joinpath d nm))
    ∧ files w2 !! joinpath d nm = Some (File content)
    ∧ last (stdout w2) = Some MsgHashOk.
Proof.
  intros nm n Hin Hne Hnm Hcont Hsize Hmb Hfit1 HfitS Hn Hlit Hc Hparts Hfresh Hside Hout.
  assert (HT : 0 < Z.of_nat (length content)) by (destruct content; [done|simpl; lia]).
  assert (HS : 0 < mb * 2 ^ 20) by lia.
  assert (HS' : mb * 2 ^ 20 < 2 ^ 1075) by (by apply fits_float, HfitS).
  pose proof (ceil_covers (Z.of_nat (length content)) (mb * 2 ^ 20)
                ltac:(lia) HS) as [Hn0 [Hn1 Hn2]]. fold n in Hn0, Hn1, Hn2.
  assert (Hn_pos : 0 < n) by nia.
  change (Z.shiftl 1 20) with (2 ^ 20) in *.
  destruct (split_file_run input mb d content n w Hin Hne Hc Hparts Hside)
    as (f1 & rs & Hadd & Hdir & Hrs & Hrun).
  { intros w'. change (Z.shiftl 1 20) with (2 ^ 20). by apply ceil_div_exact. }
  { done. }
  { right. change (Z.shiftl 1 20) with (2 ^ 20). split; [lia|done]. }
  change (Z.shiftl 1 20) with (2 ^ 20) in *. fold nm in Hrun.
  set (parts := map (part_path d nm) (range n)) in *.
  set (bufs := slices (mb * 2 ^ 20) content 0 (length (range n))) in *.
  set (sd := encode (Sha256.hexdigest content)) in *.
  set (f' := <[sidecar_path d nm := File sd]> (write_parts f1 (zip parts bufs))) in *.
  assert (Hblen : length bufs = Z.to_nat n).
  { unfold bufs. by rewrite slices_length, length_range. }
  assert (Hcat : concat bufs = content).
  { unfold bufs. rewrite length_range. apply slices_concat; [done|]. nia. }
  assert (Hdisc : discovered f' d nm = parts).
  { unfold f', parts. apply (discovered_after_split (files w)); try done; lia. }
  set (out := d ++ [nm]).
  assert (Hjoin : joinpath d nm = out) by (by apply joinpath_nonempty).
  assert (Hos : out ≠ sidecar_path d nm).
  { unfold out. rewrite sidecar_path_eq. intros [_ E]%app_inj_tail.
    apply (f_equal list_ascii_of_string) in E. rewrite list_ascii_app in E.
    apply (f_equal length) in E. rewrite length_app in E. simpl in E. lia. }
  assert (Hop : out ∉ parts).
  { unfold out, parts. intros (i & E & _)%list_elem_of_fmap.
    rewrite part_path_eq in E. apply app_inj_tail in E as [_ E].
    symmetry in E. by apply part_name_ne in E. }
  assert (Hd' : is_dir f' d = true).
  { unfold is_dir, f' in *. destruct d as [|a d']; [done|]. cbn [lookup_node] in *.
    rewrite lookup_insert_ne
      by (rewrite sidecar_path_eq; intros E; apply (f_equal length) in E;
          rewrite length_app in E; simpl in E; lia).
    rewrite write_parts_notin; [done|].
    intros (i & E & _)%fst_zip_subseteq%list_elem_of_fmap.
    symmetry in E. by apply part_path_ne_dir in E. }
  pose proof (merge_files_at out None
                (World f' (stdout w ++ chunk_msgs parts bufs)
                       (reads w ++ map length bufs ++ rs) (memory w)) bufs d nm parts out
                ltac:(apply parent_app) ltac:(apply name_app) Hdisc
                ltac:(unfold out; cbn [resolve_output];
                      by rewrite parent_app, name_app)
                (literal_accepted nm Hlit)) as Hmerge.
  cbn [files stdout reads] in Hmerge. rewrite Hcat in Hmerge.
  assert (Hsc : <[out := File content]> f' !! sidecar_path d nm = Some (File sd)).
  { rewrite lookup_insert_ne by done. unfold f'. by rewrite lookup_insert_eq. }
  rewrite Hsc in Hmerge.
  destruct (lower_hex_text (Sha256.hexdigest content)) as [Hdec Hstrip];
    [apply hexdigest_lower|].
  destruct (Hmerge Hd') with (text := Sha256.hexdigest content)
    as (rs' & _ & Hmrun); clear Hmerge.
  - unfold parts. destruct (range n) eqn:E; [|done].
    apply (f_equal length) in E. rewrite length_range in E. simpl in E. lia.
  - apply Forall2_same_length_lookup_2.
    { unfold parts. rewrite length_map, length_range. lia. }
    intros i p b Hp Hb. unfold parts, range in Hp.
    rewrite !list_lookup_fmap in Hp.
    destruct (seq 0 (Z.to_nat n) !! i) as [j|] eqn:Hj; [|done].
    apply lookup_seq in Hj as [-> _]. injection Hp as <-. unfold f'.
    rewrite lookup_insert_ne
      by (by intros E; symmetry in E; apply part_path_ne_sidecar in E).
    by apply parts_lookup.
  - apply Forall_forall. intros b Hb. unfold bufs in Hb.
    apply (fits_le _ (mb * 2 ^ 20)); [|done].
    pose proof (slices_bounded (mb * 2 ^ 20) content (length (range n))
                  ltac:(lia) 0%nat) as Hall.
    by apply (proj1 (Forall_forall _ _) Hall).
  - done.
  - unfold out, f'. rewrite lookup_node_app.
    rewrite lookup_insert_ne by (by fold out).
    apply write_parts_not_dir.
    rewrite (dirs_added_outside _ _ _ _ Hadd); [done|].
    intros Hpre%prefix_length. rewrite length_app in Hpre. simpl in Hpre. lia.
  - unfold out. by rewrite parent_app.
  - exact Hdec.
  - by apply fits_digest.
  - done.
  - eexists _, parts, _. rewrite Hjoin. split_and!; [exact Hrun|exact Hmrun| |].
    + cbn [files]. by rewrite lookup_insert_eq.
    + cbn [stdout]. rewrite !app_assoc, last_snoc. unfold verdict.
      rewrite Hstrip, String.eqb_refl. done.
Qed.

Lemma round_trip_witness :
  exists w1 parts w2,
    split_file ["in"; "f.bin"] 1 ["out"; "parts"] w_small = (w1, Ok parts)
    ∧ merge_files ["out"; "parts"; "f.bin"] None w1 = (w2, Ok ["out"; "parts"; "f.bin"])
    ∧ files w2 !! ["out"; "parts"; "f.bin"] = Some (File (bytes_of_string "abc"))
    ∧ last (stdout w2) = Some MsgHashOk.
Proof.
  apply (round_trip ["in"; "f.bin"] 1 ["out"; "parts"] (bytes_of_string "abc") w_small).
  - reflexivity.
  - discriminate.
  - discriminate.
  - discriminate.
  - by vm_compute.
  - lia.
  - split; by vm_compute.
  - split; by vm_compute.
  - by vm_compute.
  - by vm_compute.
  - intros p data [k E]. destruct p as [|a p]; [by vm_compute|].
    injection E as <- _. unfold w_small, files.
    rewrite lookup_insert_ne, lookup_singleton_ne by (by intros [=]). done.
  - intros i _. unfold w_small, files. rewrite part_path_eq.
    rewrite lookup_insert_ne, lookup_singleton_ne by (by intros [=]). done.
  - intros i _. unfold w_small, files. rewrite part_path_eq.
    rewrite lookup_insert_ne, lookup_singleton_ne by (by intros [=]). done.
  - by vm_compute.
  - by vm_compute.
Defined.

(** C1 as the specification states it fails on the empty file: the split
    succeeds with no chunk, the merge on the prefix raises, and no output
    file exists afterwards. *)
Lemma round_trip_fails_on_empty_file :
  let r := split_file ["in"; "empty.bin"] 4 ["out"] w_empty in
  let r' := merge_files ["out"; "empty.bin"] None r.1 in
  files w_empty !! ["in"; "empty.bin"] = Some (File [])
  ∧ r.2 = Ok []
  ∧ r'.2 = Raise FileNotFoundError
  ∧ files r'.1 !! ["out"; "empty.bin"] = None.
Proof. vm_compute. done. Qed.
(** ** C2: the number and the sizes of the chunks *)

(** C2 holds where the float quotient of [math.ceil(total_size /
    chunk_size)] is exact ([split_chunks_exact]: files below [2^53]
    bytes).  Beyond, the quotient is rounded before the ceiling is taken.
    Here a file of one byte is split with a chunk size of [2^1055] MiB:
    the quotient [2^-1075] rounds to [0.0], so no chunk is written, where
    the ceiling of the exact quotient is one chunk holding the byte.  In
    the same way a file of [2^53 + 1] bytes in chunks of 1 MiB is counted
    as [2^33] chunks, one less than the ceiling: its last byte is in no
    chunk. *)
Theorem split_rounds_chunk_count_to_zero :
  let r := split_file ["in"; "one.bin"] (2 ^ 1055) ["out"] w_one in
  files w_one !! ["in"; "one.bin"] = Some (File (bytes_of_string "x"))
  ∧ r.2 = Ok []
  ∧ files r.1 !! part_path ["out"] "one.bin" 0 = None
  ∧ - ((- 1) / (2 ^ 1055 * 2 ^ 20)) = 1
  ∧ (forall w, ceil_div (2 ^ 53 + 1) (1 * Z.shiftl 1 20) w = (w, Ok (2 ^ 33)))
  ∧ - ((- (2 ^ 53 + 1)) / (1 * 2 ^ 20)) = 2 ^ 33 + 1.
Proof. vm_compute. done. Qed.
(** ** C3: how the digests are compared *)

(** C3 as the specification states it fails: with the correct digest in
    uppercase in the sidecar, the merge reports a mismatch. *)
Lemma uppercase_digest_is_a_mismatch :
  let r := merge_files ["parts"; "f.bin"] None w_upper in
  files w_upper !! ["parts"; "f.bin.sha256"]
  = Some (File (encode (upper (Sha256.hexdigest (bytes_of_string "abc")))))
  ∧ r.2 = Ok ["parts"; "f.bin"]
  ∧ files r.1 !! ["parts"; "f.bin"] = Some (File (bytes_of_string "abc"))
  ∧ last (stdout r.1) = Some MsgHashMismatch.
Proof. vm_compute. done. Qed.

(** C3, as the program has it.  When the sidecar is a text file, the
    merge compares the digest of the output it wrote with the text of the
    sidecar trimmed of surrounding whitespace, by equality of strings:
    it reports success when they are equal, letter case included, and a
    mismatch when they differ. *)
Theorem merge_compares_trimmed_digest (prefix : path) (output : option path)
    (w : world) (datas : list bytes) (sdata : bytes) (text : string) :
  let d := parent prefix in
  let n := name prefix in
  let chunks := discovered (files w) d n in
  let out := resolve_output prefix output in
  accepted n -> is_dir (files w) d = true -> chunks ≠ [] ->
  Forall2 (fun p data => files w !! p = Some (File data)) chunks datas ->
  Forall (fun data => fits w (Z.of_nat (length data))) datas ->
  out ∉ chunks ->
  lookup_node (files w) out ≠ Some Dir -> is_dir (files w) (parent out) = true ->
  out ≠ sidecar_path d n ->
  files w !! sidecar_path d n = Some (File sdata) -> decode sdata = Some text ->
  fits w (Z.of_nat (length sdata)) -> fits w default_buf_size ->
  exists w',
    merge_files prefix output w = (w', Ok out)
    ∧ files w' !! out = Some (File (concat datas))
    ∧ (stored_hash text = Sha256.hexdigest (concat datas) ->
       last (stdout w') = Some MsgHashOk)
    ∧ (stored_hash text ≠ Sha256.hexdigest (concat datas) ->
       last (stdout w') = Some MsgHashMismatch).
Proof.
  intros d n chunks out Hacc Hd Hne Hall Hfits Hout Hof Hod Hos Hs Hdec Hfs Hfb.
  destruct (merge_files_with_sidecar prefix output w datas Hacc Hd Hne Hall Hfits Hout
              Hof Hod Hos sdata text Hs Hdec Hfs Hfb) as (rs & _ & Hrun).
  eexists. split; [exact Hrun|]. cbn [files stdout].
  split; [by rewrite lookup_insert_eq|].
  rewrite !app_assoc, last_snoc.
  split; intros H; f_equal; first [by apply verdict_ok | by apply verdict_mismatch].
Qed.

Lemma merge_compares_trimmed_digest_witness :
  exists w',
    merge_files ["parts"; "f.bin"] None w_padded = (w', Ok ["parts"; "f.bin"])
    ∧ last (stdout w') = Some MsgHashOk.
Proof.
  destruct (merge_compares_trimmed_digest ["parts"; "f.bin"] None w_padded
              [bytes_of_string "abc"]
              (encode (" " +:+ abc_digest +:+ String LF EmptyString))
              (" " +:+ abc_digest +:+ String LF EmptyString))
    as (w' & Hrun & _ & Hok & _).
  - by vm_compute.
  - by vm_compute.
  - by vm_compute.
  - vm_compute. repeat constructor.
  - constructor; [split; by vm_compute|constructor].
  - vm_compute. intros H. inversion H as [|? ? ? H']; inversion H'.
  - by vm_compute.
  - by vm_compute.
  - by vm_compute.
  - by vm_compute.
  - by vm_compute.
  - split; by vm_compute.
  - split; by vm_compute.
  - exists w'. split; [exact Hrun|]. apply Hok. by vm_compute.
Defined.
(** ** C4: a merge that finds nothing writes nothing *)

(** Where [glob] accepts the pattern (a name without [**],
    [literal_accepted]), the claim holds: when the parent directory of the
    prefix is not a directory, or it is one but no entry of it matches the
    discovery pattern, [merge_files] raises [FileNotFoundError] and leaves
    the world as it was: no file is created or truncated and nothing is
    printed. *)
Theorem merge_not_found_no_writes (prefix : path) (output : option path) (w : world) :
  is_dir (files w) (parent prefix) = false
  ∨ accepted (name prefix)
    ∧ glob_from (listdir (files w) (parent prefix)) (chunk_pattern (name prefix)) = [] ->
  merge_files prefix output w = (w, Raise FileNotFoundError).
Proof.
  intros H. unfold merge_files.
  erewrite bind_run by reflexivity. cbn beta.
  destruct (is_dir (files w) (parent prefix)) eqn:Hd; [|done].
  destruct H as [H|[Hacc H]]; [done|]. cbn [negb].
  fold (chunk_pattern (name prefix)).
  erewrite bind_run by (by apply glob_run). cbn beta. by rewrite Hd, H.
Qed.

Lemma merge_not_found_no_writes_witness :
  merge_files ["parts"; "movie.mkv"] None w_no_chunks
  = (w_no_chunks, Raise FileNotFoundError)
  ∧ merge_files ["absent"; "movie.mkv"] None w_no_chunks
    = (w_no_chunks, Raise FileNotFoundError).
Proof.
  split.
  - apply merge_not_found_no_writes. right. split; vm_compute; reflexivity.
  - apply merge_not_found_no_writes. left. vm_compute. reflexivity.
Defined.

(** C4 holds where [glob] accepts the pattern
    ([merge_not_found_no_writes]).  The name of the prefix is pasted into
    the pattern as it is: for the prefix [a**b], in a directory that
    exists and where nothing matches, [glob] refuses the pattern and
    [merge_files] raises [ValueError], not a not-found error; nothing is
    written. *)
Theorem merge_on_double_star_prefix :
  is_dir (files w_no_chunks) ["parts"] = true
  ∧ glob_from (listdir (files w_no_chunks) ["parts"]) (chunk_pattern "a**b") = []
  ∧ merge_files ["parts"; "a**b"] None w_no_chunks = (w_no_chunks, Raise ValueError).
Proof. vm_compute. done. Qed.
(** ** C5: the digest sidecar *)

(** C5.  A split that runs through (each read it asks for is of a size
    that can be allocated) writes, after the chunk files, the
    file [<input name>.sha256] in the output directory; its content is the
    SHA-256 of the bytes of the input file itself, as 64 lowercase
    hexadecimal digits and nothing else. *)
Theorem split_writes_sidecar (input : path) (mb : Z) (d : path)
    (content : bytes) (w : world) :
  files w !! input = Some (File content) -> input ≠ [] ->
  0 < mb -> Z.of_nat (length content) < 2 ^ 1023 ->
  fits w default_buf_size -> (content ≠ [] -> fits w (mb * 2 ^ 20)) ->
  creatable (files w) d ->
  (forall idx, files w !! part_path d (name input) idx ≠ Some Dir) ->
  files w !! sidecar_path d (name input) ≠ Some Dir ->
  let digest := Sha256.hexdigest content in
  exists f_chunks out rd parts,
    split_file input mb d w =
      (World (<[sidecar_path d (name input) := File (encode digest)]> f_chunks) out rd (memory w),
       Ok parts)
    ∧ sidecar_path d (name input) = d ++ [name input +:+ ".sha256"]
    ∧ (forall p, p ∈ parts -> exists data, f_chunks !! p = Some (File data))
    ∧ f_chunks !! input = Some (File content)
    ∧ length (list_ascii_of_string digest) = 64%nat
    ∧ Forall (fun c => is_lower_hex c = true) (list_ascii_of_string digest).
Proof.
  intros Hin Hne Hmb Hlen Hfit1 HfitS Hc Hparts Hside digest.
  destruct (split_count content mb w Hmb Hlen HfitS) as (n & Hn & HfS).
  destruct (split_file_run input mb d content n w Hin Hne Hc
              ltac:(intros; apply Hparts) Hside Hn Hfit1 HfS)
    as (f1 & rs & Hadd & Hdir & Hrs & Hrun).
  set (parts := map (part_path d (name input)) (range n)) in *.
  set (bufs := slices (mb * Z.shiftl 1 20) content 0 (length (range n))) in *.
  exists (write_parts f1 (zip parts bufs)). do 2 eexists. exists parts.
  split_and!; [exact Hrun|apply sidecar_path_eq| | |apply hexdigest_lower..].
  - intros p Hp. apply list_elem_of_lookup in Hp as [i Hi].
    destruct (lookup_lt_is_Some_2 bufs i) as [b Hb].
    { unfold bufs. rewrite slices_length. unfold parts in Hi.
      apply lookup_lt_Some in Hi. by rewrite length_map in Hi. }
    exists b. apply (write_parts_lookup _ _ i).
    + rewrite fst_zip; [apply NoDup_parts|].
      unfold parts, bufs. by rewrite length_map, slices_length.
    + by apply lookup_zip_Some.
  - rewrite write_parts_notin; [by apply (dirs_added_file d (files w))|].
    intros Hel%fst_zip_subseteq. unfold parts in Hel.
    apply list_elem_of_fmap in Hel as (idx & E & _).
    symmetry in E. by apply part_path_ne_input in E.
Qed.

Lemma split_writes_sidecar_witness :
  exists f_chunks out rd parts,
    split_file ["in"; "f.bin"] 1 ["out"; "parts"] w_small =
      (World (<[ ["out"; "parts"; "f.bin.sha256"] :=
                   File (encode "ba7816bf8f01cfea414140de5dae2223b00361a396177a9cb410ff61f20015ad") ]>
                f_chunks) out rd (memory w_small),
       Ok parts).
Proof.
  destruct (split_writes_sidecar ["in"; "f.bin"] 1 ["out"; "parts"]
              (bytes_of_string "abc") w_small)
    as (f & out & rd & parts & Hrun & _).
  - reflexivity.
  - discriminate.
  - lia.
  - by vm_compute.
  - split; by vm_compute.
  - intros _. split; by vm_compute.
  - intros p data [k E]. destruct p as [|a p]; [by vm_compute|].
    injection E as <- _. unfold w_small, files.
    rewrite lookup_insert_ne, lookup_singleton_ne by (by intros [=]). done.
  - intros idx. unfold w_small, files.
    rewrite part_path_eq.
    rewrite lookup_insert_ne, lookup_singleton_ne by (by intros [=]). done.
  - by vm_compute.
  - exists f, out, rd, parts. exact Hrun.
Defined.

(** ** C6: discovery does not depend on the order of the listing *)

(** Let a directory listing hold, in any order, the chunk files [n.ddd]
    of a set of indices below 1000.  The chunks that [merge_files] passes
    to its loop, [sorted] of the [glob] of the listing, are the same for
    every order of the listing, and they come in strictly ascending order
    of the indices: on names of fixed width the order of the paths is the
    order of the numbers.  When the prefix has no wildcard of [glob],
    every chunk of the set is among them. *)
Theorem discovery_order_independent (d : path) (n : string) (idxs : list Z)
    (l l' : list path) :
  NoDup idxs -> Forall (fun i => 0 <= i < 1000) idxs ->
  l ≡ₚ map (part_path d n) idxs -> l' ≡ₚ l ->
  sorted (glob_from l (chunk_pattern n)) = sorted (glob_from l' (chunk_pattern n))
  ∧ sorted (glob_from l (chunk_pattern n))
    = map (part_path d n) (matched_indices n idxs)
  ∧ StronglySorted Z.lt (matched_indices n idxs)
  ∧ (forall i j, 0 <= i < 1000 -> 0 <= j < 1000 ->
       (path_compare (part_path d n i) (part_path d n j) = Lt <-> i < j))
  ∧ (literal n -> matched_indices n idxs ≡ₚ idxs).
Proof.
  intros Hnd Hall Hl Hl'. split_and!.
  - rewrite (discovery_sorted d n idxs l), (discovery_sorted d n idxs l');
      [done..|by rewrite Hl'|done|done|done].
  - by apply discovery_sorted.
  - by apply matched_indices_spec.
  - intros i j Hi Hj. rewrite part_path_compare by done. apply Z.compare_lt_iff.
  - intros Hlit. by apply matched_indices_literal.
Qed.

Lemma discovery_order_independent_witness :
  sorted (glob_from [["p"; "f.002"]; ["p"; "f.010"]; ["p"; "f.001"]]
                    (chunk_pattern "f"))
  = [["p"; "f.001"]; ["p"; "f.002"]; ["p"; "f.010"]]
  ∧ sorted (glob_from [["p"; "f.010"]; ["p"; "f.001"]; ["p"; "f.002"]]
                      (chunk_pattern "f"))
    = [["p"; "f.001"]; ["p"; "f.002"]; ["p"; "f.010"]].
Proof.
  destruct (discovery_order_independent ["p"] "f" [2; 10; 1]
              [["p"; "f.002"]; ["p"; "f.010"]; ["p"; "f.001"]]
              [["p"; "f.010"]; ["p"; "f.001"]; ["p"; "f.002"]])
    as (Hsame & Heq & _).
  - apply (bool_decide_unpack _). by vm_compute.
  - repeat constructor; lia.
  - by vm_compute.
  - symmetry.
    apply (Permutation_cons_append [["p"; "f.010"]; ["p"; "f.001"]] ["p"; "f.002"]).
  - split; [exact Heq|]. rewrite <- Hsame. exact Heq.
Defined.

(** C6 holds for a prefix without wildcards of [glob]
    ([merge_concatenates_in_index_order]: whatever the order of the
    listing, [merge_files] writes the bytes of the chunks in ascending
    order of their indices).  The name of the prefix is pasted into the
    pattern as it is: the chunks [a[1].bin.000] and [a[1].bin.001] of the
    prefix [a[1].bin] are not matched by the pattern of that prefix, so
    [merge_files] concatenates nothing and raises [FileNotFoundError]. *)
Theorem wildcard_prefix_chunks_are_not_merged :
  let r := merge_files ["parts"; "a[1].bin"] None w_bracket_chunks in
  files w_bracket_chunks !! part_path ["parts"] "a[1].bin" 0
  = Some (File (bytes_of_string "abc"))
  ∧ files w_bracket_chunks !! part_path ["parts"] "a[1].bin" 1
    = Some (File (bytes_of_string "def"))
  ∧ discovered (files w_bracket_chunks) ["parts"] "a[1].bin" = []
  ∧ r = (w_bracket_chunks, Raise FileNotFoundError).
Proof. vm_compute. done. Qed.
(** ** C7: a checksum mismatch is not a failure *)

(** C7 as the specification states it fails: a sidecar that is present
    and is not text differs from every digest, yet the merge does not
    report a mismatch and return.  Reading it raises
    [UnicodeDecodeError], after the output was written. *)
Lemma undecodable_sidecar_is_a_failure :
  let r := merge_files ["parts"; "f.bin"] None w_binary_sidecar in
  files w_binary_sidecar !! ["parts"; "f.bin.sha256"] = Some (File [Byte.xff])
  ∧ r.2 = Raise UnicodeDecodeError
  ∧ files r.1 !! ["parts"; "f.bin"] = Some (File (bytes_of_string "abc"))
  ∧ MsgHashMismatch ∉ stdout r.1.
Proof.
  vm_compute. split_and!; try done.
  intros H. inversion H as [|? ? ? H']; inversion H'.
Qed.

(** C7, as the program has it.  A merge that found its chunks returns the
    output path whatever the verification says.  With a sidecar of ASCII
    text whose trimmed text differs from the digest of the output, it
    prints the mismatch warning, does not raise, and leaves the output
    file as it wrote it and every other file as it was.  With no sidecar
    it prints the lines of the chunks and no verification result. *)
Theorem merge_mismatch_is_not_failure (prefix : path) (output : option path)
    (w : world) (datas : list bytes) :
  let d := parent prefix in
  let n := name prefix in
  let chunks := discovered (files w) d n in
  let out := resolve_output prefix output in
  accepted n -> is_dir (files w) d = true -> chunks ≠ [] ->
  Forall2 (fun p data => files w !! p = Some (File data)) chunks datas ->
  Forall (fun data => fits w (Z.of_nat (length data))) datas ->
  out ∉ chunks ->
  lookup_node (files w) out ≠ Some Dir -> is_dir (files w) (parent out) = true ->
  out ≠ sidecar_path d n ->
  (forall sdata text,
     files w !! sidecar_path d n = Some (File sdata) -> decode sdata = Some text ->
     fits w (Z.of_nat (length sdata)) -> fits w default_buf_size ->
     stored_hash text ≠ Sha256.hexdigest (concat datas) ->
     exists w',
       merge_files prefix output w = (w', Ok out)
       ∧ last (stdout w') = Some MsgHashMismatch
       ∧ files w' !! out = Some (File (concat datas))
       ∧ (forall p, p ≠ out -> files w' !! p = files w !! p))
  ∧ (files w !! sidecar_path d n = None ->
     exists w',
       merge_files prefix output w = (w', Ok out)
       ∧ stdout w' = stdout w ++ merge_msgs out chunks
       ∧ (MsgHashOk ∉ merge_msgs out chunks)
       ∧ (MsgHashMismatch ∉ merge_msgs out chunks)
       ∧ files w' !! out = Some (File (concat datas))
       ∧ (forall p, p ≠ out -> files w' !! p = files w !! p)).
Proof.
  intros d n chunks out Hacc Hd Hne Hall Hfits Hout Hof Hod Hos. split.
  - intros sdata text Hs Hdec Hfs Hfb Hdiff.
    destruct (merge_files_with_sidecar prefix output w datas Hacc Hd Hne Hall Hfits Hout
                Hof Hod Hos sdata text Hs Hdec Hfs Hfb) as (rs & _ & Hrun).
    eexists. split; [exact Hrun|]. cbn [files stdout]. split_and!.
    + rewrite !app_assoc, last_snoc. f_equal. by apply verdict_mismatch.
    + by rewrite lookup_insert_eq.
    + intros p Hp. by rewrite lookup_insert_ne.
  - intros Hs.
    rewrite (merge_files_without_sidecar prefix output w datas Hacc Hd Hne Hall Hfits Hout
               Hof Hod Hos Hs).
    eexists. split; [reflexivity|]. cbn [files stdout]. split_and!; try done.
    + unfold merge_msgs. by intros (p & ? & _)%list_elem_of_fmap.
    + unfold merge_msgs. by intros (p & ? & _)%list_elem_of_fmap.
    + by rewrite lookup_insert_eq.
    + intros p Hp. by rewrite lookup_insert_ne.
Qed.

Lemma merge_mismatch_is_not_failure_witness :
  (exists w',
     merge_files ["parts"; "f.bin"] None w_wrong = (w', Ok ["parts"; "f.bin"])
     ∧ last (stdout w') = Some MsgHashMismatch
     ∧ files w' !! ["parts"; "f.bin"] = Some (File (bytes_of_string "abc")))
  ∧ (exists w',
       merge_files ["parts"; "f.bin"] None w_bare = (w', Ok ["parts"; "f.bin"])
       ∧ stdout w' = [MsgMerge ["parts"; "f.bin.000"] ["parts"; "f.bin"]]).
Proof.
  split.
  - destruct (merge_mismatch_is_not_failure ["parts"; "f.bin"] None w_wrong
                [bytes_of_string "abc"]) as [H _].
    + by vm_compute.
    + by vm_compute.
    + by vm_compute.
    + vm_compute. repeat constructor.
    + constructor; [split; by vm_compute|constructor].
    + vm_compute. intros H. inversion H as [|? ? ? H']; inversion H'.
    + by vm_compute.
    + by vm_compute.
    + by vm_compute.
    + destruct (H (encode "00") "00"%string) as (w' & Hrun & Hlast & Hfile & _).
      * by vm_compute.
      * by vm_compute.
      * split; by vm_compute.
      * split; by vm_compute.
      * by vm_compute.
      * exists w'. split_and!; [exact Hrun|exact Hlast|exact Hfile].
  - destruct (merge_mismatch_is_not_failure ["parts"; "f.bin"] None w_bare
                [bytes_of_string "abc"]) as [_ H].
    + by vm_compute.
    + by vm_compute.
    + by vm_compute.
    + vm_compute. repeat constructor.
    + constructor; [split; by vm_compute|constructor].
    + vm_compute. intros H. inversion H as [|? ? ? H']; inversion H'.
    + by vm_compute.
    + by vm_compute.
    + by vm_compute.
    + destruct H as (w' & Hrun & Hout & _).
      * by vm_compute.
      * exists w'. split; [exact Hrun|]. rewrite Hout. by vm_compute.
Defined.
(** ** C8: the sizes of the buffers *)



(** ** C9: the empty file *)

(** Splitting an empty file, with any positive chunk size, creates no
    chunk file and prints nothing, yet writes the sidecar with the digest
    of the empty content, and returns the empty list.  When the pattern of
    the prefix matches nothing in the directory, neither what it held
    before nor the sidecar (as is the case of every name without
    wildcards, [literal_accepted] and [fnmatch_sidecar]), a merge on the
    prefix then finds no chunk and raises [FileNotFoundError]: the empty
    file does not make the round trip. *)
Theorem split_empty_file (input : path) (mb : Z) (d : path) (w : world) :
  files w !! input = Some (File []) -> input ≠ [] -> name input ≠ EmptyString ->
  0 < mb -> fits w default_buf_size ->
  creatable (files w) d ->
  files w !! sidecar_path d (name input) ≠ Some Dir ->
  accepted (name input) ->
  glob_from (listdir (files w) d) (chunk_pattern (name input)) = [] ->
  Fnmatch.fnmatch (name input +:+ ".sha256") (chunk_pattern (name input)) = false ->
  exists f1 rd,
    dirs_added d (files w) f1 ∧
    let w1 := World (<[sidecar_path d (name input) := File (encode (Sha256.hexdigest []))]> f1)
                    (stdout w) rd (memory w) in
    split_file input mb d w = (w1, Ok [])
    ∧ merge_files (joinpath d (name input)) None w1 = (w1, Raise FileNotFoundError).
Proof.
  intros Hin Hne Hname Hmb Hfit1 Hc Hside Hacc Hfresh Hsm.
  destruct (split_file_run input mb d [] 0 w Hin Hne Hc ltac:(intros; lia) Hside)
    as (f1 & rs & Hadd & Hdir & Hrs & Hrun).
  { intros w'. apply ceil_div_zero. change (Z.shiftl 1 20) with 1048576. lia. }
  { done. }
  { by left. }
  change (range 0) with (@nil Z) in Hrun. cbn [map length slices zip] in Hrun.
  unfold write_parts, chunk_msgs in Hrun. cbn [foldl zip_with app] in Hrun.
  rewrite app_nil_r in Hrun.
  exists f1, (reads w ++ rs). split; [done|]. split; [done|].
  apply merge_files_not_found. right. cbn [files].
  rewrite joinpath_nonempty, parent_app, name_app by done.
  split; [done|].
  apply list_empty_no_elem. intros p Hp.
  apply elem_of_glob_from in Hp as [Hp Hm].
  apply elem_of_listdir in Hp as (Hpne & Hpar & Hsome).
  destruct (decide (p = sidecar_path d (name input))) as [->|Hps].
  - rewrite sidecar_path_eq, name_app in Hm. by rewrite Hsm in Hm.
  - rewrite lookup_insert_ne in Hsome by done.
    destruct (Hadd p) as [E|(_ & _ & Hpre)].
    + rewrite E in Hsome.
      assert (p ∈ glob_from (listdir (files w) d) (chunk_pattern (name input))).
      { apply elem_of_glob_from. split; [|done]. by apply elem_of_listdir. }
      rewrite Hfresh in H. by apply elem_of_nil in H.
    + apply prefix_length in Hpre. pose proof (parent_length p Hpne) as Hl.
      rewrite Hpar in Hl. lia.
Qed.

Lemma split_empty_file_witness :
  exists f1 rd,
    let w1 := World (<[ ["out"; "empty.bin.sha256"] :=
                          File (encode (Sha256.hexdigest [])) ]> f1) [] rd (memory w_empty) in
    split_file ["in"; "empty.bin"] 4 ["out"] w_empty = (w1, Ok [])
    ∧ merge_files ["out"; "empty.bin"] None w1 = (w1, Raise FileNotFoundError).
Proof.
  destruct (split_empty_file ["in"; "empty.bin"] 4 ["out"] w_empty)
    as (f1 & rd & _ & H).
  - reflexivity.
  - discriminate.
  - discriminate.
  - lia.
  - split; by vm_compute.
  - intros p data [k E]. destruct p as [|a p]; [by vm_compute|].
    injection E as <- _. unfold w_empty, files.
    rewrite lookup_insert_ne, lookup_singleton_ne by (by intros [=]). done.
  - by vm_compute.
  - by vm_compute.
  - by vm_compute.
  - by vm_compute.
  - exists f1, rd. exact H.
Defined.

(** C9 holds for a name without wildcards of [glob] ([split_empty_file]).
    The name of the prefix is pasted into the pattern as it is.  An empty
    file named [*[], split into a fresh directory, gives no chunk and the
    sidecar; the pattern of the prefix matches the sidecar, so the merge
    takes it for a chunk, writes its 64 characters to the output and
    returns, where the claim has it fail with a not-found error.  For an
    empty file named [a**b] the merge raises [ValueError]. *)
Theorem empty_file_with_wildcard_name :
  let s := split_file ["in"; "*["] 1 ["out"] w_wild_empty in
  let r := merge_files ["out"; "*["] None s.1 in
  let s' := split_file ["in"; "a**b"] 1 ["out"] w_wild_empty in
  files w_wild_empty !! ["in"; "*["] = Some (File [])
  ∧ files w_wild_empty !! ["out"] = None
  ∧ s.2 = Ok [] ∧ stdout s.1 = []
  ∧ files s.1 !! ["out"; "*[.sha256"] = Some (File (encode (Sha256.hexdigest [])))
  ∧ discovered (files s.1) ["out"] "*[" = [["out"; "*[.sha256"]]
  ∧ r.2 = Ok ["out"; "*["]
  ∧ files r.1 !! ["out"; "*["] = Some (File (encode (Sha256.hexdigest [])))
  ∧ s'.2 = Ok []
  ∧ (merge_files ["out"; "a**b"] None s'.1).2 = Raise ValueError.
Proof. vm_compute. done. Qed.
(** ** C10: what the discovery pattern matches *)

(** C10 holds for a prefix without wildcards of [glob]: the pattern
    matches the names [prefix.ddd] and nothing else
    ([fnmatch_literal_index]), so not the sidecar ([fnmatch_sidecar]);
    an index from 1000 on takes more than three digits
    ([format_index_long]) and is not matched ([fnmatch_large_index]), and
    the merge then concatenates the chunks 0 to 999 alone
    ([merge_beyond_cap]).
    The prefix is pasted into the pattern as it is, so a wildcard in it is
    read as one.  For the prefix [a[1].bin] the pattern matches
    [a1.bin.000], a file of another name, and not the chunk
    [a[1].bin.000]: the merge concatenates the other file, and after a
    split of [a[1].bin] into a fresh directory it finds no chunk.  For the
    prefix [*[] the pattern matches the sidecar, which is concatenated
    after the chunk.  For the prefix [a**b] the pattern is refused and the
    merge raises [ValueError]. *)
Theorem wildcard_prefix_discovery :
  let r := merge_files ["parts"; "a[1].bin"] None w_brackets in
  let s := split_file ["in"; "a[1].bin"] 1 ["out"] w_bracket_input in
  let r' := merge_files ["parts"; "*["] None w_star in
  discovered (files w_brackets) ["parts"] "a[1].bin" = [["parts"; "a1.bin.000"]]
  ∧ r.2 = Ok ["parts"; "a[1].bin"]
  ∧ files r.1 !! ["parts"; "a[1].bin"] = Some (File (bytes_of_string "other"))
  ∧ s.2 = Ok [["out"; "a[1].bin.000"]]
  ∧ (merge_files ["out"; "a[1].bin"] None s.1).2 = Raise FileNotFoundError
  ∧ discovered (files w_star) ["parts"] "*["
    = [["parts"; "*[.000"]; ["parts"; "*[.sha256"]]
  ∧ files r'.1 !! ["parts"; "*["]
    = Some (File (bytes_of_string "abc" ++ encode abc_digest))
  ∧ (merge_files ["parts"; "a**b"] None w_brackets).2 = Raise ValueError.
Proof. vm_compute. done. Qed.

(** * Lemmas for the further properties *)

(** ** Runs that keep a relation between the worlds *)

Section preserves.
Context (R : relation world) `{!PreOrder R}.

Lemma preserves_ret {A} (a : A) : preserves R (mret a).
Proof. intros w. reflexivity. Qed.

Lemma preserves_raise {A} (e : error) : preserves R (@raise A e).
Proof. intros w. reflexivity. Qed.

Lemma preserves_bind {A B} (m : M A) (k : A -> M B) :
  preserves R m -> (forall a, preserves R (k a)) -> preserves R (m ≫= k).
Proof.
  intros Hm Hk w. specialize (Hm w). unfold mbind, M_bind.
  destruct (m w) as [w' [a|e]]; [|done].
  simpl in Hm. etrans; [exact Hm|apply Hk].
Qed.

Lemma preserves_get_files : preserves R get_files.
Proof. intros w. reflexivity. Qed.

Lemma preserves_if {A} (b : bool) (m1 m2 : M A) :
  preserves R m1 -> preserves R m2 -> preserves R (if b then m1 else m2).
Proof. by destruct b. Qed.

(** What only reads keeps every relation that does not look at the trace
    of the reads. *)
Hypothesis R_reads :
  forall w rs, R w (World (files w) (stdout w) rs (memory w)).

Lemma preserves_log_read (n : nat) : preserves R (log_read n).
Proof. intros w. apply R_reads. Qed.

Lemma preserves_alloc (n : Z) : preserves R (alloc n).
Proof.
  intros w. unfold alloc.
  destruct (max_bytes <? n); [reflexivity|]. destruct (memory w <? n); reflexivity.
Qed.

Lemma preserves_open_rb (p : path) : preserves R (open_rb p).
Proof.
  unfold open_rb. apply preserves_bind; [apply preserves_get_files|].
  intros f. destruct (lookup_node f p) as [[?|]|];
    first [apply preserves_ret | apply preserves_raise].
Qed.

Lemma preserves_stat_size (p : path) : preserves R (stat_size p).
Proof.
  unfold stat_size. apply preserves_bind; [apply preserves_get_files|].
  intros f. destruct (lookup_node f p) as [[?|]|];
    first [apply preserves_ret | apply preserves_raise].
Qed.

Lemma preserves_read (p : path) (pos : nat) (n : Z) : preserves R (read p pos n).
Proof.
  unfold read. apply preserves_bind; [apply preserves_get_files|]. intros f.
  apply preserves_bind; [apply preserves_alloc|]. intros _.
  apply preserves_bind; [apply preserves_log_read|]. intros _.
  apply preserves_ret.
Qed.

Lemma preserves_iter_read (fuel : nat) (p : path) (buf_size : Z) :
  forall pos, preserves R (iter_read fuel p pos buf_size).
Proof.
  induction fuel as [|fuel IH]; intros pos; simpl; [apply preserves_ret|].
  apply preserves_bind; [apply preserves_read|]. intros [chunk pos'].
  destruct chunk; [apply preserves_ret|].
  apply preserves_bind; [apply IH|]. intros rest. apply preserves_ret.
Qed.

Lemma preserves_sha256sum (p : path) (buf_size : Z) :
  preserves R (sha256sum p buf_size).
Proof.
  unfold sha256sum. apply preserves_bind; [apply preserves_open_rb|]. intros _.
  apply preserves_bind; [apply preserves_get_files|]. intros f.
  apply preserves_bind; [apply preserves_iter_read|]. intros chunks.
  apply preserves_ret.
Qed.

Lemma preserves_read_text (p : path) : preserves R (read_text p).
Proof.
  unfold read_text. apply preserves_bind; [apply preserves_open_rb|]. intros _.
  apply preserves_bind; [apply preserves_read|]. intros [d pos].
  destruct (decode d); [apply preserves_ret|apply preserves_raise].
Qed.

Lemma preserves_glob (d : path) (pat : string) : preserves R (glob d pat).
Proof.
  unfold glob. destruct (has_double_star _); [apply preserves_raise|].
  apply preserves_bind; [apply preserves_get_files|]. intros f. apply preserves_ret.
Qed.

Lemma preserves_ceil_div (a b : Z) : preserves R (ceil_div a b).
Proof.
  unfold ceil_div. destruct (b =? 0); [apply preserves_raise|].
  destruct (a =? 0); [apply preserves_ret|].
  destruct (nearest_double _ _) as [m k].
  destruct (0 <=? k); [apply preserves_ret|].
  destruct (_ <=? _); [apply preserves_raise|apply preserves_ret].
Qed.

(** What prints as well keeps every relation on the stores alone. *)
Hypothesis R_stdout :
  forall w out rs, R w (World (files w) out rs (memory w)).

Lemma preserves_print (m : msg) : preserves R (print m).
Proof. intros w. apply R_stdout. Qed.

End preserves.

#[global] Instance reads_only_preorder : PreOrder reads_only.
Proof.
  split; [by intros w|].
  intros w1 w2 w3 (? & ? & ?) (? & ? & ?). unfold reads_only. split_and!; congruence.
Qed.

#[global] Instance writes_at_preorder (out : path) : PreOrder (writes_at out).
Proof.
  split; [by intros w p|].
  intros w1 w2 w3 H1 H2 p Hp. by rewrite H2, H1.
Qed.

#[global] Instance split_writes_preorder (d : path) (n : string) :
  PreOrder (split_writes d n).
Proof.
  split; [by intros w p; left|].
  intros w1 w2 w3 H1 H2 p.
  destruct (H1 p) as [E1|[(Hp & E1 & E1')|[Hi|Hs]]].
  - rewrite <- E1. apply H2.
  - destruct (H2 p) as [E2|[(_ & E2 & E2')|[Hi|Hs]]].
    + right; left. by rewrite E2.
    + congruence.
    + by right; right; left.
    + by right; right; right.
  - by right; right; left.
  - by right; right; right.
Qed.

(** Writing at a path keeps a relation that allows any change there. *)
Section preserves_writes.
Context (R : relation world) `{!PreOrder R} (q : path).
Hypothesis R_put :
  forall w node, R w (World (<[q := node]> (files w)) (stdout w) (reads w) (memory w)).

Lemma preserves_open_wb : preserves R (open_wb q).
Proof.
  intros w. unfold open_wb, mbind, M_bind, get_files. simpl.
  destruct (lookup_node (files w) q) as [[?|]|];
    destruct (lookup_node (files w) (parent q)) as [[?|]|];
    first [reflexivity | apply R_put].
Qed.

Lemma preserves_write (data : bytes) : preserves R (write q data).
Proof.
  intros w. unfold write, mbind, M_bind, get_files. simpl.
  destruct (files w !! q) as [[?|]|]; apply R_put.
Qed.

Lemma preserves_write_text (s : string) : preserves R (write_text q s).
Proof.
  unfold write_text. apply preserves_bind; [done|apply preserves_open_wb|].
  intros _. apply preserves_write.
Qed.
End preserves_writes.

Lemma writes_at_put (out : path) (w : world) (node : node) :
  writes_at out w (World (<[out := node]> (files w)) (stdout w) (reads w) (memory w)).
Proof. intros p Hp. simpl. by rewrite lookup_insert_ne. Qed.

Lemma writes_at_files (out : path) (w : world) (o : list msg) (rs : list nat) :
  writes_at out w (World (files w) o rs (memory w)).
Proof. by intros p Hp. Qed.

Ltac pres Hr :=
  first [ apply preserves_ret | apply preserves_raise | apply preserves_get_files
        | apply preserves_open_rb | apply preserves_read | apply preserves_stat_size
        | apply preserves_glob | apply preserves_read_text
        | apply preserves_sha256sum | apply preserves_ceil_div
        | apply preserves_print ];
  first [ apply _ | exact Hr | intros; apply Hr ].

Lemma preserves_merge_loop (out : path) (chunks : list path) :
  preserves (writes_at out) (merge_loop out chunks).
Proof.
  pose proof (writes_at_files out) as Hr.
  induction chunks as [|part chunks IH]; simpl; [pres Hr|].
  apply preserves_bind; [apply _|pres Hr|]. intros _.
  apply preserves_bind; [apply _|pres Hr|]. intros [buf pos].
  apply preserves_bind; [apply _|apply preserves_write; first [apply _|apply writes_at_put]|].
  intros _.
  apply preserves_bind; [apply _|pres Hr|].
  intros _. apply IH.
Qed.


Lemma split_writes_files (d : path) (n : string) (w : world)
    (o : list msg) (rs : list nat) :
  split_writes d n w (World (files w) o rs (memory w)).
Proof. intros p. by left. Qed.

Lemma split_writes_put_part (d : path) (n : string) (idx : Z) (w : world)
    (node : node) :
  0 <= idx ->
  split_writes d n w
    (World (<[part_path d n idx := node]> (files w)) (stdout w) (reads w) (memory w)).
Proof.
  intros Hi p. simpl. destruct (decide (p = part_path d n idx)) as [->|Hp].
  - right; right; left. by exists idx.
  - left. by rewrite lookup_insert_ne.
Qed.

Lemma split_writes_put_sidecar (d : path) (n : string) (w : world) (node : node) :
  split_writes d n w
    (World (<[sidecar_path d n := node]> (files w)) (stdout w) (reads w) (memory w)).
Proof.
  intros p. simpl. destruct (decide (p = sidecar_path d n)) as [->|Hp].
  - by right; right; right.
  - left. by rewrite lookup_insert_ne.
Qed.

Lemma preserves_os_mkdir (d : path) (n : string) (p : path) :
  p `prefix_of` d -> preserves (split_writes d n) (os_mkdir p).
Proof.
  intros Hp w. unfold os_mkdir, mbind, M_bind, get_files. simpl.
  destruct (exists_ (files w) p) eqn:He; [reflexivity|].
  destruct (lookup_node (files w) (parent p)) as [[?|]|]; try reflexivity.
  intros q. unfold put_files. cbn [fst files].
  destruct (decide (q = p)) as [->|Hq].
  - right; left. rewrite lookup_insert_eq. split_and!; [done| |done].
    unfold exists_ in He. destruct p; [done|].
    simpl in He. by destruct (files w !! (s :: p)).
  - left. by rewrite lookup_insert_ne.
Qed.

Lemma preserves_mkdir (d : path) (n : string) (fuel : nat) :
  forall (parents exist_ok : bool) (p : path),
  p `prefix_of` d -> preserves (split_writes d n) (mkdir fuel parents exist_ok p).
Proof.
  induction fuel as [|fuel IH]; intros parents exist_ok p Hp w;
    pose proof (preserves_os_mkdir d n p Hp w) as Hos; simpl;
    destruct (os_mkdir p w) as [w' [[]|e]]; simpl in *; try done;
    destruct e; simpl;
    try (by destruct (negb exist_ok || negb (is_dir (files w') p))).
  destruct (negb parents || bool_decide (parent p = p)); [done|].
  etrans; [exact Hos|].
  apply (preserves_bind (split_writes d n)).
  - apply IH. etrans; [apply parent_prefix|done].
  - intros _. by apply IH.
Qed.

Lemma preserves_split_loop (input : path) (size : Z) (d : path) (idxs : list Z) :
  Forall (fun idx => 0 <= idx) idxs ->
  forall (pos : nat) (acc : list path),
  preserves (split_writes d (name input)) (split_loop input size d idxs pos acc).
Proof.
  pose proof (split_writes_files d (name input)) as Hr.
  induction 1 as [|idx idxs Hidx Hall IH]; intros pos acc; simpl; [pres Hr|].
  fold (part_path d (name input) idx).
  pose proof (fun w node => split_writes_put_part d (name input) idx w node Hidx) as Hput.
  apply preserves_bind; [apply _|apply preserves_open_wb; first [apply _|exact Hput]|].
  intros _.
  apply preserves_bind; [apply _|pres Hr|]. intros [buf pos'].
  apply preserves_bind; [apply _|apply preserves_write; first [apply _|exact Hput]|].
  intros _.
  apply preserves_bind; [apply _|pres Hr|]. intros sz.
  apply preserves_bind; [apply _|pres Hr|]. intros _. apply IH.
Qed.

Lemma range_nonneg (n : Z) : Forall (fun idx => 0 <= idx) (range n).
Proof. apply Forall_forall. intros i Hi%elem_of_range. lia. Qed.


(** ** The count of chunks for a negative chunk size *)

Lemma round_half_even_nonneg (num den : Z) :
  0 <= num -> 0 < den -> 0 <= round_half_even num den.
Proof.
  intros Hn Hd. pose proof (Z.div_pos num den Hn Hd).
  destruct (round_half_even_cases num den Hd) as [[-> _]|[-> _]]; lia.
Qed.

Lemma nearest_double_bound (a b : Z) :
  0 < a -> a < 2 ^ 1023 -> 0 < b ->
  0 <= (nearest_double a b).1
  ∧ ((nearest_double a b).2 < 0 ->
     (nearest_double a b).1 * 2 ^ (- (nearest_double a b).2) < 2 ^ 1024).
Proof.
  intros Ha Ha' Hb. unfold nearest_double.
  set (e := quot_exponent a b). cbn [fst snd].
  destruct (Z.leb_spec 0 (52 - Z.max e (-1022))) as [Hk|Hk].
  - split; [|lia]. apply round_half_even_nonneg; [|done].
    assert (0 < 2 ^ (52 - Z.max e (-1022))) by (apply Z.pow_pos_nonneg; lia). nia.
  - assert (He : 52 < e) by lia.
    rewrite Z.max_l in * by lia.
    replace (- (52 - e)) with (e - 52) by lia.
    assert (Hl : e <= 1022).
    { pose proof (quot_exponent_le_log2 a b Ha Hb).
      pose proof (log2_lt_pow2_bound a 1023 Ha Ha'). unfold e. lia. }
    set (D := 2 ^ (e - 52)).
    assert (HD : 0 < D) by (apply Z.pow_pos_nonneg; lia).
    assert (HD' : D <= 2 ^ 970) by (apply Z.pow_le_mono_r; lia).
    assert (0 < b * D) as HbD by nia.
    split; [apply round_half_even_nonneg; lia|]. intros _.
    assert (Hm : round_half_even a (b * D) * D <= a + D).
    { pose proof (Z.div_mod a (b * D) ltac:(lia)) as E.
      pose proof (Z.mod_pos_bound a (b * D) HbD) as Hr.
      assert (0 <= a / (b * D)) by (apply Z.div_pos; lia).
      destruct (round_half_even_cases a (b * D) HbD) as [[-> _]|[-> _]]; nia. }
    assert (2 ^ 1023 + 2 ^ 970 < 2 ^ 1024) by (by vm_compute).
    lia.
Qed.

(** A negative chunk size gives a count that is not positive. *)
Lemma ceil_div_negative (a b : Z) :
  0 <= a -> a < 2 ^ 1023 -> b < 0 ->
  exists n, n <= 0 ∧ forall w, ceil_div a b w = (w, Ok n).
Proof.
  intros Ha Ha' Hb. unfold ceil_div.
  destruct (Z.eqb_spec b 0); [lia|].
  destruct (Z.eqb_spec a 0); [by exists 0|].
  rewrite (Z.abs_eq a), (Z.abs_neq b) by lia.
  destruct (nearest_double_bound a (- b)) as [Hm Ho]; [lia..|].
  destruct (nearest_double a (- b)) as [m k]. cbn [fst snd] in Hm, Ho.
  rewrite (Z.sgn_pos a), (Z.sgn_neg b) by lia.
  change (1 * -1 =? 1) with false. cbv iota.
  destruct (Z.leb_spec 0 k) as [Hk|Hk].
  - eexists. split; [|reflexivity].
    assert (0 < 2 ^ k) by (apply Z.pow_pos_nonneg; lia).
    pose proof (Z.div_pos m (2 ^ k) Hm ltac:(lia)). lia.
  - specialize (Ho Hk).
    destruct (Z.leb_spec (2 ^ 1024) (m * 2 ^ (- k))); [lia|].
    eexists. split; [|reflexivity].
    assert (0 < 2 ^ (- k)) by (apply Z.pow_pos_nonneg; lia). nia.
Qed.

Lemma range_nonpos (n : Z) : n <= 0 -> range n = [].
Proof. intros Hn. unfold range. replace (Z.to_nat n) with 0%nat by lia. done. Qed.

(** ** An output directory that cannot be made *)

Lemma mkdir_is_file (fuel : nat) (parents exist_ok : bool) (d : path) (w : world) :
  is_file (files w) d = true ->
  mkdir fuel parents exist_ok d w = (w, Raise FileExistsError).
Proof.
  intros Hf.
  assert (He : exists_ (files w) d = true).
  { unfold is_file, exists_ in *. by destruct (lookup_node (files w) d). }
  assert (Hd : is_dir (files w) d = false).
  { unfold is_file, is_dir in *. by destruct (lookup_node (files w) d) as [[]|]. }
  destruct fuel; simpl; rewrite (os_mkdir_exists d w He); simpl;
    rewrite Hd; by rewrite orb_true_r.
Qed.

Lemma mkdir_under_file (fuel : nat) (parents exist_ok : bool) (d : path) (w : world) :
  exists_ (files w) d = false -> is_file (files w) (parent d) = true ->
  mkdir fuel parents exist_ok d w = (w, Raise NotADirectoryError).
Proof.
  intros He Hf.
  assert (Hd : is_dir (files w) d = false).
  { unfold is_dir, exists_ in *. by destruct (lookup_node (files w) d). }
  assert (Hos : os_mkdir d w = (w, Raise NotADirectoryError)).
  { unfold os_mkdir, mbind, M_bind, get_files. rewrite He.
    unfold is_file in Hf. by destruct (lookup_node (files w) (parent d)) as [[]|]. }
  destruct fuel; simpl; rewrite Hos; simpl; rewrite Hd; by rewrite orb_true_r.
Qed.

Lemma sidecar_path_ne_input (d input : path) :
  sidecar_path d (name input) ≠ input.
Proof.
  rewrite sidecar_path_eq. intros E. apply (f_equal name) in E.
  rewrite name_app in E. apply (f_equal list_ascii_of_string) in E.
  rewrite list_ascii_app in E. apply (f_equal length) in E.
  rewrite length_app in E. simpl in E. lia.
Qed.

(** ** A split where the count of chunks is exact *)

Lemma split_exact_count (content : bytes) (mb : Z) (w : world) :
  let T := Z.of_nat (length content) in
  let S := mb * 2 ^ 20 in
  let n := - ((- T) / S) in
  T < 2 ^ 53 -> 0 < mb -> (0 < T -> fits w S) ->
  (forall w', ceil_div T (mb * Z.shiftl 1 20) w' = (w', Ok n))
  ∧ (range n = [] ∨ 0 <= mb * Z.shiftl 1 20 ∧ fits w (mb * Z.shiftl 1 20)).
Proof.
  intros T S n HT Hmb HfitS.
  assert (HS : 0 < S) by (unfold S; lia).
  assert (HT0 : 0 <= T) by (unfold T; lia).
  split.
  - intros w'. destruct (decide (T = 0)) as [E|E].
    + unfold n. rewrite E. apply ceil_div_zero.
      change (Z.shiftl 1 20) with (2 ^ 20). lia.
    + destruct (HfitS ltac:(lia)) as [HS' _].
      apply ceil_div_exact; try done; try lia.
      change (Z.shiftl 1 20) with (2 ^ 20). fold S.
      by apply fits_float.
  - destruct (decide (T = 0)) as [E|E]; [left|right].
    + unfold n. by rewrite E.
    + split; [change (Z.shiftl 1 20) with (2 ^ 20); lia|apply HfitS; lia].
Qed.

Lemma split_file_exact (input : path) (mb : Z) (d : path) (content : bytes)
    (w : world) :
  let nm := name input in
  let T := Z.of_nat (length content) in
  let S := mb * 2 ^ 20 in
  let n := - ((- T) / S) in
  let parts := map (part_path d nm) (range n) in
  let bufs := slices S content 0 (length (range n)) in
  files w !! input = Some (File content) -> input ≠ [] ->
  T < 2 ^ 53 -> 0 < mb ->
  fits w default_buf_size -> (0 < T -> fits w S) ->
  creatable (files w) d ->
  (forall i, 0 <= i < n -> files w !! part_path d nm i ≠ Some Dir) ->
  files w !! sidecar_path d nm ≠ Some Dir ->
  exists f1 rs,
    dirs_added d (files w) f1 ∧ is_dir f1 d = true
    ∧ Forall (fun r => Z.of_nat r <= default_buf_size) rs
    ∧ split_file input mb d w =
        (World (<[sidecar_path d nm := File (encode (Sha256.hexdigest content))]>
                  (write_parts f1 (zip parts bufs)))
               (stdout w ++ chunk_msgs parts bufs)
               (reads w ++ map length bufs ++ rs) (memory w),
         Ok parts).
Proof.
  intros nm T S n parts bufs Hin Hne HT Hmb Hfit1 HfitS Hc Hparts Hside.
  destruct (split_exact_count content mb w HT Hmb HfitS) as [Hceil HfS].
  exact (split_file_run input mb d content n w Hin Hne Hc Hparts Hside Hceil
           Hfit1 HfS).
Qed.

(** The same in an output directory that exists: nothing is made on the
    way to it. *)
Lemma split_file_in_dir (input : path) (mb : Z) (d : path) (content : bytes)
    (w : world) :
  let nm := name input in
  let T := Z.of_nat (length content) in
  let S := mb * 2 ^ 20 in
  let n := - ((- T) / S) in
  let parts := map (part_path d nm) (range n) in
  let bufs := slices S content 0 (length (range n)) in
  files w !! input = Some (File content) -> input ≠ [] ->
  T < 2 ^ 53 -> 0 < mb ->
  fits w default_buf_size -> (0 < T -> fits w S) ->
  is_dir (files w) d = true ->
  (forall i, 0 <= i < n -> files w !! part_path d nm i ≠ Some Dir) ->
  files w !! sidecar_path d nm ≠ Some Dir ->
  exists rs,
    Forall (fun r => Z.of_nat r <= default_buf_size) rs
    ∧ split_file input mb d w =
        (World (<[sidecar_path d nm := File (encode (Sha256.hexdigest content))]>
                  (write_parts (files w) (zip parts bufs)))
               (stdout w ++ chunk_msgs parts bufs)
               (reads w ++ map length bufs ++ rs) (memory w),
         Ok parts).
Proof.
  intros nm T S n parts bufs Hin Hne HT Hmb Hfit1 HfitS Hdir Hparts Hside.
  destruct (split_exact_count content mb w HT Hmb HfitS) as [Hceil HfS].
  change (Z.shiftl 1 20) with (2 ^ 20) in *. fold S in Hceil, HfS. fold T n in Hceil.
  assert (Hnotin : forall l : list bytes, input ∉ (zip parts l).*1).
  { intros l Hel%fst_zip_subseteq. unfold parts in Hel.
    apply list_elem_of_fmap in Hel as (idx & E & _).
    symmetry in E. by apply part_path_ne_input in E. }
  assert (Hdnotin : forall l : list bytes, d ∉ (zip parts l).*1).
  { intros l Hel%fst_zip_subseteq. unfold parts in Hel.
    apply list_elem_of_fmap in Hel as (idx & E & _).
    symmetry in E. by apply part_path_ne_dir in E. }
  set (f2 := write_parts (files w) (zip parts bufs)).
  assert (Hin2 : f2 !! input = Some (File content)).
  { unfold f2. by rewrite write_parts_notin. }
  destruct (sha256sum_run input default_buf_size content
              (World f2 (stdout w ++ chunk_msgs parts bufs)
                     (reads w ++ map length bufs) (memory w))
              Hne Hin2 ltac:(done) Hfit1) as (rs & Hsha & Hrs).
  exists rs. split; [done|].
  unfold split_file.
  erewrite bind_run by reflexivity. cbn beta.
  assert (is_file (files w) input = true) as ->.
  { apply is_file_lookup. eauto. }
  cbn [negb]. erewrite bind_run by (by apply mkdir_exists).
  erewrite bind_run by (by apply (stat_size_run _ _ content)).
  change (Z.shiftl 1 20) with (2 ^ 20). fold S T.
  erewrite bind_run by apply Hceil.
  erewrite bind_run by (by apply (open_rb_run _ _ content)).
  erewrite bind_run; cycle 1.
  { apply (split_loop_run input _ d content); [done|done| |done].
    intros idx Hidx%elem_of_range. by apply Hparts. }
  cbn zeta. fold nm parts bufs f2. fold (chunk_msgs parts bufs).
  erewrite bind_run by exact Hsha. cbn [files stdout reads memory].
  fold (sidecar_path d nm).
  erewrite bind_run; cycle 1.
  { apply write_text_run; cbn [files].
    - rewrite sidecar_path_eq, lookup_node_app, <- sidecar_path_eq.
      by apply write_parts_not_dir.
    - rewrite sidecar_path_eq, parent_app. by apply is_dir_write_parts. }
  unfold_M. cbn [files stdout reads memory]. by rewrite <- app_assoc.
Qed.


Lemma zip_with_map_map {A B C D} (f : B -> C -> D) (g : A -> B) (h : A -> C)
    (l : list A) :
  zip_with f (map g l) (map h l) = map (fun x => f (g x) (h x)) l.
Proof. induction l as [|x l IH]; [done|]. simpl. by rewrite IH. Qed.

(** The lines of a split: the path of each chunk with its size. *)
Lemma chunk_msgs_sizes (d : path) (nm : string) (S : Z) (content : bytes) (n : Z) :
  0 < S ->
  (forall i, 0 <= i < n -> i * S <= Z.of_nat (length content)) ->
  chunk_msgs (map (part_path d nm) (range n)) (slices S content 0 (length (range n)))
  = map (fun i => MsgChunk (part_path d nm i)
                           (Z.min S (Z.of_nat (length content) - i * S)))
        (range n).
Proof.
  intros HS Hle. unfold chunk_msgs.
  rewrite slices_formula by done. rewrite length_range. unfold range.
  rewrite !map_map.
  rewrite <- (map_id (seq 0 (Z.to_nat n))) at 2.
  rewrite map_map, zip_with_map_map.
  apply map_ext_in. intros i Hi%in_seq. cbn beta. f_equal.
  rewrite length_take, length_drop.
  specialize (Hle (Z.of_nat i) ltac:(lia)). nia.
Qed.

(** ** Writing the same chunks again *)

Lemma insert_write_parts_again (f : gmap path node) (l : list (path * bytes))
    (q : path) (x : node) :
  NoDup l.*1 -> q ∉ l.*1 ->
  <[q := x]> (write_parts (<[q := x]> (write_parts f l)) l)
  = <[q := x]> (write_parts f l).
Proof.
  intros Hnd Hq. apply map_eq. intros p.
  destruct (decide (p = q)) as [->|Hp]; [by rewrite !lookup_insert_eq|].
  rewrite !lookup_insert_ne by done.
  destruct (decide (p ∈ l.*1)) as [Hin|Hin].
  - apply list_elem_of_fmap in Hin as ([p' b] & -> & Hin).
    apply list_elem_of_lookup in Hin as [i Hi]. simpl.
    by rewrite !(write_parts_lookup _ l i p' b).
  - rewrite (write_parts_notin _ l p Hin), lookup_insert_ne by done. done.
Qed.

(** ** The reads of the checksum utility *)

(** The number of buffers of [b] bytes that hold [len] bytes. *)
Lemma ceil_step (len b : Z) :
  0 < len -> 0 < b ->
  - ((- len) / b) = 1 + - ((- (len - Z.min b len)) / b).
Proof.
  intros Hl Hb.
  destruct (Z.min_spec b len) as [[? ->]|[? ->]].
  - pose proof (ceil_bounds (len - b) b Hb) as [H1 H2].
    apply ceil_char; [done|]. lia.
  - replace (len - len) with 0 by lia. change (- 0) with 0.
    rewrite Z.div_0_l by lia. apply ceil_char; lia.
Qed.

Lemma iter_read_slices (p : path) (buf_size : Z) (content : bytes) (fuel : nat) :
  0 < buf_size ->
  forall (pos : nat) (w : world),
  files w !! p = Some (File content) -> fits w buf_size ->
  (length (drop pos content) < fuel)%nat ->
  let k := Z.to_nat (- ((- Z.of_nat (length (drop pos content))) / buf_size)) in
  iter_read fuel p pos buf_size w =
    (World (files w) (stdout w)
           (reads w ++ map length (slices buf_size content pos k) ++ [0%nat])
           (memory w),
     Ok (slices buf_size content pos k)).
Proof.
  intros Hb. induction fuel as [|fuel IH]; intros pos w Hp Hfit Hlen; [lia|].
  cbn zeta. cbn [iter_read]. erewrite bind_run; cycle 1.
  { apply (read_file_run _ _ _ _ content); [done|].
    unfold request. destruct (Z.ltb_spec buf_size 0); [lia|done]. }
  set (rest := drop pos content) in *.
  destruct (decide (rest = [])) as [E|E].
  - rewrite E. rewrite read_bytes_nonneg by lia. rewrite take_nil.
    cbn [length Z.of_nat Z.opp]. rewrite Z.div_0_l by lia.
    cbn [Z.opp Z.to_nat slices map app]. by unfold_M.
  - assert (HL : 0 < Z.of_nat (length rest)) by (destruct rest; [done|simpl; lia]).
    rewrite (ceil_step _ _ HL Hb).
    set (buf := read_bytes buf_size rest).
    assert (Hbl : Z.of_nat (length buf) = Z.min buf_size (Z.of_nat (length rest))).
    { unfold buf. rewrite read_bytes_nonneg by lia. rewrite length_take. lia. }
    assert (Hbuf : buf ≠ []) by (intros Eb; rewrite Eb in Hbl; simpl in Hbl; lia).
    assert (Hrest' : length (drop (pos + length buf) content)
                     = (length rest - length buf)%nat).
    { unfold rest. rewrite !length_drop. lia. }
    pose proof (ceil_covers (Z.of_nat (length rest) - Z.min buf_size (Z.of_nat (length rest)))
                  buf_size ltac:(lia) Hb) as [Hk0 _].
    rewrite Z2Nat.inj_add by lia. change (Z.to_nat 1) with 1%nat.
    cbn [Nat.add slices]. fold rest buf.
    specialize (IH (pos + length buf)%nat
                  (World (files w) (stdout w) (reads w ++ [length buf]) (memory w))
                  Hp Hfit ltac:(lia)).
    cbn zeta in IH. cbn [files stdout reads memory] in IH. rewrite Hrest' in IH.
    replace (Z.of_nat (length rest - length buf))
      with (Z.of_nat (length rest) - Z.min buf_size (Z.of_nat (length rest))) in IH
      by lia.
    cbn beta iota. rewrite (match_nonempty buf) by done.
    erewrite bind_run by exact IH.
    unfold_M. cbn [map]. by rewrite <- !app_assoc.
Qed.

Lemma sha256sum_slices (p : path) (buf_size : Z) (content : bytes) (w : world) :
  p ≠ [] -> files w !! p = Some (File content) -> 0 < buf_size ->
  fits w buf_size ->
  let k := Z.to_nat (- ((- Z.of_nat (length content)) / buf_size)) in
  sha256sum p buf_size w =
    (World (files w) (stdout w)
           (reads w ++ map length (slices buf_size content 0 k) ++ [0%nat])
           (memory w),
     Ok (Sha256.hexdigest content)).
Proof.
  intros Hne Hp Hb Hfit k. unfold sha256sum.
  erewrite bind_run by (by eapply open_rb_run).
  erewrite bind_run by reflexivity. cbn beta.
  pose proof (iter_read_slices p buf_size content
                (S (length (contents (files w) p))) Hb 0 w Hp Hfit) as Hrun.
  rewrite drop_0 in Hrun. unfold contents in Hrun. rewrite Hp in Hrun.
  specialize (Hrun ltac:(lia)). cbn zeta in Hrun. fold k in Hrun.
  unfold contents. rewrite Hp.
  erewrite bind_run by exact Hrun. unfold_M.
  rewrite fold_h_update. cbn [app]. do 3 f_equal.
  apply slices_concat; [done|].
  pose proof (ceil_covers (Z.of_nat (length content)) buf_size ltac:(lia) Hb)
    as [Hk0 [_ Hk]].
  unfold k. nia.
Qed.

Lemma slices_lengths (S : Z) (content : bytes) (k : Z) :
  0 < S ->
  (forall i, 0 <= i < k -> i * S <= Z.of_nat (length content)) ->
  map length (slices S content 0 (Z.to_nat k))
  = map (fun i => Z.to_nat (Z.min S (Z.of_nat (length content) - i * S))) (range k).
Proof.
  intros HS Hle. rewrite slices_formula by done. unfold range.
  rewrite !map_map. apply map_ext_in. intros i Hi%in_seq. cbn beta.
  rewrite length_take, length_drop.
  specialize (Hle (Z.of_nat i) ltac:(lia)). nia.
Qed.

Lemma iter_read_zero (p : path) (content : bytes) (fuel pos : nat) (w : world) :
  files w !! p = Some (File content) -> fits w 0 ->
  iter_read (S fuel) p pos 0 w
  = (World (files w) (stdout w) (reads w ++ [0%nat]) (memory w), Ok []).
Proof.
  intros Hp Hfit. cbn [iter_read].
  erewrite bind_run by (by apply (read_file_run _ _ _ _ content)).
  cbn beta iota.
  replace (read_bytes 0 (drop pos content)) with (@nil Byte.byte)
    by (by destruct (drop pos content)).
  by unfold_M.
Qed.

Lemma iter_read_all (p : path) (content : bytes) (w : world) :
  files w !! p = Some (File content) -> fits w (Z.of_nat (length content)) ->
  iter_read (S (length content)) p 0 (-1) w
  = (World (files w) (stdout w)
           (reads w ++ match content with
                       | [] => [0%nat]
                       | _ => [length content; 0%nat]
                       end)
           (memory w),
     Ok match content with [] => [] | _ => [content] end).
Proof.
  intros Hp Hfit.
  assert (Hfit0 : fits w 0)
    by (apply (fits_le w (Z.of_nat (length content)) 0); [lia|done]).
  cbn [iter_read].
  erewrite bind_run by (by apply (read_file_run _ _ _ _ content)).
  change (read_bytes (-1) (drop 0 content)) with content. cbn beta iota.
  destruct content as [|b content'] eqn:E; [by unfold_M|].
  rewrite <- E in *.
  replace (length content) with (S (length content')) by (by rewrite E).
  cbn [iter_read].
  erewrite bind_run; cycle 1.
  { erewrite bind_run; cycle 1.
    { apply (read_file_run _ _ _ _ content); [done|].
      cbn [Nat.add]. rewrite drop_ge by (rewrite E; simpl; lia). done. }
    cbn [Nat.add]. rewrite drop_ge by (rewrite E; simpl; lia). cbn beta iota.
    change (read_bytes (-1) []) with (@nil Byte.byte). cbn iota. reflexivity. }
  unfold_M. cbn [files stdout reads memory]. by rewrite <- app_assoc.
Qed.

(** ** A split into a directory that holds chunks of an earlier split *)

Lemma sorted_app_lt (l k : list Z) (b : Z) :
  StronglySorted Z.lt l -> StronglySorted Z.lt k ->
  Forall (fun i => i < b) l -> Forall (fun i => b <= i) k ->
  StronglySorted Z.lt (l ++ k).
Proof.
  intros Hl Hk Hlb Hkb. induction Hl as [|x l Hl IH Hx]; [done|].
  apply Forall_cons in Hlb as [Hxb Hlb]. simpl. constructor; [by apply IH|].
  apply Forall_app. split; [done|].
  eapply Forall_impl; [exact Hkb|]. intros i Hi. simpl in Hi. lia.
Qed.

Lemma discovered_after_split_stale (f f1 : gmap path node) (d : path) (n : string)
    (k : Z) (bufs : list bytes) (sd : bytes) (stale : list Z) :
  literal n -> dirs_added d f f1 -> 0 <= k ->
  length bufs = Z.to_nat k ->
  StronglySorted Z.lt stale -> Forall (fun i => k <= i < 1000) stale ->
  (forall i, k <= i < 1000 -> is_Some (f !! part_path d n i) <-> i ∈ stale) ->
  discovered (<[sidecar_path d n := File sd]>
                (write_parts f1 (zip (map (part_path d n) (range k)) bufs))) d n
  = map (part_path d n) (range (Z.min k 1000) ++ stale).
Proof.
  intros Hlit Hadd Hk Hlen Hss Hsb Hstale. unfold discovered.
  assert (Hsorted : StronglySorted Z.lt (range (Z.min k 1000) ++ stale)).
  { apply (sorted_app_lt _ _ (Z.min k 1000)); [apply range_sorted|done| |].
    - apply Forall_forall. intros i Hi%elem_of_range. lia.
    - eapply Forall_impl; [exact Hsb|]. intros i Hi. simpl in Hi. lia. }
  assert (Hbound : Forall (fun i => 0 <= i < 1000) (range (Z.min k 1000) ++ stale)).
  { apply Forall_app. split.
    - apply Forall_forall. intros i Hi%elem_of_range. lia.
    - eapply Forall_impl; [exact Hsb|]. intros i Hi. simpl in Hi. lia. }
  apply sorted_unique.
  - apply NoDup_filter, NoDup_listdir.
  - apply NoDup_fmap_2_strong.
    + rewrite Forall_forall in Hbound.
      intros i j Hi%Hbound Hj%Hbound. apply part_path_inj; lia.
    + clear -Hsorted. induction Hsorted as [|x l Hl IH Hx]; constructor; [|done].
      intros Hin. rewrite Forall_forall in Hx. specialize (Hx x Hin). lia.
  - intros p.
    rewrite elem_of_glob_from, elem_of_listdir, list_elem_of_fmap. split.
    + intros ((Hne & Hpar & Hsome) & Hm).
      apply fnmatch_literal_index in Hm as (i & Hi & Hname); [|done].
      assert (p = part_path d n i) as ->.
      { rewrite part_path_eq, <- Hname, <- Hpar. by apply parent_name. }
      exists i. split; [done|]. apply elem_of_app.
      destruct (decide (i < k)) as [|Hge]; [left; apply elem_of_range; lia|right].
      rewrite lookup_insert_ne in Hsome by (by intros E; symmetry in E;
                                              apply part_path_ne_sidecar in E).
      rewrite write_parts_notin in Hsome by (apply part_notin_parts; lia).
      rewrite (dirs_added_outside _ _ _ _ Hadd) in Hsome
        by apply part_path_not_prefix.
      apply Hstale; [lia|done].
    + intros (i & -> & [Hi%elem_of_range|Hi]%elem_of_app).
      * split_and!.
        -- rewrite part_path_eq. by destruct d.
        -- by rewrite part_path_eq, parent_app.
        -- rewrite lookup_insert_ne by (by intros E; symmetry in E;
                                          apply part_path_ne_sidecar in E).
           destruct (lookup_lt_is_Some_2 bufs (Z.to_nat i)) as [b Hb]; [lia|].
           rewrite <- (Z2Nat.id i) by lia.
           by rewrite (parts_lookup _ _ _ _ _ _ b).
        -- rewrite part_path_eq, name_app. apply fnmatch_literal_index; [done|].
           exists i. split; [lia|done].
      * rewrite Forall_forall in Hsb. pose proof (Hsb i Hi) as Hib. simpl in Hib.
        split_and!.
        -- rewrite part_path_eq. by destruct d.
        -- by rewrite part_path_eq, parent_app.
        -- rewrite lookup_insert_ne by (by intros E; symmetry in E;
                                          apply part_path_ne_sidecar in E).
           rewrite write_parts_notin by (apply part_notin_parts; lia).
           rewrite (dirs_added_outside _ _ _ _ Hadd) by apply part_path_not_prefix.
           by apply Hstale.
        -- rewrite part_path_eq, name_app. apply fnmatch_literal_index; [done|].
           exists i. split; [lia|done].
  - by apply StronglySorted_Sorted, parts_sorted.
Qed.

(** The merge after a split, into any output path that the split did not
    make, with whatever chunks of higher indices the directory held. *)
Lemma split_merge_run (input : path) (mb : Z) (d : path) (content : bytes)
    (w : world) (output : option path) (stale : list Z) (olds : list bytes) :
  let nm := name input in
  let T := Z.of_nat (length content) in
  let S := mb * 2 ^ 20 in
  let n := - ((- T) / S) in
  let out := resolve_output (joinpath d nm) output in
  files w !! input = Some (File content) -> input ≠ [] -> nm ≠ EmptyString ->
  content ≠ [] -> T < 2 ^ 53 -> 0 < mb ->
  fits w default_buf_size -> fits w S -> n <= 1000 ->
  literal nm ->
  creatable (files w) d ->
  (forall i, 0 <= i < n -> files w !! part_path d nm i ≠ Some Dir) ->
  files w !! sidecar_path d nm ≠ Some Dir ->
  StronglySorted Z.lt stale -> Forall (fun i => n <= i < 1000) stale ->
  Forall2 (fun i old => files w !! part_path d nm i = Some (File old)) stale olds ->
  Forall (fun old => fits w (Z.of_nat (length old))) olds ->
  (forall i, n <= i < 1000 -> i ∉ stale -> files w !! part_path d nm i = None) ->
  lookup_node (files w) out ≠ Some Dir -> ¬ out `prefix_of` d ->
  (forall i, 0 <= i -> out ≠ part_path d nm i) -> out ≠ sidecar_path d nm ->
  parent out = d ∨ is_dir (files w) (parent out) = true ->
  exists w1 w2,
    split_file input mb d w = (w1, Ok (map (part_path d nm) (range n)))
    ∧ merge_files (joinpath d nm) output w1 = (w2, Ok out)
    ∧ files w2 = <[out := File (content ++ concat olds)]> (files w1)
    ∧ last (stdout w2)
      = Some (if String.eqb (Sha256.hexdigest (content ++ concat olds))
                            (Sha256.hexdigest content)
              then MsgHashOk else MsgHashMismatch).
Proof.
  intros nm T S n out Hin Hne Hnm Hcont HT Hmb Hfit1 HfitS Hn Hlit Hc Hparts Hside
         Hss Hsb Holds Hofit Hfresh Hod Hop Hoc Hos Hopar.
  assert (HT0 : 0 < T) by (unfold T; destruct content; [done|simpl; lia]).
  assert (HS : 0 < S) by (unfold S; lia).
  pose proof (ceil_covers T S ltac:(lia) HS) as [Hn0 [Hn1 Hn2]]. fold n in Hn0, Hn1, Hn2.
  assert (Hn_pos : 0 < n) by nia.
  destruct (split_file_exact input mb d content w Hin Hne HT Hmb Hfit1
              ltac:(done) Hc Hparts Hside) as (f1 & rs & Hadd & Hdir & _ & Hrun).
  fold nm T S n in Hrun.
  set (parts := map (part_path d nm) (range n)) in *.
  set (bufs := slices S content 0 (length (range n))) in *.
  set (sd := encode (Sha256.hexdigest content)) in *.
  set (f' := <[sidecar_path d nm := File sd]> (write_parts f1 (zip parts bufs))) in *.
  assert (Hblen : length bufs = Z.to_nat n).
  { unfold bufs. by rewrite slices_length, length_range. }
  assert (Hfst : (zip parts bufs).*1 = parts).
  { apply fst_zip. unfold parts. rewrite length_map, length_range. lia. }
  assert (Hcat : concat bufs = content).
  { unfold bufs. rewrite length_range. apply slices_concat; [done|]. fold T. nia. }
  assert (Hone : out ≠ []) by (by intros E; rewrite E in Hod).
  set (chunks := map (part_path d nm) (range n ++ stale)).
  assert (Hstale_old : forall i, i ∈ stale -> is_Some (files w !! part_path d nm i)).
  { intros i Hi. apply list_elem_of_lookup in Hi as [j Hj].
    destruct (Forall2_lookup_l _ _ _ _ _ Holds Hj) as (old & _ & Ho). by rewrite Ho. }
  assert (Hdisc : discovered f' d nm = chunks).
  { unfold f', parts, chunks.
    rewrite (discovered_after_split_stale (files w) f1 d nm n bufs sd stale);
      try done; [by rewrite Z.min_l by lia|].
    intros i Hi. split; [|apply Hstale_old].
    intros Hsome. destruct (decide (i ∈ stale)) as [|Hni]; [done|].
    rewrite (Hfresh i Hi Hni) in Hsome. by destruct Hsome. }
  assert (Hstale_lookup : forall i, n <= i ->
            f' !! part_path d nm i = files w !! part_path d nm i).
  { intros i Hi. unfold f'.
    rewrite lookup_insert_ne
      by (by intros E; symmetry in E; apply part_path_ne_sidecar in E).
    rewrite write_parts_notin by (apply part_notin_parts; lia).
    by rewrite (dirs_added_outside _ _ _ _ Hadd) by apply part_path_not_prefix. }
  assert (Hd' : is_dir f' d = true).
  { unfold is_dir, f' in *. destruct d as [|a d']; [done|]. cbn [lookup_node] in *.
    rewrite lookup_insert_ne
      by (rewrite sidecar_path_eq; intros E; apply (f_equal length) in E;
          rewrite length_app in E; simpl in E; lia).
    rewrite write_parts_notin; [done|].
    rewrite Hfst. unfold parts. intros (i & E & _)%list_elem_of_fmap.
    symmetry in E. by apply part_path_ne_dir in E. }
  assert (Hout_lookup : f' !! out ≠ Some Dir).
  { unfold f'. rewrite lookup_insert_ne by done.
    apply write_parts_not_dir.
    rewrite (dirs_added_outside _ _ _ _ Hadd) by done.
    by rewrite <- (lookup_node_nonempty _ _ Hone). }
  assert (Hpar' : is_dir f' (parent out) = true).
  { destruct Hopar as [->|Hpd]; [done|].
    pose proof (is_dir_prefix_stable _ _ _ _ Hadd Hpd) as Hp1.
    unfold is_dir in *. destruct (parent out) as [|a q] eqn:Eq; [done|].
    cbn [lookup_node] in *. unfold f'.
    destruct (files w !! (a :: q)) as [[|]|] eqn:Ew; try done.
    rewrite lookup_insert_ne by (intros E; rewrite E in Hside; by rewrite Ew in Hside).
    rewrite write_parts_notin; [done|].
    rewrite Hfst. unfold parts. intros (i & E & Hi%elem_of_range)%list_elem_of_fmap.
    apply (Hparts i Hi). by rewrite <- E. }
  pose proof (merge_files_at (joinpath d nm) output
                (World f' (stdout w ++ chunk_msgs parts bufs)
                       (reads w ++ map length bufs ++ rs) (memory w))
                (bufs ++ olds) d nm chunks out
                ltac:(by rewrite joinpath_nonempty, parent_app)
                ltac:(by rewrite joinpath_nonempty, name_app) Hdisc eq_refl
                (literal_accepted nm Hlit)) as Hmerge.
  cbn [files stdout reads] in Hmerge. rewrite concat_app, Hcat in Hmerge.
  assert (Hsc : <[out := File (content ++ concat olds)]> f'
                  !! sidecar_path d nm = Some (File sd)).
  { rewrite lookup_insert_ne by done. unfold f'. by rewrite lookup_insert_eq. }
  rewrite Hsc in Hmerge.
  destruct (lower_hex_text (Sha256.hexdigest content)) as [Hdec Hstrip];
    [apply hexdigest_lower|].
  destruct (Hmerge Hd') with (text := Sha256.hexdigest content)
    as (rs' & _ & Hmrun); clear Hmerge.
  - unfold chunks. destruct (range n) eqn:E; [|done].
    apply (f_equal length) in E. rewrite length_range in E. simpl in E. lia.
  - unfold chunks. rewrite map_app. apply Forall2_app.
    + apply Forall2_same_length_lookup_2.
      { rewrite length_map, length_range. lia. }
      intros i p b Hp Hb. unfold range in Hp.
      rewrite !list_lookup_fmap in Hp.
      destruct (seq 0 (Z.to_nat n) !! i) as [j|] eqn:Hj; [|done].
      apply lookup_seq in Hj as [-> _]. injection Hp as <-. unfold f'.
      rewrite lookup_insert_ne
        by (by intros E; symmetry in E; apply part_path_ne_sidecar in E).
      by apply parts_lookup.
    + apply Forall2_fmap_l. rewrite Forall_forall in Hsb.
      eapply Forall2_elem_impl; [exact Holds|]. intros i old Hi _ Ho. unfold compose. cbn beta in *.
      rewrite Hstale_lookup; [done|]. specialize (Hsb i Hi). simpl in Hsb. lia.
  - apply Forall_app. split; [|done].
    apply Forall_forall. intros b Hb. unfold bufs in Hb.
    apply (fits_le _ S); [|done].
    pose proof (slices_bounded S content (length (range n)) ltac:(lia) 0%nat) as Hall.
    by apply (proj1 (Forall_forall _ _) Hall).
  - unfold chunks. intros (i & E & Hi)%list_elem_of_fmap.
    apply (Hoc i); [|done].
    apply elem_of_app in Hi as [Hi%elem_of_range|Hi]; [lia|].
    rewrite Forall_forall in Hsb. specialize (Hsb i Hi). simpl in Hsb. lia.
  - by rewrite lookup_node_nonempty.
  - done.
  - exact Hdec.
  - by apply fits_digest.
  - done.
  - eexists _, _. split_and!; [exact Hrun|exact Hmrun|done|].
    cbn [stdout]. rewrite !app_assoc, last_snoc. unfold verdict.
    by rewrite Hstrip.
Qed.

(** ** A merge that meets a directory among the chunks *)

Lemma merge_loop_stops (out : path) (pre : list path) (q : path) (post : list path) :
  forall (datas : list bytes) (acc : bytes) (w : world),
  Forall2 (fun p data => p ≠ [] ∧ p ≠ out ∧ files w !! p = Some (File data)
                         ∧ fits w (Z.of_nat (length data)))
          pre datas ->
  files w !! out = Some (File acc) ->
  q ≠ [] -> q ≠ out -> files w !! q = Some Dir ->
  merge_loop out (pre ++ q :: post) w =
    (World (<[out := File (acc ++ concat datas)]> (files w))
           (stdout w ++ merge_msgs out pre)
           (reads w ++ map length datas) (memory w),
     Raise IsADirectoryError).
Proof.
  induction pre as [|p pre IH]; intros datas acc w Hall Hacc Hq Hqo Hdir.
  - apply Forall2_nil_inv_l in Hall as ->. cbn [app merge_loop].
    apply bind_raise. unfold open_rb. erewrite bind_run by reflexivity.
    cbn beta. rewrite lookup_node_nonempty, Hdir by done.
    cbn [concat merge_msgs map]. rewrite !app_nil_r, insert_id by done.
    by destruct w.
  - apply Forall2_cons_inv_l
      in Hall as (data & datas' & (Hne & Hop & Hp & Hfit) & Hall & ->).
    cbn [app merge_loop].
    erewrite bind_run by (by eapply open_rb_run).
    erewrite bind_run by (by apply (read_file_run _ _ _ _ data)).
    change (read_bytes (-1) (drop 0 data)) with data. cbn beta iota.
    erewrite bind_run by apply write_run.
    erewrite bind_run by reflexivity.
    cbn [files stdout reads]. unfold contents. rewrite Hacc.
    erewrite (IH datas' (acc ++ data)); cbn [files stdout reads].
    + rewrite insert_insert_eq. cbn [concat merge_msgs map].
      by rewrite <- !app_assoc.
    + eapply Forall2_impl; [exact Hall|]. intros r x (? & ? & ? & ?).
      split; [done|]. split; [done|]. split; [by rewrite lookup_insert_ne|done].
    + by rewrite lookup_insert_eq.
    + done.
    + done.
    + by rewrite lookup_insert_ne.
Qed.

(** ** Merging again *)

Lemma NoDup_discovered (f : gmap path node) (d : path) (n : string) :
  NoDup (discovered f d n).
Proof.
  unfold discovered, sorted. rewrite merge_sort_Permutation.
  apply NoDup_filter, NoDup_listdir.
Qed.

(** A file that the pattern does not match changes nothing to what is
    discovered. *)
Lemma discovered_insert_unmatched (f : gmap path node) (d : path) (n : string)
    (out : path) (x : node) :
  (parent out = d -> Fnmatch.fnmatch (name out) (chunk_pattern n) = false) ->
  discovered (<[out := x]> f) d n = discovered f d n.
Proof.
  intros Hun. unfold discovered at 1.
  apply sorted_unique.
  - apply NoDup_filter, NoDup_listdir.
  - apply NoDup_discovered.
  - intros p. rewrite elem_of_discovered, elem_of_glob_from, elem_of_listdir.
    destruct (decide (p = out)) as [->|Hp].
    + split.
      * intros ((_ & Hpar & _) & Hm). by rewrite Hun in Hm.
      * intros (_ & Hpar & _ & Hm). by rewrite Hun in Hm.
    + rewrite lookup_insert_ne by done. tauto.
  - unfold discovered, sorted. apply Sorted_merge_sort, _.
Qed.

(** A merge that goes through, with or without a sidecar. *)
Lemma merge_files_ok (prefix : path) (output : option path) (w : world)
    (datas : list bytes) (side : option bytes) (text : string) :
  let d := parent prefix in
  let n := name prefix in
  let chunks := discovered (files w) d n in
  let out := resolve_output prefix output in
  accepted n -> is_dir (files w) d = true -> chunks ≠ [] ->
  Forall2 (fun p data => files w !! p = Some (File data)) chunks datas ->
  Forall (fun data => fits w (Z.of_nat (length data))) datas ->
  out ∉ chunks ->
  lookup_node (files w) out ≠ Some Dir -> is_dir (files w) (parent out) = true ->
  out ≠ sidecar_path d n ->
  files w !! sidecar_path d n = File <$> side ->
  (forall sdata, side = Some sdata ->
     decode sdata = Some text
     ∧ fits w (Z.of_nat (length sdata)) ∧ fits w default_buf_size) ->
  exists o rs,
    merge_files prefix output w
    = (World (<[out := File (concat datas)]> (files w)) o rs (memory w), Ok out).
Proof.
  intros d n chunks out Hacc Hd Hne Hall Hfits Hout Hof Hod Hos Hs Hdec.
  destruct side as [sdata|]; simpl in Hs.
  - destruct (Hdec sdata eq_refl) as (Hd1 & Hd2 & Hd3).
    destruct (merge_files_with_sidecar prefix output w datas Hacc Hd Hne Hall Hfits
                Hout Hof Hod Hos sdata text Hs Hd1 Hd2 Hd3) as (rs & _ & Hrun).
    by eexists _, _.
  - rewrite (merge_files_without_sidecar prefix output w datas Hacc Hd Hne Hall Hfits
               Hout Hof Hod Hos Hs).
    by eexists _, _.
Qed.

(** ** The merger concatenates in the order of the indices *)

(** For a prefix without wildcards, in a directory that holds the chunks
    of the indices [idxs] (given in ascending order) and no other chunk of
    that name: whatever the order of the listing, the chunks come out of
    [sorted] in the order of their indices, and [merge_files] writes their
    bytes to the output in that order. *)
Lemma merge_concatenates_in_index_order (prefix : path) (output : option path)
    (w : world) (idxs : list Z) (datas : list bytes) (side : option bytes)
    (text : string) :
  let d := parent prefix in
  let n := name prefix in
  let out := resolve_output prefix output in
  literal n -> is_dir (files w) d = true -> idxs ≠ [] ->
  StronglySorted Z.lt idxs -> Forall (fun i => 0 <= i < 1000) idxs ->
  Forall2 (fun i data => files w !! part_path d n i = Some (File data)) idxs datas ->
  (forall i, 0 <= i < 1000 -> i ∉ idxs -> files w !! part_path d n i = None) ->
  Forall (fun data => fits w (Z.of_nat (length data))) datas ->
  (forall i, out ≠ part_path d n i) ->
  lookup_node (files w) out ≠ Some Dir -> is_dir (files w) (parent out) = true ->
  out ≠ sidecar_path d n ->
  files w !! sidecar_path d n = File <$> side ->
  (forall sdata, side = Some sdata ->
     decode sdata = Some text
     ∧ fits w (Z.of_nat (length sdata)) ∧ fits w default_buf_size) ->
  (forall l, l ≡ₚ listdir (files w) d ->
     sorted (glob_from l (chunk_pattern n)) = map (part_path d n) idxs)
  ∧ exists w',
      merge_files prefix output w = (w', Ok out)
      ∧ files w' !! out = Some (File (concat datas)).
Proof.
  intros d n out Hlit Hd Hne Hss Hb Hall Hfresh Hfits Hoc Hof Hod Hos Hs Hdec.
  assert (Hidx_some : forall i, i ∈ idxs -> is_Some (files w !! part_path d n i)).
  { intros i Hi. apply list_elem_of_lookup in Hi as [j Hj].
    destruct (Forall2_lookup_l _ _ _ _ _ Hall Hj) as (data & _ & Ho). by rewrite Ho. }
  assert (Hdisc : discovered (files w) d n = map (part_path d n) idxs).
  { unfold discovered. apply sorted_unique.
    - apply NoDup_filter, NoDup_listdir.
    - apply NoDup_fmap_2_strong.
      + rewrite Forall_forall in Hb.
        intros i j Hi%Hb Hj%Hb. apply part_path_inj; lia.
      + clear -Hss. induction Hss as [|x l Hl IH Hx]; constructor; [|done].
        intros Hin. rewrite Forall_forall in Hx. specialize (Hx x Hin). lia.
    - intros p. rewrite elem_of_glob_from, elem_of_listdir, list_elem_of_fmap. split.
      + intros ((Hpne & Hpar & Hsome) & Hm).
        apply fnmatch_literal_index in Hm as (i & Hi & Hname); [|done].
        assert (p = part_path d n i) as ->.
        { rewrite part_path_eq, <- Hname, <- Hpar. by apply parent_name. }
        exists i. split; [done|].
        destruct (decide (i ∈ idxs)) as [|Hni]; [done|].
        rewrite (Hfresh i Hi Hni) in Hsome. by destruct Hsome.
      + intros (i & -> & Hi). rewrite Forall_forall in Hb.
        pose proof (Hb i Hi) as Hib. simpl in Hib. split_and!.
        * rewrite part_path_eq. by destruct d.
        * by rewrite part_path_eq, parent_app.
        * by apply Hidx_some.
        * rewrite part_path_eq, name_app. apply fnmatch_literal_index; [done|].
          by exists i.
    - by apply StronglySorted_Sorted, parts_sorted. }
  split.
  - intros l Hl. fold (discovered (files w) d n) in Hdisc. rewrite <- Hdisc.
    unfold discovered. apply sorted_permutation. unfold glob_from. by rewrite Hl.
  - destruct (merge_files_ok prefix output w datas side text) as (o & rs & Hrun);
      fold d n out; rewrite ?Hdisc; try done.
    + by apply literal_accepted.
    + by destruct idxs.
    + by apply Forall2_fmap_l.
    + intros (i & E & _)%list_elem_of_fmap. by apply (Hoc i).
    + eexists. split; [exact Hrun|]. cbn [files]. by rewrite lookup_insert_eq.
Qed.

Lemma merge_concatenates_in_index_order_witness :
  exists w',
    merge_files ["parts"; "f.bin"] None w_dir_files = (w', Ok ["parts"; "f.bin"])
    ∧ files w' !! ["parts"; "f.bin"] = Some (File (bytes_of_string "abcdef")).
Proof.
  destruct (merge_concatenates_in_index_order ["parts"; "f.bin"] None w_dir_files
              [0; 2] [bytes_of_string "abc"; bytes_of_string "def"] None "")
    as [_ H].
  - by vm_compute.
  - by vm_compute.
  - done.
  - repeat constructor; lia.
  - repeat constructor; lia.
  - repeat constructor.
  - intros i Hi Hni.
    assert (i ≠ 0 ∧ i ≠ 2) as [H0 H2].
    { split; intros ->; apply Hni; [by left|by right; left]. }
    unfold w_dir_files, files. rewrite part_path_eq.
    rewrite !lookup_insert_ne, lookup_singleton_ne; try done; try (by intros [=]).
    + change ["parts"; "f.bin.000"] with (["parts"] ++ [part_name "f.bin" 0]).
      rewrite <- !part_path_eq. intros E. apply part_path_inj in E; [done|lia|].
      cbn in Hi. lia.
    + change ["parts"; "f.bin.002"] with (["parts"] ++ [part_name "f.bin" 2]).
      rewrite <- !part_path_eq. intros E. apply part_path_inj in E; [done|lia|].
      cbn in Hi. lia.
  - repeat constructor; by vm_compute.
  - intros i. rewrite part_path_eq.
    intros [= E]; symmetry in E; by apply part_name_ne in E.
  - by vm_compute.
  - by vm_compute.
  - by vm_compute.
  - by vm_compute.
  - done.
  - exact H.
Defined.

(** * Further properties *)

(** ** The splitter *)

(** X1.  [split_file] checks its input and makes its output directory
    before it writes anything.  When the input is not a regular file it
    raises [FileNotFoundError]; when the output directory is a regular
    file it raises [FileExistsError]; when the output directory is missing
    and its parent is a regular file it raises [NotADirectoryError].  In
    the three cases the world is left as it was: no directory, chunk or
    sidecar is created and nothing is printed. *)
Theorem split_fails_before_writing (input : path) (mb : Z) (d : path) (w : world) :
  (is_file (files w) input = false ->
   split_file input mb d w = (w, Raise FileNotFoundError))
  ∧ (is_file (files w) input = true -> is_file (files w) d = true ->
     split_file input mb d w = (w, Raise FileExistsError))
  ∧ (is_file (files w) input = true ->
     exists_ (files w) d = false -> is_file (files w) (parent d) = true ->
     split_file input mb d w = (w, Raise NotADirectoryError)).
Proof.
  unfold split_file. split_and!.
  - intros Hin. erewrite bind_run by reflexivity. cbn beta. by rewrite Hin.
  - intros Hin Hd. erewrite bind_run by reflexivity. cbn beta. rewrite Hin.
    cbn [negb]. apply bind_raise. by apply mkdir_is_file.
  - intros Hin He Hp. erewrite bind_run by reflexivity. cbn beta. rewrite Hin.
    cbn [negb]. apply bind_raise. by apply mkdir_under_file.
Qed.

Lemma split_fails_before_writing_witness :
  split_file ["in"; "absent.bin"] 1 ["out"] w_small = (w_small, Raise FileNotFoundError)
  ∧ split_file ["in"; "f.bin"] 1 ["in"; "f.bin"] w_small
    = (w_small, Raise FileExistsError)
  ∧ split_file ["in"; "f.bin"] 1 ["in"; "f.bin"; "parts"] w_small
    = (w_small, Raise NotADirectoryError).
Proof.
  split_and!.
  - by apply (split_fails_before_writing ["in"; "absent.bin"] 1 ["out"] w_small).
  - by apply (split_fails_before_writing ["in"; "f.bin"] 1 ["in"; "f.bin"] w_small).
  - by apply (split_fails_before_writing
                ["in"; "f.bin"] 1 ["in"; "f.bin"; "parts"] w_small).
Defined.

(** X2.  With a chunk size of zero [split_file] raises
    [ZeroDivisionError], for an empty input as well, but only after it
    made the output directory: the directories along the output path
    exist afterwards, and no chunk, no sidecar and no line of output. *)
Theorem split_zero_chunk_size (input d : path) (content : bytes) (w : world) :
  files w !! input = Some (File content) -> input ≠ [] ->
  creatable (files w) d ->
  exists f1,
    split_file input 0 d w
    = (World f1 (stdout w) (reads w) (memory w), Raise ZeroDivisionError)
    ∧ is_dir f1 d = true ∧ dirs_added d (files w) f1.
Proof.
  intros Hin Hne Hc.
  destruct (mkdir_run (length d) d w Hc ltac:(lia)) as (f1 & Hmk & Hdir & Hadd).
  exists f1. split; [|done].
  assert (Hin1 : f1 !! input = Some (File content))
    by (by apply (dirs_added_file d (files w))).
  unfold split_file.
  erewrite bind_run by reflexivity. cbn beta.
  replace (is_file (files w) input) with true
    by (symmetry; apply is_file_lookup; eauto).
  cbn [negb].
  erewrite bind_run by exact Hmk.
  erewrite bind_run by (by apply (stat_size_run _ _ content)).
  by apply bind_raise.
Qed.

Lemma split_zero_chunk_size_witness :
  exists f1,
    split_file ["in"; "f.bin"] 0 ["out"; "parts"] w_small
    = (World f1 [] [] ram, Raise ZeroDivisionError)
    ∧ is_dir f1 ["out"; "parts"] = true.
Proof.
  destruct (split_zero_chunk_size ["in"; "f.bin"] ["out"; "parts"]
              (bytes_of_string "abc") w_small) as (f1 & Hrun & Hdir & _).
  - reflexivity.
  - discriminate.
  - intros p data [k E]. destruct p as [|a p]; [by vm_compute|].
    injection E as <- _. unfold w_small, files.
    rewrite lookup_insert_ne, lookup_singleton_ne by (by intros [=]). done.
  - by exists f1.
Defined.

(** X3.  A negative chunk size is not refused: the count of chunks,
    [math.ceil] of a quotient that is not positive, gives an empty
    [range], so [split_file] writes no chunk and prints nothing, writes
    the sidecar with the digest of the input, and returns the empty
    list. *)
Theorem split_negative_chunk_size (input : path) (mb : Z) (d : path)
    (content : bytes) (w : world) :
  files w !! input = Some (File content) -> input ≠ [] ->
  mb < 0 -> Z.of_nat (length content) < 2 ^ 1023 ->
  fits w default_buf_size ->
  creatable (files w) d ->
  files w !! sidecar_path d (name input) ≠ Some Dir ->
  exists f1 rs,
    dirs_added d (files w) f1
    ∧ split_file input mb d w
      = (World (<[sidecar_path d (name input) := File (encode (Sha256.hexdigest content))]> f1)
               (stdout w) (reads w ++ rs) (memory w),
         Ok []).
Proof.
  intros Hin Hne Hmb Hlen Hfit Hc Hside.
  destruct (ceil_div_negative (Z.of_nat (length content)) (mb * Z.shiftl 1 20))
    as (n & Hn & Hceil); [lia|done|change (Z.shiftl 1 20) with 1048576; lia|].
  destruct (split_file_run input mb d content n w Hin Hne Hc ltac:(intros; lia)
              Hside Hceil Hfit (or_introl (range_nonpos n Hn)))
    as (f1 & rs & Hadd & _ & _ & Hrun).
  rewrite (range_nonpos n Hn) in Hrun. cbn [map length slices zip] in Hrun.
  unfold write_parts, chunk_msgs in Hrun. cbn [foldl zip_with app] in Hrun.
  rewrite app_nil_r in Hrun.
  by exists f1, rs.
Qed.

Lemma split_negative_chunk_size_witness :
  exists f1 rs,
    split_file ["in"; "f.bin"] (-1) ["out"] w_small
    = (World (<[ ["out"; "f.bin.sha256"] := File (encode abc_digest) ]> f1)
             [] rs ram,
       Ok []).
Proof.
  destruct (split_negative_chunk_size ["in"; "f.bin"] (-1) ["out"]
              (bytes_of_string "abc") w_small) as (f1 & rs & _ & Hrun).
  - reflexivity.
  - discriminate.
  - lia.
  - by vm_compute.
  - split; by vm_compute.
  - intros p data [k E]. destruct p as [|a p]; [by vm_compute|].
    injection E as <- _. unfold w_small, files.
    rewrite lookup_insert_ne, lookup_singleton_ne by (by intros [=]). done.
  - by vm_compute.
  - by exists f1, rs.
Defined.

(** X4.  A chunk size that cannot be allocated.  [split_file] reads a
    whole chunk with one [read(chunk_size)], which allocates the buffer
    first.  For a non-empty input and a chunk size beyond what the
    machine can allocate, the read of the first chunk raises
    [MemoryError] ([OverflowError] beyond the largest [bytes] object),
    after the output directory was made and the first chunk file opened:
    an empty chunk file is left, and no sidecar. *)
Theorem split_chunk_too_large (input : path) (mb : Z) (d : path) (content : bytes)
    (w : world) :
  let nm := name input in
  let T := Z.of_nat (length content) in
  let S := mb * 2 ^ 20 in
  files w !! input = Some (File content) -> input ≠ [] ->
  content ≠ [] -> T < 2 ^ 53 -> 0 < mb -> S < 2 ^ 1075 ->
  ¬ fits w S ->
  creatable (files w) d ->
  files w !! part_path d nm 0 ≠ Some Dir ->
  exists f1,
    dirs_added d (files w) f1
    ∧ split_file input mb d w
      = (World (<[part_path d nm 0 := File []]> f1) (stdout w) (reads w) (memory w),
         Raise (if max_bytes <? S then OverflowError else MemoryError)).
Proof.
  intros nm T S Hin Hne Hcont HT Hmb HS' Hnofit Hc Hpart.
  assert (HT0 : 0 < T) by (unfold T; destruct content; [done|simpl; lia]).
  assert (HS : 0 < S) by (unfold S; lia).
  pose proof (ceil_covers T S ltac:(lia) HS) as [Hn0 [Hn1 Hn2]].
  set (n := - ((- T) / S)) in *.
  assert (Hn_pos : 0 < n) by nia.
  destruct (mkdir_run (length d) d w Hc ltac:(lia)) as (f1 & Hmk & Hdir & Hadd).
  exists f1. split; [done|].
  assert (Hin1 : f1 !! input = Some (File content))
    by (by apply (dirs_added_file d (files w))).
  unfold split_file.
  erewrite bind_run by reflexivity. cbn beta.
  replace (is_file (files w) input) with true
    by (symmetry; apply is_file_lookup; eauto).
  cbn [negb].
  erewrite bind_run by exact Hmk.
  erewrite bind_run by (by apply (stat_size_run _ _ content)).
  change (Z.shiftl 1 20) with (2 ^ 20). fold T S.
  erewrite bind_run by (by apply ceil_div_exact).
  erewrite bind_run by (by apply (open_rb_run _ _ content)).
  apply bind_raise. fold n.
  assert (Hr : range n = 0 :: map Z.of_nat (seq 1 (Z.to_nat n - 1)%nat)).
  { unfold range. replace (Z.to_nat n) with (Datatypes.S (Z.to_nat n - 1)%nat) at 1 by lia.
    done. }
  rewrite Hr. cbn [split_loop]. fold nm. fold (part_path d nm 0).
  erewrite bind_run; cycle 1.
  { apply open_wb_run; cbn [files].
    - rewrite part_path_eq, lookup_node_app, <- part_path_eq.
      rewrite (dirs_added_outside _ _ _ _ Hadd); [done|].
      apply part_path_not_prefix.
    - by rewrite part_path_eq, parent_app. }
  apply bind_raise. unfold read.
  erewrite bind_run by reflexivity. cbn beta zeta.
  apply bind_raise. unfold alloc, request.
  destruct (Z.ltb_spec S 0); [lia|].
  destruct (Z.ltb_spec max_bytes S); [done|]. cbn [memory].
  destruct (Z.ltb_spec (memory w) S); [done|].
  exfalso. apply Hnofit. by split.
Qed.

Lemma split_chunk_too_large_witness :
  exists f1,
    split_file ["in"; "f.bin"] (2 ^ 13 + 1) ["out"] w_small
    = (World (<[ ["out"; "f.bin.000"] := File [] ]> f1) [] [] ram, Raise MemoryError).
Proof.
  destruct (split_chunk_too_large ["in"; "f.bin"] (2 ^ 13 + 1) ["out"]
              (bytes_of_string "abc") w_small) as (f1 & _ & Hrun).
  - reflexivity.
  - discriminate.
  - discriminate.
  - by vm_compute.
  - lia.
  - by vm_compute.
  - intros [_ H]. by vm_compute in H.
  - intros p data [k E]. destruct p as [|a p]; [by vm_compute|].
    injection E as <- _. unfold w_small, files.
    rewrite lookup_insert_ne, lookup_singleton_ne by (by intros [=]). done.
  - by vm_compute.
  - by exists f1.
Defined.

(** X5.  Whatever its arguments and the state of the store, and whether
    it returns or raises, [split_file] changes nothing but what it is
    there to make: a path whose entry differs afterwards is a directory
    that was missing along the output path, the path of a chunk of the
    input's name in the output directory, or that of the sidecar.  The
    entry of the input path is never changed, also when the input lies in
    the output directory. *)
Theorem split_touches_only_its_outputs (input : path) (mb : Z) (d : path)
    (w : world) :
  let w' := (split_file input mb d w).1 in
  (forall p,
     files w' !! p = files w !! p
     ∨ (p `prefix_of` d ∧ files w !! p = None ∧ files w' !! p = Some Dir)
     ∨ (exists idx, 0 <= idx ∧ p = part_path d (name input) idx)
     ∨ p = sidecar_path d (name input))
  ∧ files w' !! input = files w !! input.
Proof.
  intros w'.
  assert (Hpres : preserves (split_writes d (name input)) (split_file input mb d)).
  { pose proof (split_writes_files d (name input)) as Hr.
    unfold split_file.
    apply preserves_bind; [apply _|pres Hr|]. intros f.
    destruct (negb _); [pres Hr|].
    apply preserves_bind; [apply _|by apply preserves_mkdir|]. intros _.
    apply preserves_bind; [apply _|pres Hr|]. intros total_size.
    apply preserves_bind; [apply _|pres Hr|]. intros total_parts.
    apply preserves_bind; [apply _|pres Hr|]. intros _.
    apply preserves_bind; [apply _|apply preserves_split_loop, range_nonneg|].
    intros chunk_paths.
    apply preserves_bind; [apply _|pres Hr|]. intros h.
    apply preserves_bind; [apply _| |intros _; pres Hr].
    fold (sidecar_path d (name input)).
    apply preserves_write_text; first [apply _|apply split_writes_put_sidecar]. }
  pose proof (Hpres w) as H. fold w' in H.
  split; [exact H|].
  destruct (is_file (files w) input) eqn:Hin.
  - apply is_file_lookup in Hin as (Hne & data & Hin).
    destruct (H input) as [E|[(_ & E & _)|[(idx & _ & E)|E]]].
    + done.
    + congruence.
    + symmetry in E. by apply part_path_ne_input in E.
    + symmetry in E. by apply sidecar_path_ne_input in E.
  - unfold w', split_file. erewrite bind_run by reflexivity. cbn beta.
    by rewrite Hin.
Qed.

(** X6.  A split of a file of [T] bytes (below [2^53]) into chunks of
    [S] bytes returns the chunk paths [name.000], [name.001], ... in
    index order, and prints one line per chunk, in that order, with the
    path of the chunk and its size: [S], or what is left of the file for
    the last one. *)
Theorem split_reports_chunks (input : path) (mb : Z) (d : path) (content : bytes)
    (w : world) :
  let nm := name input in
  let T := Z.of_nat (length content) in
  let S := mb * 2 ^ 20 in
  let n := - ((- T) / S) in
  files w !! input = Some (File content) -> input ≠ [] ->
  T < 2 ^ 53 -> 0 < mb ->
  fits w default_buf_size -> (0 < T -> fits w S) ->
  creatable (files w) d ->
  (forall i, 0 <= i < n -> files w !! part_path d nm i ≠ Some Dir) ->
  files w !! sidecar_path d nm ≠ Some Dir ->
  exists w1,
    split_file input mb d w = (w1, Ok (map (part_path d nm) (range n)))
    ∧ stdout w1
      = stdout w ++ map (fun i => MsgChunk (part_path d nm i) (Z.min S (T - i * S)))
                        (range n).
Proof.
  intros nm T S n Hin Hne HT Hmb Hfit1 HfitS Hc Hparts Hside.
  destruct (split_file_exact input mb d content w Hin Hne HT Hmb Hfit1 HfitS Hc
              Hparts Hside) as (f1 & rs & _ & _ & _ & Hrun).
  eexists. split; [exact Hrun|]. cbn [stdout]. f_equal.
  assert (HS : 0 < S) by (unfold S; lia).
  pose proof (ceil_covers T S ltac:(unfold T; lia) HS) as [Hn0 [Hn1 Hn2]].
  apply chunk_msgs_sizes; [done|]. intros i Hi. fold T. fold n in Hn1. nia.
Qed.

Lemma split_reports_chunks_witness :
  exists w1,
    split_file ["in"; "f.bin"] 1 ["out"] w_small = (w1, Ok [["out"; "f.bin.000"]])
    ∧ stdout w1 = [MsgChunk ["out"; "f.bin.000"] 3].
Proof.
  destruct (split_reports_chunks ["in"; "f.bin"] 1 ["out"] (bytes_of_string "abc")
              w_small) as (w1 & Hrun & Hout).
  - reflexivity.
  - discriminate.
  - by vm_compute.
  - lia.
  - split; by vm_compute.
  - intros _. split; by vm_compute.
  - intros p data [k E]. destruct p as [|a p]; [by vm_compute|].
    injection E as <- _. unfold w_small, files.
    rewrite lookup_insert_ne, lookup_singleton_ne by (by intros [=]). done.
  - intros i _. unfold w_small, files. rewrite part_path_eq.
    rewrite lookup_insert_ne, lookup_singleton_ne by (by intros [=]). done.
  - by vm_compute.
  - exists w1. split; [exact Hrun|exact Hout].
Defined.

(** X7.  Running the same split a second time changes nothing: it
    returns the same chunk paths and leaves every file of the store as
    the first run left it (the chunks and the sidecar are overwritten
    with the bytes they hold). *)
Theorem split_twice_same (input : path) (mb : Z) (d : path) (content : bytes)
    (w : world) :
  let nm := name input in
  let T := Z.of_nat (length content) in
  let S := mb * 2 ^ 20 in
  let n := - ((- T) / S) in
  files w !! input = Some (File content) -> input ≠ [] ->
  T < 2 ^ 53 -> 0 < mb ->
  fits w default_buf_size -> (0 < T -> fits w S) ->
  creatable (files w) d ->
  (forall i, 0 <= i < n -> files w !! part_path d nm i ≠ Some Dir) ->
  files w !! sidecar_path d nm ≠ Some Dir ->
  exists w1 w2 parts,
    split_file input mb d w = (w1, Ok parts)
    ∧ split_file input mb d w1 = (w2, Ok parts)
    ∧ files w2 = files w1.
Proof.
  intros nm T S n Hin Hne HT Hmb Hfit1 HfitS Hc Hparts Hside.
  destruct (split_file_exact input mb d content w Hin Hne HT Hmb Hfit1 HfitS Hc
              Hparts Hside) as (f1 & rs & Hadd & Hdir & _ & Hrun).
  fold nm T S n in Hrun.
  set (parts := map (part_path d nm) (range n)) in *.
  set (bufs := slices S content 0 (length (range n))) in *.
  set (sd := encode (Sha256.hexdigest content)) in *.
  set (w1 := World (<[sidecar_path d nm := File sd]> (write_parts f1 (zip parts bufs)))
                   (stdout w ++ chunk_msgs parts bufs)
                   (reads w ++ map length bufs ++ rs) (memory w)) in *.
  assert (Hblen : length bufs = Z.to_nat n).
  { unfold bufs. by rewrite slices_length, length_range. }
  assert (Hfst : (zip parts bufs).*1 = parts).
  { apply fst_zip. unfold parts. rewrite length_map, length_range. lia. }
  assert (Hsn : sidecar_path d nm ∉ (zip parts bufs).*1).
  { rewrite Hfst. unfold parts. intros (i & E & _)%list_elem_of_fmap.
    symmetry in E. by apply part_path_ne_sidecar in E. }
  destruct (split_file_in_dir input mb d content w1) as (rs' & _ & Hrun');
    try done.
  - unfold w1. cbn [files].
    rewrite lookup_insert_ne by apply sidecar_path_ne_input.
    rewrite write_parts_notin; [by apply (dirs_added_file d (files w))|].
    rewrite Hfst. unfold parts. intros (i & E & _)%list_elem_of_fmap.
    symmetry in E. by apply part_path_ne_input in E.
  - unfold w1, is_dir in *. destruct d as [|a d']; [done|]. cbn [lookup_node files] in *.
    rewrite lookup_insert_ne
      by (rewrite sidecar_path_eq; intros E; apply (f_equal length) in E;
          rewrite length_app in E; simpl in E; lia).
    rewrite write_parts_notin; [done|].
    rewrite Hfst. unfold parts. intros (i & E & _)%list_elem_of_fmap.
    symmetry in E. by apply part_path_ne_dir in E.
  - intros i Hi. change (0 <= i < n) in Hi. fold nm. unfold w1. cbn [files].
    rewrite lookup_insert_ne
      by (by intros E; symmetry in E; apply part_path_ne_sidecar in E).
    destruct (lookup_lt_is_Some_2 bufs (Z.to_nat i)) as [b Hb]; [lia|].
    assert (E : write_parts f1 (zip parts bufs) !! part_path d nm (Z.of_nat (Z.to_nat i))
                = Some (File b)) by (by apply parts_lookup).
    rewrite Z2Nat.id in E by lia. by rewrite E.
  - fold nm. unfold w1. cbn [files]. by rewrite lookup_insert_eq.
  - fold nm T S n parts bufs sd in Hrun'.
    eexists w1, _, parts. split; [exact Hrun|]. split; [exact Hrun'|].
    unfold w1. cbn [files]. apply insert_write_parts_again; [|done].
    rewrite Hfst. apply NoDup_parts.
Qed.

Lemma split_twice_same_witness :
  exists w1 w2 parts,
    split_file ["in"; "f.bin"] 1 ["out"] w_small = (w1, Ok parts)
    ∧ split_file ["in"; "f.bin"] 1 ["out"] w1 = (w2, Ok parts)
    ∧ files w2 = files w1.
Proof.
  apply (split_twice_same ["in"; "f.bin"] 1 ["out"] (bytes_of_string "abc") w_small).
  - reflexivity.
  - discriminate.
  - by vm_compute.
  - lia.
  - split; by vm_compute.
  - intros _. split; by vm_compute.
  - intros p data [k E]. destruct p as [|a p]; [by vm_compute|].
    injection E as <- _. unfold w_small, files.
    rewrite lookup_insert_ne, lookup_singleton_ne by (by intros [=]). done.
  - intros i _. unfold w_small, files. rewrite part_path_eq.
    rewrite lookup_insert_ne, lookup_singleton_ne by (by intros [=]). done.
  - by vm_compute.
Defined.

(** X8.  The name of the chunk of index [i] is the name of the input, a
    dot, and the decimal digits of [i] with zeros on the left up to three
    digits: the index reads back from the suffix, which has three digits
    exactly when [i] is below 1000.  So the chunks of a split never
    collide, whatever their number: two indices give two paths, and no
    chunk path is the input, the sidecar or the default output of the
    merge. *)
Theorem chunk_names_are_distinct (d input : path) (i j : Z) :
  0 <= i -> 0 <= j ->
  let nm := name input in
  let suffix := list_ascii_of_string (format_index CHUNK_SUFFIX_LEN i) in
  part_path d nm i = d ++ [nm +:+ "." +:+ format_index CHUNK_SUFFIX_LEN i]
  ∧ decimal_val suffix = i
  ∧ (length suffix = 3%nat <-> i < 1000)
  ∧ (part_path d nm i = part_path d nm j -> i = j)
  ∧ part_path d nm i ≠ input
  ∧ part_path d nm i ≠ sidecar_path d nm
  ∧ part_path d nm i ≠ joinpath d nm.
Proof.
  intros Hi Hj nm suffix. split_and!.
  - apply part_path_eq.
  - by apply format_index_val.
  - split.
    + intros Hlen. destruct (Z.lt_ge_cases i 1000) as [|Hge]; [done|].
      pose proof (format_index_long i Hge) as Hlong. fold suffix in Hlong. lia.
    + intros Hlt. unfold suffix. rewrite format_index_three by lia.
      by rewrite list_ascii_of_string_of_list_ascii.
  - by apply part_path_inj.
  - apply part_path_ne_input.
  - apply part_path_ne_sidecar.
  - rewrite part_path_eq. unfold joinpath.
    destruct (String.eqb nm EmptyString).
    + intros E. apply (f_equal length) in E. rewrite length_app in E.
      simpl in E. lia.
    + intros [_ E]%app_inj_tail. by apply part_name_ne in E.
Qed.

Lemma chunk_names_are_distinct_witness :
  part_path ["out"] "f.bin" 1000 = ["out"; "f.bin.1000"]
  ∧ part_path ["out"] "f.bin" 1000 ≠ part_path ["out"] "f.bin" 100.
Proof.
  destruct (chunk_names_are_distinct ["out"] ["in"; "f.bin"] 1000 100)
    as (Hp & _ & _ & Hinj & _); [lia|lia|].
  split; [exact Hp|]. intros E. by apply Hinj in E.
Defined.

(** ** The checksum utility *)

(** X9.  For every positive buffer size that can be allocated,
    [sha256sum] returns the SHA-256 of all the bytes of the file, so the
    digest does not depend on the buffer size; it changes no file and
    prints nothing.  It reads the file once from start to end: a file of
    [T] bytes takes [ceil(T / buf_size)] reads of [buf_size] bytes, the
    last one of what is left, and one more read that returns nothing. *)
Theorem sha256sum_reads_in_buffers (p : path) (buf_size : Z) (content : bytes)
    (w : world) :
  let T := Z.of_nat (length content) in
  let k := - ((- T) / buf_size) in
  p ≠ [] -> files w !! p = Some (File content) ->
  0 < buf_size -> fits w buf_size ->
  exists w',
    sha256sum p buf_size w = (w', Ok (Sha256.hexdigest content))
    ∧ files w' = files w ∧ stdout w' = stdout w
    ∧ reads w'
      = reads w ++ map (fun i => Z.to_nat (Z.min buf_size (T - i * buf_size))) (range k)
                ++ [0%nat].
Proof.
  intros T k Hne Hp Hb Hfit.
  eexists. split; [by apply sha256sum_slices|].
  cbn [files stdout reads]. split_and!; [done..|]. do 2 f_equal.
  pose proof (ceil_covers T buf_size ltac:(unfold T; lia) Hb) as [Hk0 [Hk1 _]].
  apply slices_lengths; [done|]. intros i Hi. fold T. fold k in Hk1. nia.
Qed.

Lemma sha256sum_reads_in_buffers_witness :
  exists w',
    sha256sum ["in"; "f.bin"] 2 w_small = (w', Ok abc_digest)
    ∧ files w' = files w_small ∧ stdout w' = []
    ∧ reads w' = [2; 1; 0]%nat.
Proof.
  apply (sha256sum_reads_in_buffers ["in"; "f.bin"] 2 (bytes_of_string "abc") w_small).
  - discriminate.
  - reflexivity.
  - lia.
  - split; by vm_compute.
Defined.

(** X10.  Two buffer sizes are not sizes.  With [buf_size = 0] the first
    read returns nothing, which ends the loop: [sha256sum] returns the
    digest of the empty message whatever the file holds.  With
    [buf_size = -1] the first read returns the whole file, and the digest
    is that of the file. *)
Theorem sha256sum_degenerate_buffers (p : path) (content : bytes) (w : world) :
  p ≠ [] -> files w !! p = Some (File content) ->
  fits w (Z.of_nat (length content)) ->
  sha256sum p 0 w
  = (World (files w) (stdout w) (reads w ++ [0%nat]) (memory w),
     Ok (Sha256.hexdigest []))
  ∧ sha256sum p (-1) w
    = (World (files w) (stdout w)
             (reads w ++ match content with
                         | [] => [0%nat]
                         | _ => [length content; 0%nat]
                         end)
             (memory w),
       Ok (Sha256.hexdigest content)).
Proof.
  intros Hne Hp Hfit.
  assert (Hfit0 : fits w 0)
    by (apply (fits_le w (Z.of_nat (length content)) 0); [lia|done]).
  unfold sha256sum. split.
  - erewrite bind_run by (by eapply open_rb_run).
    erewrite bind_run by reflexivity. cbn beta.
    erewrite bind_run by (by apply (iter_read_zero _ content)).
    by unfold_M.
  - erewrite bind_run by (by eapply open_rb_run).
    erewrite bind_run by reflexivity. cbn beta.
    unfold contents. rewrite Hp.
    erewrite bind_run by (by apply iter_read_all).
    unfold_M. rewrite fold_h_update.
    destruct content; [done|]. cbn [concat app]. by rewrite app_nil_r.
Qed.

Lemma sha256sum_degenerate_buffers_witness :
  (sha256sum ["in"; "f.bin"] 0 w_small).2
  = Ok "e3b0c44298fc1c149afbf4c8996fb92427ae41e4649b934ca495991b7852b855"%string
  ∧ (sha256sum ["in"; "f.bin"] (-1) w_small).2 = Ok abc_digest.
Proof.
  destruct (sha256sum_degenerate_buffers ["in"; "f.bin"] (bytes_of_string "abc")
              w_small) as [H0 H1].
  - discriminate.
  - reflexivity.
  - split; by vm_compute.
  - rewrite H0, H1. split; reflexivity.
Defined.

(** X11.  [sha256sum] only reads: for every path and every buffer size
    that [read] accepts, whether it returns a digest or raises, it leaves
    every file as it was and prints nothing. *)
Theorem sha256sum_only_reads (p : path) (buf_size : Z) (w : world) :
  -1 <= buf_size ->
  let w' := (sha256sum p buf_size w).1 in
  files w' = files w ∧ stdout w' = stdout w ∧ memory w' = memory w.
Proof.
  intros _. apply (preserves_sha256sum reads_only). by intros w0 rs.
Qed.

Lemma sha256sum_only_reads_witness :
  let w' := (sha256sum ["in"] 4 w_small).1 in
  (sha256sum ["in"] 4 w_small).2 = Raise IsADirectoryError
  ∧ files w' = files w_small ∧ stdout w' = stdout w_small.
Proof.
  split; [reflexivity|].
  destruct (sha256sum_only_reads ["in"] 4 w_small) as (Hf & Ho & _); [lia|].
  by split.
Defined.

(** ** The merger *)

(** X12.  Whatever its arguments and the state of the store, and whether
    it returns or raises, [merge_files] writes to no path but its output
    path: every other entry of the store, the chunks and the sidecar
    among them, is afterwards what it was.  The merger deletes
    nothing. *)
Theorem merge_writes_only_the_output (prefix : path) (output : option path)
    (w : world) (p : path) :
  p ≠ resolve_output prefix output ->
  files (merge_files prefix output w).1 !! p = files w !! p.
Proof.
  intros Hp. revert w p Hp.
  change (preserves (writes_at (resolve_output prefix output))
            (merge_files prefix output)).
  pose proof (writes_at_files (resolve_output prefix output)) as Hr.
  unfold merge_files. fold (resolve_output prefix output).
  set (out := resolve_output prefix output) in *.
  apply preserves_bind; [apply _|pres Hr|]. intros f.
  destruct (negb _); [pres Hr|].
  apply preserves_bind; [apply _|pres Hr|]. intros found.
  destruct (sorted found) as [|c chunks]; [pres Hr|].
  apply preserves_bind;
    [apply _|apply preserves_open_wb; first [apply _|apply writes_at_put]|]. intros _.
  apply preserves_bind; [apply _|apply preserves_merge_loop|]. intros _.
  apply preserves_bind; [apply _|pres Hr|]. intros f'.
  apply preserves_bind; [apply _| |intros _; pres Hr].
  destruct (exists_ f' _); [|pres Hr].
  apply preserves_bind; [apply _|pres Hr|]. intros text.
  apply preserves_bind; [apply _|pres Hr|]. intros h.
  destruct (String.eqb _ _); pres Hr.
Qed.

Lemma merge_writes_only_the_output_witness :
  (merge_files ["parts"; "f.bin"] None w_wrong).2 = Ok ["parts"; "f.bin"]
  ∧ files (merge_files ["parts"; "f.bin"] None w_wrong).1 !! ["parts"; "f.bin.000"]
    = Some (File (bytes_of_string "abc"))
  ∧ files (merge_files ["parts"; "f.bin"] None w_wrong).1 !! ["parts"; "f.bin.sha256"]
    = Some (File (encode "00")).
Proof.
  split; [reflexivity|]. split.
  - by rewrite (merge_writes_only_the_output ["parts"; "f.bin"] None w_wrong).
  - by rewrite (merge_writes_only_the_output ["parts"; "f.bin"] None w_wrong).
Defined.

(** X13.  A merge that fails half-way leaves what it wrote.  When the
    entries that the pattern matches hold a directory (say a directory
    named [f.bin.001]), [merge_files] raises [IsADirectoryError] when it
    comes to it, after it created or truncated the output and appended
    the chunks that sort before the directory: the output file holds
    their bytes, their lines were printed, and nothing is rolled back. *)
Theorem merge_stops_at_directory (prefix : path) (output : option path)
    (w : world) (pre : list path) (q : path) (post : list path)
    (datas : list bytes) :
  let d := parent prefix in
  let n := name prefix in
  let out := resolve_output prefix output in
  accepted n -> is_dir (files w) d = true ->
  discovered (files w) d n = pre ++ q :: post ->
  Forall2 (fun p data => files w !! p = Some (File data)) pre datas ->
  Forall (fun data => fits w (Z.of_nat (length data))) datas ->
  files w !! q = Some Dir ->
  out ∉ pre ->
  lookup_node (files w) out ≠ Some Dir -> is_dir (files w) (parent out) = true ->
  merge_files prefix output w =
    (World (<[out := File (concat datas)]> (files w))
           (stdout w ++ merge_msgs out pre)
           (reads w ++ map length datas) (memory w),
     Raise IsADirectoryError).
Proof.
  intros d n out Hacc Hd Hdisc Hall Hfits Hq Hout Hnd Hpd.
  assert (Hone : out ≠ []) by (by intros E; rewrite E in Hnd).
  assert (Hin : forall p, p ∈ pre ++ q :: post -> p ≠ []).
  { intros p Hp. rewrite <- Hdisc in Hp. by apply elem_of_discovered in Hp as [? _]. }
  assert (Hqo : q ≠ out).
  { intros ->. by rewrite lookup_node_nonempty in Hnd. }
  unfold merge_files.
  erewrite bind_run by reflexivity. cbn beta. fold d. rewrite Hd. cbn [negb].
  fold n. fold (chunk_pattern n).
  erewrite bind_run by (by apply glob_run). cbn beta. rewrite Hd.
  fold (discovered (files w) d n). rewrite Hdisc.
  rewrite (match_nonempty (pre ++ q :: post)) by (by destruct pre).
  fold (resolve_output prefix output). fold out.
  erewrite bind_run by (by apply open_wb_run).
  apply bind_raise.
  rewrite (merge_loop_stops out pre q post datas []); cbn [files stdout reads memory].
  - by rewrite insert_insert_eq.
  - eapply Forall2_elem_impl; [exact Hall|]. intros p data Hp Hx Hlk. cbn beta.
    assert (p ≠ out) by (by intros ->).
    split; [apply Hin, elem_of_app; by left|].
    split; [done|]. split; [by rewrite lookup_insert_ne|].
    by apply (proj1 (List.Forall_forall _ _) Hfits), list_elem_of_In.
  - by rewrite lookup_insert_eq.
  - apply Hin, elem_of_app. right. by left.
  - done.
  - by rewrite lookup_insert_ne.
Qed.

Lemma merge_stops_at_directory_witness :
  let r := merge_files ["parts"; "f.bin"] None w_dir_chunk in
  r.2 = Raise IsADirectoryError
  ∧ files r.1 !! ["parts"; "f.bin"] = Some (File (bytes_of_string "abc"))
  ∧ stdout r.1 = [MsgMerge ["parts"; "f.bin.000"] ["parts"; "f.bin"]].
Proof.
  rewrite (merge_stops_at_directory ["parts"; "f.bin"] None w_dir_chunk
             [["parts"; "f.bin.000"]] ["parts"; "f.bin.001"] [["parts"; "f.bin.002"]]
             [bytes_of_string "abc"]).
  - done.
  - by vm_compute.
  - by vm_compute.
  - by vm_compute.
  - repeat constructor.
  - repeat constructor; by vm_compute.
  - reflexivity.
  - vm_compute. intros H. inversion H as [|? ? ? H']; inversion H'.
  - by vm_compute.
  - by vm_compute.
Defined.

(** X14.  A merge whose output cannot be opened fails before it writes.
    When chunks were found but the output path is a directory,
    [merge_files] raises [IsADirectoryError]; when the output path is in a
    directory that does not exist, it raises [FileNotFoundError].  In both
    cases the world is left as it was: nothing is read, written or
    printed. *)
Theorem merge_output_cannot_be_opened (prefix : path) (output : option path)
    (w : world) :
  let d := parent prefix in
  let n := name prefix in
  let out := resolve_output prefix output in
  accepted n -> is_dir (files w) d = true -> discovered (files w) d n ≠ [] ->
  (is_dir (files w) out = true ->
   merge_files prefix output w = (w, Raise IsADirectoryError))
  ∧ (exists_ (files w) out = false -> exists_ (files w) (parent out) = false ->
     is_dir (files w) (parent (parent out)) = true ->
     merge_files prefix output w = (w, Raise FileNotFoundError)).
Proof.
  intros d n out Hacc Hd Hne.
  assert (Hopen : forall e, open_wb out w = (w, Raise e) ->
                            merge_files prefix output w = (w, Raise e)).
  { intros e He. unfold merge_files.
    erewrite bind_run by reflexivity. cbn beta. fold d. rewrite Hd. cbn [negb].
    fold n. fold (chunk_pattern n).
    erewrite bind_run by (by apply glob_run). cbn beta. rewrite Hd.
    fold (discovered (files w) d n).
    rewrite (match_nonempty (discovered (files w) d n)) by done.
    fold (resolve_output prefix output). fold out.
    by apply bind_raise. }
  split.
  - intros Hod. apply Hopen. unfold open_wb.
    erewrite bind_run by reflexivity. cbn beta.
    unfold is_dir in Hod. by destruct (lookup_node (files w) out) as [[]|].
  - intros Hex Hpar _. apply Hopen. unfold open_wb.
    erewrite bind_run by reflexivity. cbn beta.
    unfold exists_ in Hex, Hpar.
    destruct (lookup_node (files w) out) as [[]|]; try done.
    by destruct (lookup_node (files w) (parent out)) as [[]|].
Qed.

Lemma merge_output_cannot_be_opened_witness :
  merge_files ["parts"; "f.bin"] (Some ["parts"]) w_bare
  = (w_bare, Raise IsADirectoryError)
  ∧ merge_files ["parts"; "f.bin"] (Some ["absent"; "f.bin"]) w_bare
    = (w_bare, Raise FileNotFoundError).
Proof.
  split.
  - apply (merge_output_cannot_be_opened ["parts"; "f.bin"] (Some ["parts"]) w_bare);
      by vm_compute.
  - apply (merge_output_cannot_be_opened ["parts"; "f.bin"]
             (Some ["absent"; "f.bin"]) w_bare); by vm_compute.
Defined.

(** X15.  Merging twice gives what merging once gives.  When the output
    path is not itself a name that the pattern matches (as the default
    output never is for a name without wildcards), a second run of the
    same merge finds the same chunks, for the first run left them in
    place, returns the same path and leaves every file as the first run
    left it. *)
Theorem merge_twice_same (prefix : path) (output : option path) (w : world)
    (datas : list bytes) (side : option bytes) (text : string) :
  let d := parent prefix in
  let n := name prefix in
  let chunks := discovered (files w) d n in
  let out := resolve_output prefix output in
  accepted n -> is_dir (files w) d = true -> chunks ≠ [] ->
  Forall2 (fun p data => files w !! p = Some (File data)) chunks datas ->
  Forall (fun data => fits w (Z.of_nat (length data))) datas ->
  out ∉ chunks ->
  lookup_node (files w) out ≠ Some Dir -> is_dir (files w) (parent out) = true ->
  out ≠ sidecar_path d n ->
  files w !! sidecar_path d n = File <$> side ->
  (forall sdata, side = Some sdata ->
     decode sdata = Some text
     ∧ fits w (Z.of_nat (length sdata)) ∧ fits w default_buf_size) ->
  (parent out = d -> Fnmatch.fnmatch (name out) (chunk_pattern n) = false) ->
  exists w1 w2,
    merge_files prefix output w = (w1, Ok out)
    ∧ merge_files prefix output w1 = (w2, Ok out)
    ∧ files w1 !! out = Some (File (concat datas))
    ∧ files w2 = files w1.
Proof.
  intros d n chunks out Hacc Hd Hne Hall Hfits Hout Hof Hod Hos Hs Hdec Hun.
  assert (Hone : out ≠ []) by (by intros E; rewrite E in Hof).
  destruct (merge_files_ok prefix output w datas side text Hacc Hd Hne Hall Hfits
              Hout Hof Hod Hos Hs Hdec) as (o & rs & Hrun).
  fold d n out in Hrun.
  set (f1 := <[out := File (concat datas)]> (files w)) in *.
  assert (Hdir_stable : forall q, is_dir (files w) q = true -> is_dir f1 q = true).
  { intros q Hq. unfold is_dir, f1 in *. destruct q as [|a q]; [done|].
    cbn [lookup_node] in *. rewrite lookup_insert_ne; [done|].
    intros E. apply Hof. rewrite E. cbn [lookup_node].
    by destruct (files w !! (a :: q)) as [[]|]. }
  assert (Hdisc : discovered f1 d n = chunks)
    by (by apply discovered_insert_unmatched).
  destruct (merge_files_ok prefix output (World f1 o rs (memory w)) datas side text)
    as (o' & rs' & Hrun'); cbn [files]; fold d n out; rewrite ?Hdisc; try done.
  - by apply Hdir_stable.
  - eapply Forall2_elem_impl; [exact Hall|]. intros p data Hp _ Hlk. cbn beta.
    unfold f1. rewrite lookup_insert_ne; [done|]. by intros ->.
  - rewrite lookup_node_nonempty by done. unfold f1. by rewrite lookup_insert_eq.
  - by apply Hdir_stable.
  - unfold f1. by rewrite lookup_insert_ne.
  - eexists _, _. split; [exact Hrun|]. split; [exact Hrun'|].
    cbn [files]. unfold f1. split; [by rewrite lookup_insert_eq|].
    by rewrite insert_insert_eq.
Qed.

Lemma merge_twice_same_witness :
  exists w1 w2,
    merge_files ["parts"; "f.bin"] None w_wrong = (w1, Ok ["parts"; "f.bin"])
    ∧ merge_files ["parts"; "f.bin"] None w1 = (w2, Ok ["parts"; "f.bin"])
    ∧ files w1 !! ["parts"; "f.bin"] = Some (File (bytes_of_string "abc"))
    ∧ files w2 = files w1.
Proof.
  apply (merge_twice_same ["parts"; "f.bin"] None w_wrong [bytes_of_string "abc"]
           (Some (encode "00")) "00").
  - by vm_compute.
  - by vm_compute.
  - by vm_compute.
  - vm_compute. repeat constructor.
  - repeat constructor; by vm_compute.
  - vm_compute. intros H. inversion H as [|? ? ? H']; inversion H'.
  - by vm_compute.
  - by vm_compute.
  - by vm_compute.
  - by vm_compute.
  - intros sdata [= <-]. split_and!; [by vm_compute|split; by vm_compute..].
  - intros _. by vm_compute.
Defined.

(** ** The splitter and the merger together *)

(** X16.  The round trip into an output path of the caller's choice.
    For a non-empty file below [2^53] bytes whose name has no wildcard,
    split into at most 1000 chunks in a directory that holds no other
    chunk of that name, [merge_files] with an explicit output path (one
    that is not a directory, a chunk or the sidecar, in a directory that
    exists) writes the bytes of the input there, returns that path and
    reports the checksum as verified; the chunks and the sidecar stay as
    the split wrote them. *)
Theorem split_then_merge_to_output (input : path) (mb : Z) (d : path)
    (content : bytes) (w : world) (out : path) :
  let nm := name input in
  let T := Z.of_nat (length content) in
  let S := mb * 2 ^ 20 in
  let n := - ((- T) / S) in
  files w !! input = Some (File content) -> input ≠ [] -> nm ≠ EmptyString ->
  content ≠ [] -> T < 2 ^ 53 -> 0 < mb ->
  fits w default_buf_size -> fits w S -> n <= 1000 ->
  literal nm ->
  creatable (files w) d ->
  (forall i, 0 <= i < n -> files w !! part_path d nm i ≠ Some Dir) ->
  (forall i, n <= i < 1000 -> files w !! part_path d nm i = None) ->
  files w !! sidecar_path d nm ≠ Some Dir ->
  lookup_node (files w) out ≠ Some Dir -> ¬ out `prefix_of` d ->
  (forall i, 0 <= i -> out ≠ part_path d nm i) -> out ≠ sidecar_path d nm ->
  parent out = d ∨ is_dir (files w) (parent out) = true ->
  exists w1 w2,
    split_file input mb d w = (w1, Ok (map (part_path d nm) (range n)))
    ∧ merge_files (joinpath d nm) (Some out) w1 = (w2, Ok out)
    ∧ files w2 !! out = Some (File content)
    ∧ last (stdout w2) = Some MsgHashOk
    ∧ (forall p, p ≠ out -> files w2 !! p = files w1 !! p).
Proof.
  intros nm T S n Hin Hne Hnm Hcont HT Hmb Hfit1 HfitS Hn Hlit Hc Hparts Hfresh
         Hside Hod Hop Hoc Hos Hopar.
  destruct (split_merge_run input mb d content w (Some out) [] [])
    as (w1 & w2 & Hrun & Hmrun & Hfiles & Hlast); try done.
  { constructor. }
  { intros i Hi _. by apply Hfresh. }
  cbn [concat] in Hfiles, Hlast. rewrite app_nil_r in Hfiles, Hlast.
  rewrite String.eqb_refl in Hlast.
  exists w1, w2. split_and!; [done..| |done|].
  - by rewrite Hfiles, lookup_insert_eq.
  - intros p Hp. by rewrite Hfiles, lookup_insert_ne.
Qed.

Lemma split_then_merge_to_output_witness :
  exists w1 w2,
    split_file ["in"; "f.bin"] 1 ["out"] w_small = (w1, Ok [["out"; "f.bin.000"]])
    ∧ merge_files ["out"; "f.bin"] (Some ["in"; "copy.bin"]) w1
      = (w2, Ok ["in"; "copy.bin"])
    ∧ files w2 !! ["in"; "copy.bin"] = Some (File (bytes_of_string "abc")).
Proof.
  destruct (split_then_merge_to_output ["in"; "f.bin"] 1 ["out"] (bytes_of_string "abc")
              w_small ["in"; "copy.bin"])
    as (w1 & w2 & Hrun & Hmrun & Hout & _).
  - reflexivity.
  - discriminate.
  - discriminate.
  - discriminate.
  - by vm_compute.
  - lia.
  - split; by vm_compute.
  - split; by vm_compute.
  - by vm_compute.
  - by vm_compute.
  - intros p data [k E]. destruct p as [|a p]; [by vm_compute|].
    injection E as <- _. unfold w_small, files.
    rewrite lookup_insert_ne, lookup_singleton_ne by (by intros [=]). done.
  - intros i _. unfold w_small, files. rewrite part_path_eq.
    rewrite lookup_insert_ne, lookup_singleton_ne by (by intros [=]). done.
  - intros i _. unfold w_small, files. rewrite part_path_eq.
    rewrite lookup_insert_ne, lookup_singleton_ne by (by intros [=]). done.
  - by vm_compute.
  - by vm_compute.
  - intros [k E]. by destruct k.
  - intros i _. rewrite part_path_eq. by intros [=].
  - by vm_compute.
  - right. by vm_compute.
  - by exists w1, w2.
Defined.

(** X17.  A split does not clear its output directory.  When the
    directory already holds chunk files of the same name with indices
    from the new count upwards (left by an earlier split into smaller
    chunks), they stay, and the merge concatenates them after the new
    chunks: the output is the input followed by the bytes of the old
    chunks, and the merge still returns the output path; the line it
    prints last says whether the digest of that output is the one of the
    sidecar. *)
Theorem stale_chunks_are_merged (input : path) (mb : Z) (d : path)
    (content : bytes) (w : world) (stale : list Z) (olds : list bytes) :
  let nm := name input in
  let T := Z.of_nat (length content) in
  let S := mb * 2 ^ 20 in
  let n := - ((- T) / S) in
  files w !! input = Some (File content) -> input ≠ [] -> nm ≠ EmptyString ->
  content ≠ [] -> T < 2 ^ 53 -> 0 < mb ->
  fits w default_buf_size -> fits w S -> n <= 1000 ->
  literal nm ->
  creatable (files w) d ->
  (forall i, 0 <= i < n -> files w !! part_path d nm i ≠ Some Dir) ->
  files w !! sidecar_path d nm ≠ Some Dir ->
  files w !! (d ++ [nm]) ≠ Some Dir ->
  StronglySorted Z.lt stale -> Forall (fun i => n <= i < 1000) stale ->
  Forall2 (fun i old => files w !! part_path d nm i = Some (File old)) stale olds ->
  Forall (fun old => fits w (Z.of_nat (length old))) olds ->
  (forall i, n <= i < 1000 -> i ∉ stale -> files w !! part_path d nm i = None) ->
  exists w1 w2,
    split_file input mb d w = (w1, Ok (map (part_path d nm) (range n)))
    ∧ merge_files (joinpath d nm) None w1 = (w2, Ok (joinpath d nm))
    ∧ files w2 !! joinpath d nm = Some (File (content ++ concat olds))
    ∧ last (stdout w2)
      = Some (if String.eqb (Sha256.hexdigest (content ++ concat olds))
                            (Sha256.hexdigest content)
              then MsgHashOk else MsgHashMismatch).
Proof.
  intros nm T S n Hin Hne Hnm Hcont HT Hmb Hfit1 HfitS Hn Hlit Hc Hparts Hside
         Hout Hss Hsb Holds Hofit Hfresh.
  assert (Hjoin : joinpath d nm = d ++ [nm]) by (by apply joinpath_nonempty).
  assert (Hres : resolve_output (joinpath d nm) None = d ++ [nm]).
  { cbn [resolve_output]. by rewrite Hjoin, parent_app, name_app. }
  destruct (split_merge_run input mb d content w None stale olds)
    as (w1 & w2 & Hrun & Hmrun & Hfiles & Hlast); try done; fold nm;
    rewrite ?Hres.
  - by rewrite lookup_node_app.
  - intros Hpre%prefix_length. rewrite length_app in Hpre. simpl in Hpre. lia.
  - intros i _ E. rewrite part_path_eq in E. apply app_inj_tail in E as [_ E].
    symmetry in E. by apply part_name_ne in E.
  - rewrite sidecar_path_eq. intros [_ E]%app_inj_tail.
    apply (f_equal list_ascii_of_string) in E. rewrite list_ascii_app in E.
    apply (f_equal length) in E. rewrite length_app in E. simpl in E. lia.
  - left. by rewrite parent_app.
  - fold nm in Hmrun, Hfiles. rewrite Hres, <- Hjoin in Hmrun, Hfiles.
    exists w1, w2. split_and!; [done..| |done].
    by rewrite Hfiles, lookup_insert_eq.
Qed.

Lemma stale_chunks_are_merged_witness :
  exists w1 w2,
    split_file ["in"; "f.bin"] 1 ["out"] w_stale = (w1, Ok [["out"; "f.bin.000"]])
    ∧ merge_files ["out"; "f.bin"] None w1 = (w2, Ok ["out"; "f.bin"])
    ∧ files w2 !! ["out"; "f.bin"] = Some (File (bytes_of_string "abcold"))
    ∧ last (stdout w2) = Some MsgHashMismatch.
Proof.
  destruct (stale_chunks_are_merged ["in"; "f.bin"] 1 ["out"] (bytes_of_string "abc")
              w_stale [1] [bytes_of_string "old"])
    as (w1 & w2 & Hrun & Hmrun & Hout & Hlast).
  - reflexivity.
  - discriminate.
  - discriminate.
  - discriminate.
  - by vm_compute.
  - lia.
  - split; by vm_compute.
  - split; by vm_compute.
  - by vm_compute.
  - by vm_compute.
  - intros p data [k E]. destruct p as [|a p]; [by vm_compute|].
    destruct p as [|b p]; [|by destruct p].
    injection E as <-. by vm_compute.
  - intros i Hi. change (0 <= i < 1) in Hi. assert (i = 0) as -> by lia.
    by vm_compute.
  - by vm_compute.
  - by vm_compute.
  - repeat constructor.
  - repeat constructor; by vm_compute.
  - repeat constructor.
  - repeat constructor; by vm_compute.
  - intros i Hi Hni.
    assert (i ≠ 1) as Hi1 by (intros ->; apply Hni; by left).
    unfold w_stale, files. rewrite part_path_eq.
    rewrite !lookup_insert_ne, lookup_singleton_ne; try done; try (by intros [=]).
    change ["out"; "f.bin.001"] with (["out"] ++ [part_name "f.bin" 1]).
    rewrite <- !part_path_eq. intros E. change (1 <= i < 1000) in Hi.
    apply part_path_inj in E; [done|lia|lia].
  - by exists w1, w2.
Defined.

(** ** The command line *)

(** X18.  The command line reports a failure and exits with status 1.
    For [split] on an input that is not a regular file, and for [merge]
    on a prefix whose directory is missing or holds no chunk, [main]
    catches the [FileNotFoundError], prints one line on the standard
    error and ends with status 1; nothing goes to the standard output
    and the store is as it was. *)
Theorem main_reports_not_found (w : world) :
  (forall input mb d,
     is_file (files w) input = false ->
     main (Split input mb d) w = Outcome w [FileNotFoundError] 1)
  ∧ (forall prefix output,
       is_dir (files w) (parent prefix) = false
       ∨ accepted (name prefix)
         ∧ glob_from (listdir (files w) (parent prefix)) (chunk_pattern (name prefix))
           = [] ->
       main (Merge prefix output) w = Outcome w [FileNotFoundError] 1).
Proof.
  split.
  - intros input mb d Hin. unfold main.
    rewrite (bind_raise _ _ w w FileNotFoundError); [done|].
    unfold split_file. erewrite bind_run by reflexivity. cbn beta. by rewrite Hin.
  - intros prefix output H. unfold main.
    by rewrite (bind_raise _ _ w w FileNotFoundError)
      by (by apply merge_files_not_found).
Qed.

Lemma main_reports_not_found_witness :
  main (Split ["in"; "absent.bin"] 1 []) w_small
  = Outcome w_small [FileNotFoundError] 1
  ∧ main (Merge ["parts"; "movie.mkv"] None) w_no_chunks
    = Outcome w_no_chunks [FileNotFoundError] 1.
Proof.
  destruct (main_reports_not_found w_small) as [Hs _].
  destruct (main_reports_not_found w_no_chunks) as [_ Hm].
  split.
  - by apply Hs.
  - apply Hm. right. split; by vm_compute.
Defined.

(** X19.  The round trip through the command line.  Under the
    conditions of the round trip (a non-empty file below [2^53] bytes, a
    name without wildcards, at most 1000 chunks, a directory with no
    other chunk of that name), the [split] command and then the [merge]
    command on the prefix, without an output path, both end with status
    0 and nothing on the standard error, and the file at the prefix holds
    the bytes of the input. *)
Theorem main_split_then_merge (input : path) (mb : Z) (d : path) (content : bytes)
    (w : world) :
  let nm := name input in
  let T := Z.of_nat (length content) in
  let S := mb * 2 ^ 20 in
  let n := - ((- T) / S) in
  files w !! input = Some (File content) -> input ≠ [] -> nm ≠ EmptyString ->
  content ≠ [] -> T < 2 ^ 53 -> 0 < mb ->
  fits w default_buf_size -> fits w S -> n <= 1000 ->
  literal nm ->
  creatable (files w) d ->
  (forall i, 0 <= i < n -> files w !! part_path d nm i ≠ Some Dir) ->
  (forall i, n <= i < 1000 -> files w !! part_path d nm i = None) ->
  files w !! sidecar_path d nm ≠ Some Dir ->
  files w !! (d ++ [nm]) ≠ Some Dir ->
  exists w1 w2,
    main (Split input mb d) w = Outcome w1 [] 0
    ∧ main (Merge (joinpath d nm) None) w1 = Outcome w2 [] 0
    ∧ files w2 !! joinpath d nm = Some (File content)
    ∧ last (stdout w2) = Some MsgHashOk.
Proof.
  intros nm T S n Hin Hne Hnm Hcont HT Hmb Hfit1 HfitS Hn Hlit Hc Hparts Hfresh
         Hside Hout.
  assert (Hjoin : joinpath d nm = d ++ [nm]) by (by apply joinpath_nonempty).
  assert (Hres : resolve_output (joinpath d nm) None = d ++ [nm]).
  { cbn [resolve_output]. by rewrite Hjoin, parent_app, name_app. }
  destruct (split_merge_run input mb d content w None [] [])
    as (w1 & w2 & Hrun & Hmrun & Hfiles & Hlast); try done; fold nm;
    rewrite ?Hres.
  - constructor.
  - intros i Hi _. by apply Hfresh.
  - by rewrite lookup_node_app.
  - intros Hpre%prefix_length. rewrite length_app in Hpre. simpl in Hpre. lia.
  - intros i _ E. rewrite part_path_eq in E. apply app_inj_tail in E as [_ E].
    symmetry in E. by apply part_name_ne in E.
  - rewrite sidecar_path_eq. intros [_ E]%app_inj_tail.
    apply (f_equal list_ascii_of_string) in E. rewrite list_ascii_app in E.
    apply (f_equal length) in E. rewrite length_app in E. simpl in E. lia.
  - left. by rewrite parent_app.
  - fold nm in Hmrun, Hfiles. rewrite Hres, <- Hjoin in Hmrun, Hfiles.
    cbn [concat] in Hfiles, Hlast. rewrite app_nil_r in Hfiles, Hlast.
    rewrite String.eqb_refl in Hlast.
    exists w1, w2. unfold main. split_and!; [| | |done].
    + by erewrite bind_run by exact Hrun.
    + by erewrite bind_run by exact Hmrun.
    + by rewrite Hfiles, lookup_insert_eq.
Qed.

Lemma main_split_then_merge_witness :
  exists w1 w2,
    main (Split ["in"; "f.bin"] 1 ["out"; "parts"]) w_small = Outcome w1 [] 0
    ∧ main (Merge ["out"; "parts"; "f.bin"] None) w1 = Outcome w2 [] 0
    ∧ files w2 !! ["out"; "parts"; "f.bin"] = Some (File (bytes_of_string "abc"))
    ∧ last (stdout w2) = Some MsgHashOk.
Proof.
  apply (main_split_then_merge ["in"; "f.bin"] 1 ["out"; "parts"] (bytes_of_string "abc")
           w_small).
  - reflexivity.
  - discriminate.
  - discriminate.
  - discriminate.
  - by vm_compute.
  - lia.
  - split; by vm_compute.
  - split; by vm_compute.
  - by vm_compute.
  - by vm_compute.
  - intros p data [k E]. destruct p as [|a p]; [by vm_compute|].
    injection E as <- _. unfold w_small, files.
    rewrite lookup_insert_ne, lookup_singleton_ne by (by intros [=]). done.
  - intros i _. unfold w_small, files. rewrite part_path_eq.
    rewrite lookup_insert_ne, lookup_singleton_ne by (by intros [=]). done.
  - intros i _. unfold w_small, files. rewrite part_path_eq.
    rewrite lookup_insert_ne, lookup_singleton_ne by (by intros [=]). done.
  - by vm_compute.
  - by vm_compute.
Defined.
